(** * recovery.c: the recovery session engine

    A shallow embedding of [get_args], [finish_recovery], [erase_root] and
    the command dispatch of [main] from [recovery.c], with the C string
    routines they are written with, and the properties of the session
    engine proved (or refuted) on it; and of the menus
    [get_selected_item], [choose_wipe_type], [choose_update_file] and
    [choose_tar_file], with what is proved of them. *)

From Stdlib Require Import String Ascii List Arith ZArith Bool Lia.
Import ListNotations.

(** ** C strings over byte buffers

    A [char] is one byte.  The target is ARM, where plain [char] is
    unsigned, so the comparisons with [255] in the source are meaningful.
    A buffer is the list of its bytes; a C string read through a pointer is
    the run of bytes before the first NUL. *)

Module CStr.

Definition char := ascii.
Definition chars := list char.

Definition NUL : char := "000"%char.
Definition LF : char := "010"%char.
Definition CR : char := "013"%char.
Definition xFF : char := "255"%char.
Definition DQUOTE : char := "034"%char.

Definition is_nul (c : char) : bool := Ascii.eqb c NUL.

(** A string literal of the source (without escapes). *)
Definition lit (s : string) : chars := list_ascii_of_string s.

(** The string a [char*] denotes: the bytes before the first NUL. *)
Fixpoint cstr (buf : chars) : chars :=
  match buf with
  | [] => []
  | c :: rest => if is_nul c then [] else c :: cstr rest
  end.

Fixpoint chars_eqb (a b : chars) : bool :=
  match a, b with
  | [], [] => true
  | x :: a', y :: b' => Ascii.eqb x y && chars_eqb a' b'
  | _, _ => false
  end.

(** [!strcmp(a, b)] *)
Definition streq (a b : chars) : bool := chars_eqb (cstr a) (cstr b).

Fixpoint mem (c : char) (set : chars) : bool :=
  match set with
  | [] => false
  | d :: set' => Ascii.eqb c d || mem c set'
  end.

(** [s] has no NUL byte: it is a string as a [char*] denotes one. *)
Definition no_nul (s : chars) : bool := forallb (fun c => negb (is_nul c)) s.

(** The buffer [buf] holds the string [s] and its terminator. *)
Definition holds (buf s : chars) : Prop :=
  no_nul s = true /\ exists tail, buf = s ++ NUL :: tail.

(** [memset(buf, 0, n)] on a fresh buffer of [n] bytes. *)
Definition zeros (n : nat) : chars := repeat NUL n.

(** Store [data] at the start of [dst], the bytes after it keep their
    value. *)
Definition overwrite (dst data : chars) : chars :=
  data ++ skipn (length data) dst.

(** [strlcpy(dst, src, siz)]: at most [siz - 1] bytes of [src] and a NUL. *)
Definition strlcpy (dst src : chars) (siz : nat) : chars :=
  match siz with
  | 0 => dst
  | S room => overwrite dst (firstn room (cstr src) ++ [NUL])
  end.

(** [strlcat(dst, src, siz)]: looks for the end of [dst] within [siz]
    bytes; without one nothing is written, otherwise as much of [src] as
    leaves room for the NUL is appended. *)
Definition strlcat (dst src : chars) (siz : nat) : chars :=
  let dlen := length (cstr (firstn siz dst)) in
  if dlen =? siz then dst
  else
    let s := firstn (siz - dlen - 1) (cstr src) in
    firstn dlen dst ++ overwrite (skipn dlen dst) (s ++ [NUL]).

(** [buf[i] = c] (nothing when [i] is outside the list). *)
Fixpoint store (buf : chars) (i : nat) (c : char) : chars :=
  match buf, i with
  | [], _ => []
  | _ :: rest, 0 => c :: rest
  | b :: rest, S j => b :: store rest j c
  end.

(** *** strtok

    [strtok] keeps a pointer into the buffer it was given and overwrites
    the delimiter that ends a token with NUL.  The state is the buffer cut
    at that pointer: [scanned] is what lies before it (as left by the
    calls so far), [pending] what lies from it on. *)

Record tok_state := TokState { scanned : chars; pending : chars }.

(** The delimiters at the start of [p], and the rest. *)
Fixpoint strtok_skip (delims p : chars) : chars * chars :=
  match p with
  | [] => ([], [])
  | c :: r =>
      if negb (is_nul c) && mem c delims then
        let (sk, rest) := strtok_skip delims r in (c :: sk, rest)
      else ([], p)
  end.

(** The token at the start of [p], and the rest from the byte that ends
    it (a delimiter or the NUL). *)
Fixpoint strtok_span (delims p : chars) : chars * chars :=
  match p with
  | [] => ([], [])
  | c :: r =>
      if is_nul c || mem c delims then ([], p)
      else let (t, rest) := strtok_span delims r in (c :: t, rest)
  end.

(** [strtok(NULL, delims)] from state [st]; [strtok(buf, delims)] is the
    same from [TokState [] buf].  [None] is the NULL result. *)
Definition strtok (delims : chars) (st : tok_state) : option chars * tok_state :=
  let (sk, p1) := strtok_skip (cstr delims) (pending st) in
  let (t, p2) := strtok_span (cstr delims) p1 in
  match t with
  | [] => (None, TokState (scanned st ++ sk) p1)
  | _ :: _ =>
      match p2 with
      | [] => (Some t, TokState (scanned st ++ sk ++ t) [])
      | c :: r =>
          if is_nul c then (Some t, TokState (scanned st ++ sk ++ t) p2)
          else (Some t, TokState (scanned st ++ sk ++ t ++ [NUL]) r)
      end
  end.

(** The buffer as the calls so far have left it. *)
Definition tok_buffer (st : tok_state) : chars := scanned st ++ pending st.

(** *** fgets

    [fgets(buf, size, fp)] on the unread part of a stream: [None] at end
    of file, otherwise the bytes read (at most [size - 1], ending after
    the first newline) and what is left unread. *)

Fixpoint read_line (room : nat) (s : chars) : chars * chars :=
  match room, s with
  | 0, _ => ([], s)
  | _, [] => ([], [])
  | S room', c :: r =>
      if Ascii.eqb c LF then ([c], r)
      else let (l, rest) := read_line room' r in (c :: l, rest)
  end.

Definition fgets (size : nat) (s : chars) : option (chars * chars) :=
  match s with
  | [] => None
  | _ :: _ => Some (read_line (size - 1) s)
  end.

End CStr.

(** ** The session engine *)

Module Recovery.
Import CStr.

(** *** Constants of recovery.c *)

Definition COMMAND_FILE : chars := lit "CACHE:recovery/command".
Definition INTENT_FILE : chars := lit "CACHE:recovery/intent".
Definition LOG_FILE : chars := lit "CACHE:recovery/log".
Definition TEMPORARY_LOG_FILE : chars := lit "/tmp/recovery.log".

Definition MAX_ARG_LENGTH : nat := 4096.
Definition MAX_ARGS : nat := 100.

(** *** The bootloader control block

    [struct bootloader_message] is declared in bootloader.h, which is not
    among the sources: three [char] arrays [command], [status] and
    [recovery].  Their capacities ([sizeof]) are parameters of the
    development. *)

Record sizes := Sizes {
  command_size : nat;
  status_size : nat;
  recovery_size : nat
}.

Record bootloader_message := BootMsg {
  command : chars;
  status : chars;
  recovery : chars
}.

(** The text [get_args] builds in the [recovery] field for the arguments
    [args] (those after [argv[0]]), before the capacity cuts it. *)
Definition serialize (args : list chars) : chars :=
  lit "recovery" ++ [LF] ++ flat_map (fun a => cstr a ++ [LF]) args.

(** Strings joined by newlines: [serialize args] is
    [joined (lit "recovery" :: args)] and a last newline. *)
Definition joined (l : list chars) : chars :=
  match l with
  | [] => []
  | a :: rest => a ++ flat_map (fun b => LF :: b) rest
  end.

(** An argument that a line of the [recovery] field can carry: not empty,
    and without newline (or NUL). *)
Definition plain_arg (a : chars) : bool :=
  match a with
  | [] => false
  | _ :: _ => forallb (fun c => negb (is_nul c) && negb (Ascii.eqb c LF)) a
  end.

(** *** The world outside the process *)

Inductive level := LOG_E | LOG_W | LOG_I.

Inductive icon := BACKGROUND_ICON_INSTALLING | BACKGROUND_ICON_ERROR.

(** [enum { INSTALL_SUCCESS, INSTALL_ERROR, INSTALL_CORRUPT }] of install.h. *)
Inductive install_status := INSTALL_SUCCESS | INSTALL_ERROR | INSTALL_CORRUPT.

(** What the process does to the outside, in order.  [LOGE], [LOGW] and
    [LOGI] are macros of common.h (not among the sources); a [Log] event
    carries the level and the formatted text. *)
Inductive event :=
| Log (l : level) (text : chars)
| UiSetBackground (i : icon)
| UiShowIndeterminateProgress
| UiPrint (text : chars)
| FormatRootDevice (root : chars)
| InstallPackage (path : chars)
| PromptAndWait
| Sync
| Reboot.

(** Modelled from the spec: the roots facade (roots.c, not among the
    sources) mounts a volume and translates a path on it, and either can
    fail.  For a path on the cache volume: [ensure_root_path_mounted]
    fails, or [translate_root_path] fails, or both succeed. *)
Inductive root_state := MountFails | BadPath | Mounted.

Record world := World {
  bcb : bootloader_message;          (* the block on the misc partition *)
  cache : root_state;
  command_file : option chars;       (* CACHE:recovery/command *)
  intent_file : option chars;        (* CACHE:recovery/intent *)
  log_file : option chars;           (* CACHE:recovery/log *)
  tmp_log : option chars;            (* /tmp/recovery.log *)
  tmplog_offset : nat;               (* the static of finish_recovery *)
  format_result : chars -> Z;        (* what format_root_device returns *)
  install_result : chars -> install_status;
  trace : list event                 (* oldest first *)
}.

Definition emit (e : event) (w : world) : world :=
  World (bcb w) (cache w) (command_file w) (intent_file w) (log_file w)
        (tmp_log w) (tmplog_offset w) (format_result w) (install_result w)
        (trace w ++ [e]).

Definition set_bcb (m : bootloader_message) (w : world) : world :=
  World m (cache w) (command_file w) (intent_file w) (log_file w)
        (tmp_log w) (tmplog_offset w) (format_result w) (install_result w)
        (trace w).

Definition set_command_file (f : option chars) (w : world) : world :=
  World (bcb w) (cache w) f (intent_file w) (log_file w)
        (tmp_log w) (tmplog_offset w) (format_result w) (install_result w)
        (trace w).

Definition set_intent_file (f : option chars) (w : world) : world :=
  World (bcb w) (cache w) (command_file w) f (log_file w)
        (tmp_log w) (tmplog_offset w) (format_result w) (install_result w)
        (trace w).

Definition set_log_file (f : option chars) (w : world) : world :=
  World (bcb w) (cache w) (command_file w) (intent_file w) f
        (tmp_log w) (tmplog_offset w) (format_result w) (install_result w)
        (trace w).

Definition set_tmplog_offset (n : nat) (w : world) : world :=
  World (bcb w) (cache w) (command_file w) (intent_file w) (log_file w)
        (tmp_log w) n (format_result w) (install_result w)
        (trace w).

Definition LOGE (text : chars) : world -> world := emit (Log LOG_E text).
Definition LOGW (text : chars) : world -> world := emit (Log LOG_W text).
Definition LOGI (text : chars) : world -> world := emit (Log LOG_I text).

(** Modelled from the spec: [get_bootloader_message] of bootloader.c (not
    among the sources) reads the whole record and never fails its caller.
    A failed read leaves the caller's zeroed structure, which is the same
    as reading an all-zero block, so the block read is [bcb w]. *)
Definition get_bootloader_message (w : world) : bootloader_message := bcb w.

(** Modelled from the spec: [set_bootloader_message] of bootloader.c (not
    among the sources) persists the exact byte layout of the record it is
    given. *)
Definition set_bootloader_message (m : bootloader_message) (w : world) : world :=
  set_bcb m w.

Section Engine.

Variable sz : sizes.

(** [memset(&boot, 0, sizeof(boot))] *)
Definition zero_message : bootloader_message :=
  BootMsg (zeros (command_size sz)) (zeros (status_size sz))
          (zeros (recovery_size sz)).

(** The fields have their declared capacities. *)
Definition wf_message (m : bootloader_message) : Prop :=
  length (command m) = command_size sz /\
  length (status m) = status_size sz /\
  length (recovery m) = recovery_size sz.

(** [buf[0] != 0 && buf[0] != 255] *)
Definition present (buf : chars) : bool :=
  match buf with
  | [] => false
  | c :: _ => negb (Ascii.eqb c NUL) && negb (Ascii.eqb c xFF)
  end.

(** The first part of [fopen_root_path]: mount the root and translate the
    path, logging what fails. *)
Definition root_path_ready (root_path : chars) (w : world) : bool * world :=
  match cache w with
  | MountFails => (false, LOGE (lit "Can't mount " ++ root_path ++ [LF]) w)
  | BadPath => (false, LOGE (lit "Bad path " ++ root_path ++ [LF]) w)
  | Mounted => (true, w)
  end.

(** The loop of [get_args] over the boot message: [strtok(NULL, "\n")]
    until it returns NULL or [argc] reaches [MAX_ARGS]; [n] is the number
    of rounds left. *)
Fixpoint boot_args (n : nat) (st : tok_state) : list chars * tok_state :=
  match n with
  | 0 => ([], st)
  | S n' =>
      match strtok [LF] st with
      | (None, st') => ([], st')
      | (Some arg, st') =>
          let (rest, st'') := boot_args n' st' in (arg :: rest, st'')
      end
  end.

(** [strtok(buf, "\r\n")] on the buffer [fgets] has filled with [line]
    and its terminator. *)
Definition line_token (line : chars) : option chars :=
  fst (strtok [CR; LF] (TokState [] (line ++ [NUL]))).

(** The loop of [get_args] over the command file: [fgets] into a buffer of
    [MAX_ARG_LENGTH] bytes, then [strdup(strtok(buf, "\r\n"))].  When
    [strtok] finds no token it returns NULL and [strdup] dereferences it:
    the result is [None]. *)
Fixpoint file_args (n : nat) (stream : chars) : option (list chars) :=
  match n with
  | 0 => Some []
  | S n' =>
      match fgets MAX_ARG_LENGTH stream with
      | None => Some []
      | Some (line, unread) =>
          match line_token line with
          | None => None
          | Some arg =>
              match file_args n' unread with
              | None => None
              | Some rest => Some (arg :: rest)
              end
          end
      end
  end.

(** The write-back loop: [strlcat] of each argument and of a newline. *)
Fixpoint append_args (buf : chars) (args : list chars) : chars :=
  match args with
  | [] => buf
  | a :: rest =>
      append_args
        (strlcat (strlcat buf a (recovery_size sz)) [LF] (recovery_size sz))
        rest
  end.

(** [argv] is [argv0 :: args]: a process is started with its name. *)
Definition argc (args : list chars) : nat := S (length args).

(** [get_args], the two [LOGI] at its start. *)
Definition log_boot_fields (boot : bootloader_message) (w : world) : world :=
  let w :=
    if present (command boot) then
      LOGI (lit "Boot command: "
              ++ cstr (firstn (command_size sz) (command boot)) ++ [LF]) w
    else w in
  if present (status boot) then
    LOGI (lit "Boot status: "
            ++ cstr (firstn (status_size sz) (status boot)) ++ [LF]) w
  else w.

(** [get_args], "if arguments weren't supplied, look in the bootloader
    control block": the new [argv], and [boot] as [strtok] leaves it. *)
Definition boot_message_args (boot : bootloader_message)
    (argv0 : chars) (args : list chars) (w : world)
  : chars * list chars * bootloader_message * world :=
  if argc args <=? 1 then
    (* Ensure termination *)
    let rec0 := store (recovery boot) (recovery_size sz - 1) NUL in
    let (arg, st) := strtok [LF] (TokState [] rec0) in
    let otherwise :=
      let rec1 := tok_buffer st in
      (argv0, args, BootMsg (command boot) (status boot) rec1,
       if present rec1 then
         LOGE (lit "Bad boot message" ++ [LF; DQUOTE]
                 ++ cstr (firstn 20 rec1) ++ [DQUOTE; LF]) w
       else w) in
    match arg with
    | Some a =>
        if streq a (lit "recovery") then
          let (found, st') := boot_args (MAX_ARGS - 1) st in
          (a, found,
           BootMsg (command boot) (status boot) (tok_buffer st'),
           LOGI (lit "Got arguments from boot message" ++ [LF]) w)
        else otherwise
    | None => otherwise
    end
  else (argv0, args, boot, w).

(** [get_args], "if that doesn't work, try the command file": the
    arguments, or [None] for the NULL dereference of [file_args]. *)
Definition command_file_args (args : list chars) (w : world)
  : option (list chars * world) :=
  if argc args <=? 1 then
    let (ready, w) := root_path_ready COMMAND_FILE w in
    match (if ready then command_file w else None) with
    | Some content =>
        match file_args (MAX_ARGS - 1) content with
        | Some found =>
            Some (found,
                  LOGI (lit "Got arguments from " ++ COMMAND_FILE ++ [LF]) w)
        | None => None
        end
    | None => Some (args, w)
    end
  else Some (args, w).

(** [get_args], "write the arguments we have back into the bootloader
    control block". *)
Definition write_back (boot : bootloader_message) (args : list chars)
  : bootloader_message :=
  let cmd := strlcpy (command boot) (lit "boot-recovery") (command_size sz) in
  let rec := strlcpy (recovery boot) (lit "recovery" ++ [LF]) (recovery_size sz) in
  BootMsg cmd (status boot) (append_args rec args).

(** [get_args(&argc, &argv)] on [argv = argv0 :: args].  The result is
    the new [argv] and the world, or [None] when the function runs into
    the NULL dereference of [file_args]. *)
Definition get_args (w : world) (argv0 : chars) (args : list chars)
  : option (chars * list chars * world) :=
  let boot := get_bootloader_message w in
  let w := log_boot_fields boot w in
  let '(argv0, args, boot, w) := boot_message_args boot argv0 args w in
  match command_file_args args w with
  | None => None
  | Some (args, w) =>
      Some (argv0, args, set_bootloader_message (write_back boot args) w)
  end.

(** The copy loop of [finish_recovery]:
    [while (fgets(buf, sizeof(buf), tmplog)) fputs(buf, log)], with [n]
    rounds at most; what it returns is what [fputs] appended. *)
Fixpoint copy_log (n : nat) (stream : chars) : chars :=
  match n with
  | 0 => []
  | S n' =>
      match fgets 4096 stream with
      | None => []
      | Some (line, unread) => cstr line ++ copy_log n' unread
      end
  end.

(** [finish_recovery], the intent file: [fopen_root_path(INTENT_FILE, "w")]
    and [fputs].  A file opened on a mounted cache volume opens; ["w"] and
    ["a"] create it. *)
Definition write_intent (send_intent : option chars) (w : world) : world :=
  match send_intent with
  | None => w
  | Some text =>
      let (ready, w) := root_path_ready INTENT_FILE w in
      if ready then set_intent_file (Some (cstr text)) w
      else LOGE (lit "Can't open " ++ INTENT_FILE ++ [LF]) w
  end.

(** [finish_recovery], "Copy logs to cache so the system can find out what
    happened".  Every round of the copy loop reads at least one byte, so
    [length unread] rounds reach the end of the temporary log; [ftell]
    then gives the offset the next call starts from. *)
Definition copy_logs (w : world) : world :=
  let (ready, w) := root_path_ready LOG_FILE w in
  if ready then
    let old := match log_file w with Some c => c | None => [] end in
    match tmp_log w with
    | None =>
        LOGE (lit "Can't open " ++ TEMPORARY_LOG_FILE ++ [LF])
             (set_log_file (Some old) w)
    | Some tmp =>
        let unread := skipn (tmplog_offset w) tmp in
        let copied := copy_log (length unread) unread in
        set_tmplog_offset (tmplog_offset w + length unread)
          (set_log_file (Some (old ++ copied)) w)
    end
  else LOGE (lit "Can't open " ++ LOG_FILE ++ [LF]) w.

(** [finish_recovery], "Remove the command file, so recovery won't repeat
    indefinitely": on a mounted volume [unlink] returns 0, or fails with
    [ENOENT] when there is no such file, and neither is complained of. *)
Definition unlink_command_file (w : world) : world :=
  match cache w with
  | Mounted => set_command_file None w
  | _ => LOGW (lit "Can't unlink " ++ COMMAND_FILE ++ [LF]) w
  end.

(** [finish_recovery(send_intent)] *)
Definition finish_recovery (send_intent : option chars) (w : world) : world :=
  (* By this point, we're ready to return to the main system... *)
  let w := write_intent send_intent w in
  let w := copy_logs w in
  (* Reset the bootloader message to revert to a normal main system boot. *)
  let w := set_bootloader_message zero_message w in
  let w := unlink_command_file w in
  emit Sync w.

(** Modelled from the spec: [format_root_device] of roots.c and
    [install_package] of install.c are not among the sources; formatting a
    volume answers ok or error (0 or not), installing answers with an
    outcome.  The call is recorded and the world tells the result. *)
Definition format_root_device (root : chars) (w : world) : Z * world :=
  (format_result w root, emit (FormatRootDevice root) w).

Definition install_package (path : chars) (w : world)
  : install_status * world :=
  (install_result w path, emit (InstallPackage path) w).

Definition erase_root (root : chars) (w : world) : Z * world :=
  let w := emit (UiSetBackground BACKGROUND_ICON_INSTALLING) w in
  let w := emit UiShowIndeterminateProgress w in
  let w := emit (UiPrint (lit "Formatting " ++ root ++ lit "..")) w in
  format_root_device root w.

(** The locals of [main] that the option loop sets. *)
Record options := Options {
  send_intent : option chars;
  update_package : option chars;
  wipe_data : bool;
  wipe_cache : bool
}.

Definition no_options : options := Options None None false false.

(** The body of the [getopt_long] loop of [main] for one returned value
    [arg] with its [optarg].  ([previous_runs], set by ['p'], is never
    read.) *)
Definition option_case (arg : char) (optarg : option chars)
    (o : options) (w : world) : options * world :=
  if Ascii.eqb arg "s" then
    (Options optarg (update_package o) (wipe_data o) (wipe_cache o), w)
  else if Ascii.eqb arg "u" then
    (Options (send_intent o) optarg (wipe_data o) (wipe_cache o), w)
  else if Ascii.eqb arg "w" then
    (Options (send_intent o) (update_package o) true true, w)
  else if Ascii.eqb arg "c" then
    (Options (send_intent o) (update_package o) (wipe_data o) true, w)
  else if Ascii.eqb arg "?" then
    (o, LOGE (lit "Invalid command argument" ++ [LF]) w)
  else (o, w).

(** The loop over the values [getopt_long] (libc) returns before [-1]. *)
Fixpoint parse_options (returned : list (char * option chars))
    (o : options) (w : world) : options * world :=
  match returned with
  | [] => (o, w)
  | (arg, optarg) :: rest =>
      let (o', w') := option_case arg optarg o w in
      parse_options rest o' w'
  end.

Definition is_success (s : install_status) : bool :=
  match s with INSTALL_SUCCESS => true | _ => false end.

(** The command dispatch of [main]: install, or wipe, or nothing to do. *)
Definition run_command (o : options) (w : world) : install_status * world :=
  match update_package o with
  | Some package =>
      let (status, w) := install_package package w in
      (status,
       if is_success status then w
       else emit (UiPrint (lit "Installation aborted." ++ [LF])) w)
  | None =>
      if wipe_data o || wipe_cache o then
        let status := INSTALL_SUCCESS in
        let (status, w) :=
          if wipe_data o then
            let (r, w) := erase_root (lit "DATA:") w in
            (if (r =? 0)%Z then status else INSTALL_ERROR, w)
          else (status, w) in
        let (status, w) :=
          if wipe_cache o then
            let (r, w) := erase_root (lit "CACHE:") w in
            (if (r =? 0)%Z then status else INSTALL_ERROR, w)
          else (status, w) in
        (status,
         if is_success status then w
         else emit (UiPrint (lit "Data wipe failed." ++ [LF])) w)
      else (INSTALL_ERROR, w)  (* No command specified *)
  end.

(** [prompt_and_wait] as [main] sees it: the menu is put up, the pending
    command is cleared with [finish_recovery(NULL)], and the function
    returns when the operator asks for the reboot.  The key loop and the
    menu actions belong to the user interface. *)
Definition prompt_and_wait (w : world) : world :=
  finish_recovery None (emit PromptAndWait w).

(** [main] from the command dispatch on.  [do_reboot] is initialised to 1
    and never assigned. *)
Definition main_dispatch (o : options) (w : world) : install_status * world :=
  let (status, w) := run_command o w in
  let w :=
    if is_success status then w
    else emit (UiSetBackground BACKGROUND_ICON_ERROR) w in
  let w := if is_success status then w else prompt_and_wait w in
  (* Otherwise, get ready to boot the main system... *)
  let w := finish_recovery (send_intent o) w in
  let w := emit Sync w in
  let w := emit (UiPrint (lit "Rebooting..." ++ [LF])) w in
  let w := emit Sync w in
  (status, emit Reboot w).

(** [main] from [get_args] on; [getopt_long] gives, for an argument
    vector, the values the libc function returns before [-1].  What
    [main] prints about itself (the command line, the properties) and the
    registration of the update commands are left out. *)
Definition main (getopt_long : list chars -> list (char * option chars))
    (w : world) (argv0 : chars) (args : list chars)
  : option (install_status * world) :=
  match get_args w argv0 args with
  | None => None
  | Some (argv0', args', w) =>
      let (o, w) := parse_options (getopt_long (argv0' :: args')) no_options w in
      Some (main_dispatch o w)
  end.

End Engine.

(** *** Vocabulary of the statements *)

(** What [get_args] leaves alone: everything but the block, and a trace
    that only grows, by no warning. *)
Definition kept (w w' : world) : Prop :=
  cache w' = cache w /\ command_file w' = command_file w /\
  intent_file w' = intent_file w /\ log_file w' = log_file w /\
  tmp_log w' = tmp_log w /\ tmplog_offset w' = tmplog_offset w /\
  format_result w' = format_result w /\ install_result w' = install_result w /\
  exists more, trace w' = trace w ++ more /\
               forall t, ~ In (Log LOG_W t) more.

(** The Command a call of [get_args] resolved: the whole [argv]. *)
Definition command_of (res : option (chars * list chars * world))
  : option (list chars) :=
  match res with
  | Some (argv0, args, _) => Some (argv0 :: args)
  | None => None
  end.

(** A reboot in mid-session: [get_args] again, by the same program, with
    no invocation arguments, on the world the first call left. *)
Definition resolve_again (sz : sizes) (w : world) (argv0 : chars)
    (args : list chars) : option (chars * list chars * world) :=
  match get_args sz w argv0 args with
  | Some (_, _, w1) => get_args sz w1 argv0 []
  | None => None
  end.

(** What a call of [get_args] shows of itself: the [argv] it resolved and
    the trace. *)
Definition resolved (res : option (chars * list chars * world))
  : option (chars * list chars * list event) :=
  match res with
  | Some (argv0, args, w) => Some (argv0, args, trace w)
  | None => None
  end.

(** A field that starts with 0x00 or 0xFF, made all-zero. *)
Definition blank (field : chars) : chars :=
  if present field then field else zeros (length field).

Definition clear_absent (m : bootloader_message) : bootloader_message :=
  BootMsg (blank (command m)) (blank (status m)) (blank (recovery m)).

(** The pieces [fgets] cuts the command file into for the loop of
    [file_args], [n] at most. *)
Fixpoint file_lines (n : nat) (stream : chars) : list chars :=
  match n with
  | 0 => []
  | S n' =>
      match fgets MAX_ARG_LENGTH stream with
      | None => []
      | Some (line, unread) => line :: file_lines n' unread
      end
  end.

(** [strtok] finds a token in the piece: a byte other than CR and LF
    before any NUL. *)
Definition has_token (line : chars) : bool :=
  match line_token line with Some _ => true | None => false end.

Definition token_of (line : chars) : chars :=
  match line_token line with Some t => t | None => [] end.

(** The first call resolves the Command [first], the call after the
    reboot another one, [again]. *)
Definition round_trip_breaks (sz : sizes) (w : world) (argv0 : chars)
    (args : list chars) (first again : list chars) : Prop :=
  command_of (get_args sz w argv0 args) = Some first /\
  command_of (resolve_again sz w argv0 args) = Some again /\
  again <> first.

(** The string a call of [get_args] left in the [recovery] field. *)
Definition recovery_of (res : option (chars * list chars * world))
  : option chars :=
  match res with
  | Some (_, _, w) => Some (cstr (recovery (bcb w)))
  | None => None
  end.



(** What [finish_recovery] is for: the block, the three files on the
    cache volume, and how far the temporary log has been copied. *)
Definition observable (w : world)
  : bootloader_message * option chars * option chars * option chars * nat :=
  (bcb w, intent_file w, log_file w, command_file w, tmplog_offset w).

(** The roots [format_root_device] was called on, in order. *)
Definition formatted (tr : list event) : list chars :=
  flat_map (fun e => match e with FormatRootDevice root => [root] | _ => [] end)
           tr.

(** *** Worlds to run the engine in

    The capacities are those of the bootloader.h of the Android sources of
    the time; the world has an all-zero block, a mounted cache volume with
    at most the command file on it, and collaborators that succeed. *)

Definition bcb_sizes : sizes := Sizes 32 32 1024.

Definition idle_world (command : option chars) : world :=
  World (zero_message bcb_sizes) Mounted command None None None 0
        (fun _ => 0%Z) (fun _ => INSTALL_SUCCESS) [].

(** The world a call of [get_args] leaves. *)
Definition after_get_args (sz : sizes) (w : world) (argv0 : chars)
    (args : list chars) : world :=
  match get_args sz w argv0 args with
  | Some (_, _, w') => w'
  | None => w
  end.

(** The name the program is started with. *)
Definition recovery_prog : chars := lit "/sbin/recovery".


(** An argument of 1124 bytes, more than the [recovery] field takes. *)
Definition long_package : chars :=
  lit "--update_package=SDCARD:" ++ repeat "a"%char 1100.

(** All three sources at once: the block holds [--wipe_cache], the
    command file [--wipe_data]. *)
Definition busy_world : world :=
  World (write_back bcb_sizes (zero_message bcb_sizes) [lit "--wipe_cache"])
        Mounted (Some (lit "--wipe_data" ++ [LF])) None None None 0
        (fun _ => 0%Z) (fun _ => INSTALL_SUCCESS) [].

(** A block that was erased and never written: every byte 0xFF. *)
Definition erased_world : world :=
  World (BootMsg (repeat xFF 32) (repeat xFF 32) (repeat xFF 1024))
        Mounted (Some (lit "--wipe_cache" ++ [LF])) None None None 0
        (fun _ => 0%Z) (fun _ => INSTALL_SUCCESS) [].

(** The data volume does not format, the cache volume does. *)
Definition bad_data_world : world :=
  World (zero_message bcb_sizes) Mounted None None None None 0
        (fun root => if chars_eqb root (lit "DATA:") then (-1)%Z else 0%Z)
        (fun _ => INSTALL_SUCCESS) [].

(** A session that has logged two lines and is asked to report an
    intent. *)
Definition logged_world : world :=
  World (write_back bcb_sizes (zero_message bcb_sizes) [lit "--wipe_cache"])
        Mounted (Some (lit "--wipe_cache" ++ [LF])) None
        (Some (lit "old" ++ [LF]))
        (Some (lit "Starting recovery" ++ [LF] ++ lit "Command:" ++ [LF]))
        0 (fun _ => 0%Z) (fun _ => INSTALL_SUCCESS) [].

(** *** More vocabulary: the sources of [get_args] *)

(** The first line of the block, as [get_args] reads it, is ["recovery"]. *)
Definition block_valid (sz : sizes) (boot : bootloader_message) : bool :=
  match fst (strtok [LF]
               (TokState [] (store (recovery boot) (recovery_size sz - 1) NUL)))
  with
  | Some t => streq t (lit "recovery")
  | None => false
  end.

(** A line of a command file, without its end: not empty, and free of CR,
    LF and NUL. *)
Definition clean_line (l : chars) : bool :=
  match l with
  | [] => false
  | _ :: _ =>
      forallb (fun c => negb (is_nul c) && negb (mem c [CR; LF])) l
  end.

(** How a line of a command file ends. *)
Inductive eol := EOL_LF | EOL_CRLF.

Definition eol_bytes (e : eol) : chars :=
  match e with EOL_LF => [LF] | EOL_CRLF => [CR; LF] end.

(** The command file that holds the given lines. *)
Definition command_text (lines : list (chars * eol)) : chars :=
  flat_map (fun le => fst le ++ eol_bytes (snd le)) lines.



(** The call of [get_args] after [n] more reboots in mid-session: each
    time the program starts without invocation arguments on the world the
    call before left. *)
Fixpoint resume (sz : sizes) (n : nat) (w : world) (argv0 : chars)
  : option (chars * list chars * world) :=
  match n with
  | 0 => get_args sz w argv0 []
  | S n' =>
      match get_args sz w argv0 [] with
      | Some (_, _, w') => resume sz n' w' argv0
      | None => None
      end
  end.

(** What [get_args] leaves alone on the cache volume, with the offset
    into the temporary log; and what it logs is no warning. *)
Definition untouched (w w' : world) : Prop :=
  cache w' = cache w /\ command_file w' = command_file w /\
  intent_file w' = intent_file w /\ log_file w' = log_file w /\
  tmplog_offset w' = tmplog_offset w /\
  exists more, trace w' = trace w ++ more /\
               forall t, ~ In (Log LOG_W t) more.

(** The command file gives nothing, in every world with the volume and
    the file of [w]. *)
Definition file_gives_nothing (w : world) : Prop :=
  forall v, cache v = cache w -> command_file v = command_file w ->
            exists v', command_file_args [] v = Some ([], v').


(** *** More vocabulary: the end of the session *)

(** The events of the command dispatch and of [finish_recovery]: all but
    the error background, the prompt and the reboot. *)
Definition quiet_event (e : event) : bool :=
  match e with
  | UiSetBackground BACKGROUND_ICON_ERROR => false
  | PromptAndWait => false
  | Reboot => false
  | _ => true
  end.

(** Events other than the calls of the collaborators that install and
    format. *)
Definition harmless_event (e : event) : bool :=
  match e with
  | FormatRootDevice _ => false
  | InstallPackage _ => false
  | _ => true
  end.

(** The log file, or the empty one that opening it for appending
    creates. *)
Definition log_text (w : world) : chars :=
  match log_file w with Some c => c | None => [] end.

(** The packages [install_package] was called on, in order. *)
Definition installed (tr : list event) : list chars :=
  flat_map (fun e => match e with InstallPackage p => [p] | _ => [] end) tr.

(** The values [getopt_long] returned that are the option [c]. *)
Definition given (c : char) (returned : list (char * option chars)) : bool :=
  existsb (fun p => Ascii.eqb (fst p) c) returned.

(** The [optarg] of the last occurrence of the option [c], or [d] when
    there is none. *)
Definition last_optarg (c : char) (returned : list (char * option chars))
    (d : option chars) : option chars :=
  fold_left (fun acc p => if Ascii.eqb (fst p) c then snd p else acc)
            returned d.

(** What the option loop logs for an option it does not know. *)
Definition invalid_argument : event :=
  Log LOG_E (lit "Invalid command argument" ++ [LF]).

(** *** More worlds *)

(** A command file edited by hand: the first line ends in CR LF, the
    last one has no end. *)
Definition edited_world : world :=
  idle_world
    (Some (command_text [(lit "--wipe_data", EOL_CRLF);
                         (lit "--send_intent=done", EOL_LF)]
           ++ lit "--wipe_cache")).

(** A block that some other program wrote its own command into, beside
    a command file. *)
Definition stale_world : world :=
  World (BootMsg (zeros 32) (zeros 32)
                 (lit "boot-once" ++ [LF] ++ zeros 1014))
        Mounted (Some (lit "--wipe_cache" ++ [LF])) None None None 0
        (fun _ => 0%Z) (fun _ => INSTALL_SUCCESS) [].


(** *** The menus

    [get_selected_item], [choose_wipe_type], [choose_update_file] and
    [choose_tar_file] show a menu and act on the keys that [ui_wait_key]
    returns.  The user interface (ui.c), the key codes (linux/input.h,
    recovery_ui.h), the roots facade and the SD card are not among the
    sources: the key codes are parameters, and what the calls outside
    recovery.c answer is told by the machine the menus run on.
    [ui_start_menu], [ui_end_menu] and [ui_reset_progress] only draw, and
    are left out of the trace; [malloc] and [fork] are taken to succeed,
    and a directory to hold the same names on both passes over it. *)

Record keymap := Keymap {
  KEY_DREAM_HOME : Z;
  KEY_DREAM_BACK : Z;
  KEY_DOWN : Z;
  KEY_VOLUMEDOWN : Z;
  KEY_I5700_DOWN : Z;
  KEY_UP : Z;
  KEY_VOLUMEUP : Z;
  KEY_I5700_UP : Z;
  BTN_MOUSE : Z;
  KEY_I5700_CENTER : Z
}.

(** What the calls outside recovery.c answer. *)
Record machine := Machine {
  text_visible : nat -> bool;   (* ui_text_visible, call by call *)
  menu_select : nat -> Z -> Z;  (* ui_menu_select on a menu of so many items *)
  sdcard : root_state;          (* mounting and translating "SDCARD:" *)
  sdcard_path : chars;          (* what translate_root_path leaves in path *)
  sdcard_dir : option (list chars);    (* opendir and readdir on the SD card *)
  samdroid_dir : option (list chars);  (* and on its directory samdroid/ *)
  closedir_result : Z;
  firmware_pending : bool;      (* firmware_update_pending() *)
  data_mount : Z;               (* ensure_root_path_mounted("DATA:") *)
  child_polls : nat;            (* the calls of waitpid that return 0 *)
  child_status : option Z       (* the exit code, if the child exited *)
}.

(** The state the menus work on: the world of the engine, the number of
    calls of [ui_text_visible] so far, and the programs started. *)
Record console := Console {
  engine : world;
  asked : nat;
  spawned : list (list chars)
}.

Definition on_engine (f : world -> world) (c : console) : console :=
  Console (f (engine c)) (asked c) (spawned c).

Definition ui_print (text : chars) : console -> console :=
  on_engine (emit (UiPrint text)).

Inductive fault :=
| NullPointer     (* a null pointer used as a string *)
| OutOfBounds     (* an array read or written outside its elements *)
| BufferOverflow  (* a string copied into a buffer too small for it *)
| IntOverflow.    (* a signed addition beyond INT_MAX or INT_MIN *)

(** How a call ends: it returns [a], with the keys not yet read and the
    console; or it blocks in [ui_wait_key], the keys used up; or its
    behaviour is undefined. *)
Inductive run (A : Type) :=
| Done (a : A) (ks : list Z) (c : console)
| Waiting (c : console)
| Fault (why : fault) (c : console).

Arguments Done {A} a ks c.
Arguments Waiting {A} c.
Arguments Fault {A} why c.

(** The console a call ended on, however it ended. *)
Definition console_of {A} (r : run A) : console :=
  match r with
  | Done _ _ c => c
  | Waiting c => c
  | Fault _ c => c
  end.

Definition INT_MAX : Z := 2147483647.
Definition INT_MIN : Z := -2147483648.

Definition PATH_MAX : nat := 4096.  (* limits.h *)

Definition SDCARD_PATH : chars := lit "SDCARD:".
Definition SDCARD_PATH_LENGTH : nat := 7.

(** **** The C library on directory names *)

(** [strrchr(s, c)] for [c] other than NUL: the string from the last [c]
    on, [None] for NULL. *)
Fixpoint strrchr_from (s : chars) (c : char) : option chars :=
  match s with
  | [] => None
  | x :: rest =>
      match strrchr_from rest c with
      | Some t => Some t
      | None => if Ascii.eqb x c then Some s else None
      end
  end.

Definition strrchr (s : chars) (c : char) : option chars :=
  strrchr_from (cstr s) c.

(** [tolower] in the C locale. *)
Definition tolower (c : char) : char :=
  let n := nat_of_ascii c in
  if (65 <=? n) && (n <=? 90) then ascii_of_nat (n + 32) else c.

(** [strcasecmp(a, b)]: the difference of the first bytes that differ
    once in lower case. *)
Fixpoint strcasecmp_from (a b : chars) : Z :=
  match a, b with
  | [], [] => 0
  | [], y :: _ => 0 - Z.of_nat (nat_of_ascii (tolower y))
  | x :: _, [] => Z.of_nat (nat_of_ascii (tolower x))
  | x :: a', y :: b' =>
      let d := (Z.of_nat (nat_of_ascii (tolower x))
                - Z.of_nat (nat_of_ascii (tolower y)))%Z in
      if (d =? 0)%Z then strcasecmp_from a' b' else d
  end.

Definition strcasecmp (a b : chars) : Z :=
  strcasecmp_from (cstr a) (cstr b).

(** [strlen(s)] *)
Definition strlen (s : chars) : nat := length (cstr s).

(** [strcpy(dst, src)] into a buffer of [size] bytes: the string [dst]
    then holds, [None] when it does not fit with its NUL. *)
Definition strcpy (size : nat) (src : chars) : option chars :=
  if strlen src <? size then Some (cstr src) else None.

(** [strcat(dst, src)] on a buffer of [size] bytes that holds [held]. *)
Definition strcat (size : nat) (held src : chars) : option chars :=
  if length held + strlen src <? size then Some (held ++ cstr src) else None.

(** **** The list of files

    An element of the array [files]: as [malloc] left it, NULL, or a
    pointer to a string. *)
Inductive slot := Garbage | Null | Str (s : chars).

(** [files[i] = s] (nothing when [i] is outside the list). *)
Fixpoint set_slot (files : list slot) (i : nat) (s : slot) : list slot :=
  match files, i with
  | [], _ => []
  | _ :: rest, 0 => s :: rest
  | f :: rest, S j => f :: set_slot rest j s
  end.

(** The test both passes over a directory make of a name: it has a dot,
    does not start with one, and from its last dot on it is [ext] but for
    the case of the letters. *)
Definition has_extension (ext d_name : chars) : bool :=
  match strrchr d_name "."%char with
  | None => false
  | Some extension =>
      match cstr d_name with
      | [] => (strcasecmp extension ext =? 0)%Z
      | c :: _ =>
          if Ascii.eqb c "."%char then false
          else (strcasecmp extension ext =? 0)%Z
      end
  end.

(** "count how many files we're looking at" *)
Fixpoint count_files (ext : chars) (names : list chars) (total : nat) : nat :=
  match names with
  | [] => total
  | d_name :: rest =>
      if has_extension ext d_name then count_files ext rest (S total)
      else count_files ext rest total
  end.

(** "put the names in the array for the menu": [entry] builds the string
    in the buffer allocated for a name. *)
Fixpoint fill_files (ext : chars) (entry : chars -> option chars)
    (names : list chars) (i : nat) (files : list slot)
  : fault + list slot :=
  match names with
  | [] => inr files
  | d_name :: rest =>
      if has_extension ext d_name then
        if i <? length files then
          match entry d_name with
          | None => inl BufferOverflow
          | Some s => fill_files ext entry rest (S i) (set_slot files i (Str s))
          end
        else inl OutOfBounds
      else fill_files ext entry rest i files
  end.

(** [files[i]] of [choose_update_file]: [malloc], [strcpy] of
    [SDCARD_PATH], [strcat] of the name. *)
Definition update_entry (d_name : chars) : option chars :=
  let size := SDCARD_PATH_LENGTH + strlen d_name + 1 in
  match strcpy size SDCARD_PATH with
  | None => None
  | Some held => strcat size held d_name
  end.

(** [files[i]] of [choose_tar_file]: [malloc] and [strcpy] of the name. *)
Definition tar_entry (d_name : chars) : option chars :=
  strcpy (SDCARD_PATH_LENGTH + strlen d_name + 1) d_name.

(** The two passes and the array between them. *)
Definition list_files (ext : chars) (entry : chars -> option chars)
    (names : list chars) : fault + (nat * list slot) :=
  let total := count_files ext names 0 in
  let files := repeat Garbage total ++ [Null] in
  match fill_files ext entry names 0 files with
  | inl why => inl why
  | inr files => inr (total, files)
  end.

(** [free(files[i])] for [i < total]: a pointer that was never set is
    not one to free. *)
Definition free_files (total : nat) (files : list slot) : option fault :=
  if length files <? total then Some OutOfBounds
  else if existsb (fun s => match s with Garbage => true | _ => false end)
                  (firstn total files)
       then Some OutOfBounds
       else None.

Section Menus.

Variable sz : sizes.
Variable km : keymap.
Variable m : machine.

(** [ui_text_visible()] *)
Definition ui_text_visible (c : console) : bool * console :=
  (text_visible m (asked c), Console (engine c) (S (asked c)) (spawned c)).

(** What a menu loop makes of a key, by the tests in their order. *)
Inductive press := Back | Down | Up | Ok | Other.

Definition press_of (key : Z) (visible : bool) : press :=
  if (key =? KEY_DREAM_BACK km)%Z then Back
  else if ((key =? KEY_DOWN km) || (key =? KEY_VOLUMEDOWN km)
           || (key =? KEY_I5700_DOWN km))%Z && visible then Down
  else if ((key =? KEY_UP km) || (key =? KEY_VOLUMEUP km)
           || (key =? KEY_I5700_UP km))%Z && visible then Up
  else if ((key =? BTN_MOUSE km) || (key =? KEY_I5700_CENTER km))%Z
          && visible then Ok
  else Other.

(** The start of every menu: [ui_start_menu], [finish_recovery(NULL)],
    [ui_reset_progress]. *)
Definition start_menu (c : console) : console :=
  on_engine (finish_recovery sz None) c.

(** [get_selected_item(headers, items)], for [items] entries. *)
Fixpoint get_selected_item_loop (items : nat) (ks : list Z) (selected : Z)
    (c : console) : run Z :=
  match ks with
  | [] => Waiting c
  | key :: ks =>
      let (visible, c) := ui_text_visible c in
      match press_of key visible with
      | Back => Done 0%Z ks c
      | Down =>
          if (selected <? INT_MAX)%Z then
            get_selected_item_loop items ks
              (menu_select m items (selected + 1)) c
          else Fault IntOverflow c
      | Up =>
          if (INT_MIN <? selected)%Z then
            get_selected_item_loop items ks
              (menu_select m items (selected - 1)) c
          else Fault IntOverflow c
      | Ok => Done selected ks c
      | Other => get_selected_item_loop items ks selected c
      end
  end.

Definition get_selected_item (items : nat) (ks : list Z) (c : console)
  : run Z :=
  get_selected_item_loop items ks 0%Z (start_menu c).

(** **** [choose_wipe_type] *)

Definition WTYPE_BACK : Z := 0.
Definition WTYPE_DATA_CACHE : Z := 1.
Definition WTYPE_CACHE : Z := 2.
Definition WTYPE_DELVIK_CACHE : Z := 3.

(** [erase_root(root)], its result dropped. *)
Definition erase (root : chars) : console -> console :=
  on_engine (fun w => snd (erase_root root w)).

(** [ui_print(".")] once for every call of [waitpid] that returns 0. *)
Fixpoint wait_child (polls : nat) (c : console) : console :=
  match polls with
  | 0 => c
  | S n => wait_child n (ui_print (lit ".") c)
  end.

(** [!WIFEXITED(status) || (WEXITSTATUS(status) != 0)] *)
Definition child_failed : bool :=
  match child_status m with
  | Some code => negb (code =? 0)%Z
  | None => true
  end.

(** [case WTYPE_DELVIK_CACHE] *)
Definition wipe_dalvik_cache (c : console) : console :=
  if negb (data_mount m =? 0)%Z then
    ui_print (lit "Can't mount DATA" ++ [LF]) c
  else
    let c := ui_print (lit "Formatting DATA:dalvik-cache..") c in
    let c := Console (engine c) (asked c)
               (spawned c ++ [[lit "/xbin/rm"; lit "-r";
                               lit "/data/dalvik-cache"]]) in
    let c := wait_child (child_polls m) c in
    let c := ui_print [LF] c in
    if child_failed then
      ui_print (lit "Error wiping dalvik-cache." ++ [LF; LF]) c
    else ui_print (lit "Data wipe complete." ++ [LF]) c.

(** [switch (chosen_item)]: [case WTYPE_DATA_CACHE] has no [break] and
    falls into [case WTYPE_CACHE]. *)
Definition wipe_chosen (chosen_item : Z) (c : console) : console :=
  if (chosen_item =? WTYPE_DATA_CACHE)%Z then
    let c := erase (lit "DATA:") c in
    let c := erase (lit "CACHE:") c in
    ui_print (lit "Data wipe complete." ++ [LF]) c
  else if (chosen_item =? WTYPE_CACHE)%Z then
    let c := erase (lit "CACHE:") c in
    ui_print (lit "Data wipe complete." ++ [LF]) c
  else if (chosen_item =? WTYPE_DELVIK_CACHE)%Z then wipe_dalvik_cache c
  else c.

(** The body of [if (chosen_item >= 0)]; both ways out of it leave the
    loop. *)
Definition confirm_wipe (chosen_item : Z) (ks : list Z) (c : console)
  : run unit :=
  if (chosen_item =? WTYPE_BACK)%Z then Done tt ks c
  else
    let c := ui_print ([LF] ++ lit "-- This will ERASE your data!") c in
    let c := ui_print ([LF] ++ lit "-- Press HOME to confirm, or") c in
    let c := ui_print ([LF] ++ lit "-- any other key to abort..") c in
    match ks with
    | [] => Waiting c
    | confirm_wipe :: ks =>
        let c :=
          if (confirm_wipe =? KEY_DREAM_HOME km)%Z then
            let c := ui_print ([LF] ++ lit "Wiping data..." ++ [LF]) c in
            wipe_chosen chosen_item c
          else ui_print ([LF] ++ lit "Data wipe aborted." ++ [LF]) c in
        let (_, c) := ui_text_visible c in
        Done tt ks c
    end.

Fixpoint choose_wipe_type_loop (ks : list Z) (selected : Z) (c : console)
  : run unit :=
  match ks with
  | [] => Waiting c
  | key :: ks =>
      let (visible, c) := ui_text_visible c in
      match press_of key visible with
      | Back => Done tt ks c
      | Down =>
          if (selected <? INT_MAX)%Z then
            choose_wipe_type_loop ks (menu_select m 4 (selected + 1)) c
          else Fault IntOverflow c
      | Up =>
          if (INT_MIN <? selected)%Z then
            choose_wipe_type_loop ks (menu_select m 4 (selected - 1)) c
          else Fault IntOverflow c
      | Ok =>
          if (selected >=? 0)%Z then confirm_wipe selected ks c
          else choose_wipe_type_loop ks selected c
      | Other => choose_wipe_type_loop ks selected c
      end
  end.

Definition choose_wipe_type (ks : list Z) (c : console) : run unit :=
  choose_wipe_type_loop ks 0%Z (start_menu c).

(** **** [choose_update_file] *)

(** [files[chosen_item]] as a string. *)
Definition file_at (files : list slot) (chosen_item : Z) : fault + chars :=
  match nth_error files (Z.to_nat chosen_item) with
  | Some (Str s) => inr s
  | Some Null => inl NullPointer
  | Some Garbage => inl OutOfBounds
  | None => inl OutOfBounds
  end.

(** The loop at [out:] and what follows it. *)
Definition free_and_return {A} (a : A) (total : nat) (files : list slot)
    (ks : list Z) (c : console) : run A :=
  match free_files total files with
  | Some why => Fault why c
  | None => Done a ks c
  end.

(** The body of [if (chosen_item >= 0)]. *)
Definition confirm_apply (total : nat) (files : list slot) (chosen_item : Z)
    (ks : list Z) (c : console) : run unit :=
  let c := ui_print ([LF] ++ lit "-- Installing new image!") c in
  let c := ui_print ([LF] ++ lit "-- Press HOME to confirm, or") c in
  let c := ui_print ([LF] ++ lit "-- any other key to abort..") c in
  match ks with
  | [] => Waiting c
  | confirm_apply :: ks =>
      if (confirm_apply =? KEY_DREAM_HOME km)%Z then
        let c := ui_print ([LF] ++ lit "Install from sdcard..." ++ [LF]) c in
        match file_at files chosen_item with
        | inl why => Fault why c
        | inr package =>
            let status := fst (install_package package (engine c)) in
            let c := on_engine (fun w => snd (install_package package w)) c in
            if negb (is_success status) then
              let c :=
                on_engine (emit (UiSetBackground BACKGROUND_ICON_ERROR)) c in
              let c := ui_print (lit "Installation aborted." ++ [LF]) c in
              let (_, c) := ui_text_visible c in
              free_and_return tt total files ks c
            else
              let (visible, c) := ui_text_visible c in
              if negb visible then free_and_return tt total files ks c
              else
                let c :=
                  if firmware_pending m then
                    ui_print ([LF] ++ lit "Reboot via home+back or menu"
                                ++ [LF] ++ lit "to complete installation."
                                ++ [LF]) c
                  else
                    ui_print ([LF] ++ lit "Install from sdcard complete."
                                ++ [LF]) c in
                let (_, c) := ui_text_visible c in
                free_and_return tt total files ks c
        end
      else
        let c := ui_print ([LF] ++ lit "Installation aborted." ++ [LF]) c in
        let (_, c) := ui_text_visible c in
        free_and_return tt total files ks c
  end.

Fixpoint choose_update_file_loop (total : nat) (files : list slot)
    (ks : list Z) (selected : Z) (c : console) : run unit :=
  match ks with
  | [] => Waiting c
  | key :: ks =>
      let (visible, c) := ui_text_visible c in
      match press_of key visible with
      | Back => free_and_return tt total files ks c
      | Down =>
          if (selected <? INT_MAX)%Z then
            choose_update_file_loop total files ks
              (menu_select m total (selected + 1)) c
          else Fault IntOverflow c
      | Up =>
          if (INT_MIN <? selected)%Z then
            choose_update_file_loop total files ks
              (menu_select m total (selected - 1)) c
          else Fault IntOverflow c
      | Ok =>
          if (selected >=? 0)%Z then confirm_apply total files selected ks c
          else choose_update_file_loop total files ks selected c
      | Other => choose_update_file_loop total files ks selected c
      end
  end.

Definition choose_update_file (ks : list Z) (c : console) : run unit :=
  match sdcard m with
  | MountFails =>
      Done tt ks (on_engine (LOGE (lit "Can't mount " ++ SDCARD_PATH ++ [LF])) c)
  | BadPath =>
      Done tt ks (on_engine (LOGE (lit "Bad path " ++ cstr (sdcard_path m))) c)
  | Mounted =>
      match sdcard_dir m with
      | None =>
          Done tt ks
            (on_engine (LOGE (lit "Couldn't open directory "
                              ++ cstr (sdcard_path m))) c)
      | Some names =>
          match list_files (lit ".zip") update_entry names with
          | inl why => Fault why c
          | inr (total, files) =>
              if (closedir_result m <? 0)%Z then
                free_and_return tt total files ks
                  (on_engine (LOGE (lit "Failure closing directory "
                                    ++ cstr (sdcard_path m))) c)
              else choose_update_file_loop total files ks 0%Z (start_menu c)
          end
      end
  end.

(** **** [choose_tar_file]

    [room] is the size of the buffer [sfpath] points to; the result is
    the value returned and the string copied to [sfpath], if any. *)

Definition choose_tar_file_loop_chosen (room : nat) (total : nat)
    (files : list slot) (chosen_item : Z) (ks : list Z) (c : console)
  : run (Z * option chars) :=
  match file_at files chosen_item with
  | inl why => Fault why c
  | inr name =>
      match strcpy room name with
      | None => Fault BufferOverflow c
      | Some held => free_and_return (0%Z, Some held) total files ks c
      end
  end.

Fixpoint choose_tar_file_loop (room : nat) (total : nat) (files : list slot)
    (ks : list Z) (selected : Z) (c : console) : run (Z * option chars) :=
  match ks with
  | [] => Waiting c
  | key :: ks =>
      let (visible, c) := ui_text_visible c in
      match press_of key visible with
      | Back => free_and_return (1%Z, None) total files ks c
      | Down =>
          if (selected <? INT_MAX)%Z then
            choose_tar_file_loop room total files ks
              (menu_select m total (selected + 1)) c
          else Fault IntOverflow c
      | Up =>
          if (INT_MIN <? selected)%Z then
            choose_tar_file_loop room total files ks
              (menu_select m total (selected - 1)) c
          else Fault IntOverflow c
      | Ok =>
          if (selected >=? 0)%Z then
            choose_tar_file_loop_chosen room total files selected ks c
          else choose_tar_file_loop room total files ks selected c
      | Other => choose_tar_file_loop room total files ks selected c
      end
  end.

Definition choose_tar_file (room : nat) (ks : list Z) (c : console)
  : run (Z * option chars) :=
  match sdcard m with
  | MountFails =>
      Done (1%Z, None) ks
        (on_engine (LOGE (lit "Can't mount " ++ SDCARD_PATH ++ [LF])) c)
  | BadPath =>
      Done (2%Z, None) ks
        (on_engine (LOGE (lit "Bad path " ++ cstr (sdcard_path m))) c)
  | Mounted =>
      match strcat PATH_MAX (cstr (sdcard_path m)) (lit "samdroid/") with
      | None => Fault BufferOverflow c
      | Some path =>
          match samdroid_dir m with
          | None =>
              Done (3%Z, None) ks
                (on_engine (LOGE (lit "Couldn't open directory " ++ path)) c)
          | Some names =>
              match list_files (lit ".tar") tar_entry names with
              | inl why => Fault why c
              | inr (total, files) =>
                  if (closedir_result m <? 0)%Z then
                    free_and_return (1%Z, None) total files ks
                      (on_engine (LOGE (lit "Failure closing directory "
                                        ++ path)) c)
                  else
                    choose_tar_file_loop room total files ks 0%Z
                      (start_menu c)
              end
          end
      end
  end.

(** **** The restore of [choose_backup_type]

    [choose_tar_file(st)] with [char st[255]], and then
    [strcpy(sfpath, "/sdcard/samdroid/"); strcat(sfpath, st);] with
    [char sfpath[255]]. *)

Definition restore_room : nat := 255.

Definition restore_path (st : chars) : option chars :=
  match strcpy restore_room (lit "/sdcard/samdroid/") with
  | None => None
  | Some held => strcat restore_room held st
  end.

End Menus.

(** **** Vocabulary of the statements on the menus *)

(** [ui_menu_select] keeps the selection within a menu of [items]
    entries, and the entries can be counted by an [int]. *)
Definition select_in_range (m : machine) (items : nat) : Prop :=
  (Z.of_nat items <= INT_MAX)%Z /\
  forall s, (0 <= menu_select m items s < Z.of_nat items)%Z.


Definition tar_files (tars : list chars) : list slot :=
  map (fun d => Str (cstr d)) tars ++ [Null].


(** What the menu of [choose_tar_file] on the names [tars] may return
    for a buffer of [room] bytes. *)
Definition chosen (room : nat) (tars : list chars)
    (r : run (Z * option chars)) : Prop :=
  match r with
  | Done (retval, sfpath) _ _ =>
      (retval = 1%Z /\ sfpath = None) \/
      (retval = 0%Z /\
       exists d, In d tars /\ sfpath = Some (cstr d) /\ strlen d < room)
  | Waiting _ => True
  | Fault _ _ => True
  end.

(** **** A machine to run the menus on

    The key codes of linux/input.h and recovery_ui.h, with codes of our
    choosing for the three keys of the i5700; the text is displayed,
    [ui_menu_select] keeps the selection within the menu, the SD card
    mounts at /sdcard/ and both its directories hold [names]. *)

Definition sample_keys : keymap :=
  Keymap 102 158 108 114 210 103 115 211 272 212.

Definition clamp (items : nat) (s : Z) : Z :=
  Z.max 0 (Z.min s (Z.of_nat items - 1)).

Definition sample_machine (names : list chars) : machine :=
  Machine (fun _ => true) clamp Mounted (lit "/sdcard/")
          (Some names) (Some names) 0 false 0 2 (Some 0%Z).

(** The console of a session: nothing asked, nothing started. *)
Definition console_on (w : world) : console := Console w 0 [].

(** A backup with a name of 244 bytes. *)
Definition long_backup : chars := repeat "a"%char 240 ++ lit ".tar".

End Recovery.

(** ** Facts on the C string routines *)

Module CStrFacts.
Import CStr Recovery.

Lemma cstr_no_nul b : no_nul (cstr b) = true.
Proof.
  induction b as [|c b IH]; simpl; [reflexivity|].
  destruct (is_nul c) eqn:E; simpl; [reflexivity|].
  now rewrite E, IH.
Qed.

Lemma cstr_id s : no_nul s = true -> cstr s = s.
Proof.
  induction s as [|c s IH]; simpl; [reflexivity|].
  intros H. apply andb_true_iff in H. destruct H as [Hc Hs].
  apply negb_true_iff in Hc. rewrite Hc. now rewrite IH.
Qed.

Lemma cstr_app_nul s t : no_nul s = true -> cstr (s ++ NUL :: t) = s.
Proof.
  induction s as [|c s IH]; simpl; [reflexivity|].
  intros H. apply andb_true_iff in H. destruct H as [Hc Hs].
  apply negb_true_iff in Hc. rewrite Hc. now rewrite IH.
Qed.

Lemma holds_cstr buf s : holds buf s -> cstr buf = s.
Proof. intros [Hs [t ->]]. now apply cstr_app_nul. Qed.

Lemma no_nul_app s t : no_nul (s ++ t) = no_nul s && no_nul t.
Proof. apply forallb_app. Qed.

Lemma no_nul_firstn n s : no_nul s = true -> no_nul (firstn n s) = true.
Proof.
  revert n; induction s as [|c s IH]; intros [|n]; simpl; try reflexivity.
  intros H. apply andb_true_iff in H. destruct H as [Hc Hs].
  now rewrite Hc, IH.
Qed.

Lemma firstn_firstn_app (k : nat) (x y : chars) :
  firstn k (firstn k x ++ y) = firstn k (x ++ y).
Proof.
  destruct (le_lt_dec (length x) k) as [Hle|Hlt].
  - now rewrite (firstn_all2 x) by exact Hle.
  - rewrite !firstn_app, firstn_firstn, Nat.min_id.
    rewrite length_firstn, (Nat.min_l k (length x)) by lia.
    replace (k - length x) with 0 by lia.
    now rewrite Nat.sub_diag.
Qed.

Lemma strlcpy_holds dst src siz :
  0 < siz -> holds (strlcpy dst src siz) (firstn (siz - 1) (cstr src)).
Proof.
  intros Hsiz. destruct siz as [|room]; [lia|].
  simpl. rewrite Nat.sub_0_r. split.
  - apply no_nul_firstn, cstr_no_nul.
  - unfold overwrite. rewrite <- app_assoc. simpl. eauto.
Qed.

Lemma strlcat_holds dst d src siz :
  holds dst d -> length d < siz ->
  holds (strlcat dst src siz) (firstn (siz - 1) (d ++ cstr src)).
Proof.
  intros [Hd [tail ->]] Hlen. unfold strlcat.
  assert (Hc : cstr (firstn siz (d ++ NUL :: tail)) = d).
  { rewrite firstn_app. rewrite (firstn_all2 d) by lia.
    destruct (siz - length d) as [|k] eqn:Ek; [lia|].
    simpl. now apply cstr_app_nul. }
  rewrite Hc. destruct (Nat.eqb_spec (length d) siz) as [E|_]; [lia|].
  rewrite firstn_app, Nat.sub_diag, firstn_all2 by lia. simpl.
  rewrite app_nil_r.
  rewrite skipn_app, Nat.sub_diag, skipn_all2 by lia. simpl.
  rewrite firstn_app, (firstn_all2 d) by lia.
  replace (siz - 1 - length d) with (siz - length d - 1) by lia.
  set (s := firstn (siz - length d - 1) (cstr src)).
  split.
  - rewrite no_nul_app, Hd. simpl. apply no_nul_firstn, cstr_no_nul.
  - unfold overwrite. rewrite <- !app_assoc. simpl.
    rewrite length_app. simpl. replace (length s + 1) with (S (length s)) by lia.
    simpl. eexists. rewrite <- app_assoc. reflexivity.
Qed.

Lemma store_beyond s tail i :
  length s <= i -> exists tail', store (s ++ NUL :: tail) i NUL = s ++ NUL :: tail'.
Proof.
  revert i. induction s as [|c s IH]; intros i Hi; simpl in *.
  - destruct i as [|j]; [eauto|].
    revert j Hi. clear.
    assert (H : forall (t : chars) j, exists t', store t j NUL = t' /\ length t' = length t).
    { induction t as [|x t IH]; intros j; simpl; eauto.
      destruct j; simpl; eauto. destruct (IH j) as [t' [-> Hl]]. eexists. split; eauto. simpl. lia. }
    intros j _. destruct (H tail j) as [t' [Ht' _]]. rewrite Ht'. eauto.
  - destruct i as [|j]; [lia|]. destruct (IH j) as [t' Ht']; [lia|].
    rewrite Ht'. eauto.
Qed.

Lemma strtok_span_plain a c r :
  forallb (fun c => negb (is_nul c) && negb (Ascii.eqb c LF)) a = true ->
  is_nul c || mem c [LF] = true ->
  strtok_span [LF] (a ++ c :: r) = (a, c :: r).
Proof.
  intros Ha Hc. induction a as [|x a IH]; simpl.
  - simpl in Hc. now rewrite Hc.
  - simpl in Ha. apply andb_true_iff in Ha. destruct Ha as [Hx Ha].
    apply andb_true_iff in Hx. destruct Hx as [Hx1 Hx2].
    apply negb_true_iff in Hx1, Hx2. rewrite Hx1, Hx2. simpl.
    now rewrite IH.
Qed.

Lemma strtok_plain sc a r :
  plain_arg a = true ->
  strtok [LF] (TokState sc (a ++ LF :: r)) = (Some a, TokState (sc ++ a ++ [NUL]) r).
Proof.
  intros Ha. destruct a as [|x a]; [discriminate|].
  unfold plain_arg in Ha.
  unfold strtok. cbn [pending scanned]. change (cstr [LF]) with [LF].
  pose proof Ha as Ha'. simpl in Ha'.
  apply andb_true_iff in Ha'. destruct Ha' as [Hx _].
  apply andb_true_iff in Hx. destruct Hx as [Hx1 Hx2].
  apply negb_true_iff in Hx1, Hx2.
  assert (Hskip : strtok_skip [LF] ((x :: a) ++ LF :: r) = ([], (x :: a) ++ LF :: r)).
  { simpl. rewrite Hx1, Hx2. reflexivity. }
  rewrite Hskip.
  rewrite (strtok_span_plain (x :: a) LF r Ha) by reflexivity.
  reflexivity.
Qed.

Lemma strtok_plain_end sc a r :
  plain_arg a = true ->
  strtok [LF] (TokState sc (a ++ NUL :: r)) = (Some a, TokState (sc ++ a) (NUL :: r)).
Proof.
  intros Ha. destruct a as [|x a]; [discriminate|].
  unfold plain_arg in Ha.
  unfold strtok. cbn [pending scanned]. change (cstr [LF]) with [LF].
  pose proof Ha as Ha'. simpl in Ha'.
  apply andb_true_iff in Ha'. destruct Ha' as [Hx _].
  apply andb_true_iff in Hx. destruct Hx as [Hx1 Hx2].
  apply negb_true_iff in Hx1, Hx2.
  assert (Hskip : strtok_skip [LF] ((x :: a) ++ NUL :: r) = ([], (x :: a) ++ NUL :: r)).
  { simpl. rewrite Hx1, Hx2. reflexivity. }
  rewrite Hskip.
  rewrite (strtok_span_plain (x :: a) NUL r Ha) by reflexivity.
  reflexivity.
Qed.

End CStrFacts.

(** ** Facts on the session engine *)

Module RecoveryFacts.
Import CStr Recovery CStrFacts.

(** Fields of a world that was built by the setters. *)
Ltac world_simpl :=
  cbn [bcb cache command_file intent_file log_file tmp_log tmplog_offset
       format_result install_result trace
       emit set_bcb set_command_file set_intent_file set_log_file
       set_tmplog_offset set_bootloader_message LOGE LOGW LOGI] in *.

Section Facts.

Variable sz : sizes.

(** *** Writing the block back *)

Lemma append_args_holds args : forall buf d,
  holds buf d -> length d < recovery_size sz ->
  holds (append_args sz buf args)
        (firstn (recovery_size sz - 1)
                (d ++ flat_map (fun a => cstr a ++ [LF]) args)).
Proof.
  induction args as [|a rest IH]; intros buf d Hb Hd; simpl.
  - rewrite app_nil_r, firstn_all2 by lia. exact Hb.
  - pose proof (strlcat_holds _ _ a _ Hb Hd) as H1.
    assert (Hk : forall x : chars,
               length (firstn (recovery_size sz - 1) x) < recovery_size sz).
    { intros x. rewrite length_firstn. pose proof (Nat.le_min_l (recovery_size sz - 1) (length x)). lia. }
    pose proof (strlcat_holds _ _ [LF] _ H1 (Hk _)) as H2.
    pose proof (IH _ _ H2 (Hk _)) as H3.
    change (cstr [LF]) with [LF] in H3.
    rewrite firstn_firstn_app, <- app_assoc, firstn_firstn_app in H3.
    rewrite <- !app_assoc in H3. rewrite <- !app_assoc. exact H3.
Qed.

Lemma write_back_recovery boot args :
  0 < recovery_size sz ->
  holds (recovery (write_back sz boot args))
        (firstn (recovery_size sz - 1) (serialize args)).
Proof.
  intros Hsz. unfold write_back. cbn [recovery].
  pose proof (strlcpy_holds (recovery boot) (lit "recovery" ++ [LF]) _ Hsz) as H0.
  assert (Hk : length (firstn (recovery_size sz - 1) (cstr (lit "recovery" ++ [LF])))
               < recovery_size sz).
  { rewrite length_firstn. pose proof (Nat.le_min_l (recovery_size sz - 1) (length (cstr (lit "recovery" ++ [LF])))). lia. }
  pose proof (append_args_holds args _ _ H0 Hk) as H1.
  rewrite firstn_firstn_app in H1. exact H1.
Qed.

Lemma write_back_command boot args :
  0 < command_size sz ->
  holds (command (write_back sz boot args))
        (firstn (command_size sz - 1) (lit "boot-recovery")).
Proof.
  intros Hsz. unfold write_back. cbn [command].
  exact (strlcpy_holds (command boot) (lit "boot-recovery") _ Hsz).
Qed.

(** *** What [get_args] leaves alone *)

Lemma kept_refl w : kept w w.
Proof.
  unfold kept. repeat split; try reflexivity.
  exists []. rewrite app_nil_r. split; [reflexivity | intros t []].
Qed.

Lemma kept_trans w1 w2 w3 : kept w1 w2 -> kept w2 w3 -> kept w1 w3.
Proof.
  unfold kept.
  intros (A1 & A2 & A3 & A4 & A5 & A6 & A7 & A8 & m1 & T1 & N1)
         (B1 & B2 & B3 & B4 & B5 & B6 & B7 & B8 & m2 & T2 & N2).
  repeat split; try congruence.
  exists (m1 ++ m2). split.
  - now rewrite T2, T1, app_assoc.
  - intros t Hin. apply in_app_or in Hin. destruct Hin as [Hin|Hin].
    + exact (N1 t Hin).
    + exact (N2 t Hin).
Qed.

Lemma kept_emit e w :
  (forall t, e <> Log LOG_W t) -> kept w (emit e w).
Proof.
  intros He. unfold kept, emit; simpl. repeat split.
  exists [e]. split; [reflexivity|].
  intros t [Hin|[]]. exact (He t Hin).
Qed.

Lemma kept_LOGI text w : kept w (LOGI text w).
Proof. apply kept_emit. intros t; discriminate. Qed.

Lemma kept_LOGE text w : kept w (LOGE text w).
Proof. apply kept_emit. intros t; discriminate. Qed.

Lemma kept_set_bcb m w : kept w (set_bootloader_message m w).
Proof.
  unfold kept, set_bootloader_message, set_bcb; simpl. repeat split.
  exists []. rewrite app_nil_r. split; [reflexivity | intros t []].
Qed.

Create HintDb frame.
#[local] Hint Resolve kept_refl kept_LOGI kept_LOGE kept_set_bcb : frame.

Lemma kept_log_boot_fields boot w : kept w (log_boot_fields sz boot w).
Proof.
  unfold log_boot_fields.
  destruct (present (command boot)), (present (status boot));
    eauto using kept_trans with frame.
Qed.

Lemma kept_boot_message_args boot argv0 args w a r boot' w' :
  boot_message_args sz boot argv0 args w = (a, r, boot', w') -> kept w w'.
Proof.
  unfold boot_message_args.
  destruct (argc args <=? 1).
  - destruct (strtok [LF] _) as [[arg|] st].
    + destruct (streq arg (lit "recovery")).
      * destruct (boot_args _ _) as [found st'].
        intros H; inversion H; subst. apply kept_LOGI.
      * destruct (present (tok_buffer st)); intros H; inversion H; subst;
          auto with frame.
    + destruct (present (tok_buffer st)); intros H; inversion H; subst;
        auto with frame.
  - intros H; inversion H; subst. apply kept_refl.
Qed.

Lemma kept_root_path_ready p w ready w' :
  root_path_ready p w = (ready, w') ->
  kept w w' /\ ready = match cache w with Mounted => true | _ => false end.
Proof.
  unfold root_path_ready.
  destruct (cache w); intros H; inversion H; subst; auto with frame.
Qed.

Lemma kept_command_file_args args w r w' :
  command_file_args args w = Some (r, w') -> kept w w'.
Proof.
  unfold command_file_args.
  destruct (argc args <=? 1).
  - destruct (root_path_ready COMMAND_FILE w) as [ready w1] eqn:E.
    apply kept_root_path_ready in E. destruct E as [K _].
    destruct (if ready then command_file w1 else None) as [content|].
    + destruct (file_args _ content); [|discriminate].
      intros H; inversion H; subst. eauto using kept_trans, kept_LOGI.
    + intros H; inversion H; subst. exact K.
  - intros H; inversion H; subst. apply kept_refl.
Qed.

(** The steps of a call that returns. *)
Lemma get_args_steps w argv0 args a r w' :
  get_args sz w argv0 args = Some (a, r, w') ->
  exists r1 boot1 w1 w2,
    boot_message_args sz (bcb w) argv0 args (log_boot_fields sz (bcb w) w)
      = (a, r1, boot1, w1) /\
    command_file_args r1 w1 = Some (r, w2) /\
    w' = set_bootloader_message (write_back sz boot1 r) w2.
Proof.
  unfold get_args, get_bootloader_message.
  destruct (boot_message_args _ _ _ _ _) as [[[a1 r1] boot1] w1].
  destruct (command_file_args r1 w1) as [[r2 w2]|] eqn:E; [|discriminate].
  intros H; inversion H; subst. eauto 10.
Qed.

Lemma get_args_kept w argv0 args a r w' :
  get_args sz w argv0 args = Some (a, r, w') -> kept w w'.
Proof.
  intros H. apply get_args_steps in H.
  destruct H as (r1 & boot1 & w1 & w2 & H1 & H2 & ->).
  apply kept_boot_message_args in H1. apply kept_command_file_args in H2.
  eauto using kept_trans, kept_log_boot_fields, kept_set_bcb.
Qed.

Lemma get_args_writes w argv0 args a r w' :
  get_args sz w argv0 args = Some (a, r, w') ->
  exists boot1, bcb w' = write_back sz boot1 r.
Proof.
  intros H. apply get_args_steps in H.
  destruct H as (r1 & boot1 & w1 & w2 & H1 & H2 & ->).
  exists boot1. reflexivity.
Qed.

(** *** Reading the block back *)

Lemma plain_arg_no_nul a : plain_arg a = true -> no_nul a = true.
Proof.
  destruct a as [|x a]; [discriminate|]. unfold plain_arg, no_nul.
  rewrite !forallb_forall. intros H c Hc. specialize (H c Hc).
  apply andb_true_iff in H. tauto.
Qed.

Lemma serialize_joined r :
  forallb plain_arg r = true ->
  serialize r = joined (lit "recovery" :: r) ++ [LF].
Proof.
  intros Hr. unfold serialize, joined. rewrite <- app_assoc. f_equal.
  induction r as [|a r IH]; [reflexivity|].
  cbn [forallb] in Hr. apply andb_true_iff in Hr. destruct Hr as [Ha Hr].
  cbn [flat_map]. rewrite (cstr_id _ (plain_arg_no_nul _ Ha)).
  rewrite <- !app_assoc. cbn [app]. f_equal. f_equal. exact (IH Hr).
Qed.

(** The tokens of newline-joined arguments, with or without a last
    newline, are the arguments. *)
Lemma boot_args_joined t l : forall n sc tl,
  length l <= n -> forallb plain_arg l = true ->
  tl = [] \/ tl = [LF] ->
  exists st',
    boot_args n (TokState sc (joined l ++ tl ++ NUL :: t)) = (l, st').
Proof.
  induction l as [|a l IH]; intros n sc tl Hn Hl Htl.
  - destruct n as [|n]; [cbn; eauto|].
    destruct Htl as [-> | ->]; cbn; eauto.
  - destruct n as [|n]; [cbn in Hn; lia|].
    cbn [forallb] in Hl. apply andb_true_iff in Hl. destruct Hl as [Ha Hl].
    cbn [length] in Hn. cbn [boot_args].
    destruct l as [|b l'].
    + (* the last argument *)
      cbn [joined flat_map]. rewrite app_nil_r.
      destruct Htl as [-> | ->]; cbn [app].
      * rewrite (strtok_plain_end _ _ _ Ha).
        destruct (IH n (sc ++ a) []) as [st' E]; [cbn; lia | exact Hl | now left |].
        cbn [joined app] in E. rewrite E. eauto.
      * rewrite (strtok_plain _ _ _ Ha).
        destruct (IH n (sc ++ a ++ [NUL]) []) as [st' E];
          [cbn; lia | exact Hl | now left |].
        cbn [joined app] in E. rewrite E. eauto.
    + change (joined (a :: b :: l')) with (a ++ LF :: joined (b :: l')).
      rewrite <- !app_assoc. cbn [app].
      rewrite (strtok_plain _ _ _ Ha).
      destruct (IH n (sc ++ a ++ [NUL]) tl) as [st' E]; [lia | exact Hl | exact Htl |].
      rewrite E. eauto.
Qed.

(** A block that holds ["recovery"] and the arguments, joined by
    newlines, with or without a last newline, gives the arguments back. *)
Lemma boot_message_args_joined boot r tl argv0 w :
  holds (recovery boot) (joined (lit "recovery" :: r) ++ tl) ->
  tl = [] \/ tl = [LF] ->
  length (joined (lit "recovery" :: r) ++ tl) < recovery_size sz ->
  forallb plain_arg r = true ->
  length r < MAX_ARGS ->
  exists boot',
    boot_message_args sz boot argv0 [] w
      = (lit "recovery", r, boot',
         LOGI (lit "Got arguments from boot message" ++ [LF]) w) /\
    command boot' = command boot /\ status boot' = status boot.
Proof.
  intros [_ [tail Hrec]] Htl Hfit Hplain Hcount.
  unfold boot_message_args. cbn [argc length Nat.leb].
  rewrite Hrec.
  destruct (store_beyond (joined (lit "recovery" :: r) ++ tl) tail
              (recovery_size sz - 1)) as [tail' ->]; [lia|].
  destruct (boot_args_joined tail' (lit "recovery" :: r) (S (MAX_ARGS - 1)) [] tl)
    as [st' E].
  { cbn [length]. unfold MAX_ARGS in *. lia. }
  { cbn [forallb]. now rewrite Hplain. }
  { exact Htl. }
  rewrite <- app_assoc. cbn [boot_args] in E.
  destruct (strtok [LF] _) as [[a|] st1]; [|discriminate E].
  destruct (boot_args (MAX_ARGS - 1) st1) as [found st2].
  assert (Ea : a = lit "recovery") by (inversion E; reflexivity).
  assert (Er : found = r) by (inversion E; reflexivity).
  clear E. subst a found.
  change (streq (lit "recovery") (lit "recovery")) with true. cbn iota.
  eauto.
Qed.

(** A block that holds the serialized arguments gives them back. *)
Lemma boot_message_args_serialized boot r argv0 w :
  holds (recovery boot) (serialize r) ->
  length (serialize r) < recovery_size sz ->
  forallb plain_arg r = true ->
  length r < MAX_ARGS ->
  exists boot',
    boot_message_args sz boot argv0 [] w
      = (lit "recovery", r, boot',
         LOGI (lit "Got arguments from boot message" ++ [LF]) w) /\
    command boot' = command boot /\ status boot' = status boot.
Proof.
  intros Hrec Hfit Hplain Hcount.
  rewrite (serialize_joined r Hplain) in Hrec, Hfit.
  apply (boot_message_args_joined boot r [LF]); auto.
Qed.

(** The command file step only looks at the volume and the file. *)
Lemma command_file_args_same args w r w' v :
  command_file_args args w = Some (r, w') ->
  cache v = cache w -> command_file v = command_file w ->
  exists v', command_file_args args v = Some (r, v').
Proof.
  unfold command_file_args, root_path_ready. intros H Hc Hf.
  destruct (argc args <=? 1); [|inversion H; eauto].
  rewrite Hc. destruct (cache w); cbn beta iota zeta in *;
    try (inversion H; eauto; fail).
  rewrite Hf. destruct (command_file w) as [content|]; [|inversion H; eauto].
  destruct (file_args _ content); inversion H; eauto.
Qed.

Lemma argc_args (args : list chars) :
  (argc args <=? 1) = match args with [] => true | _ => false end.
Proof. destruct args; reflexivity. Qed.

(** C1 (as amended): let a call of [get_args] return the arguments [r]
    (those after [argv[0]]), from whichever source.  When every one of
    them is non-empty and free of newlines, there are fewer than
    [MAX_ARGS] of them and their text, but for its last newline, fits the
    [recovery] field, a second call without invocation arguments, on the
    world the first one left, returns ["recovery"] as [argv[0]] and the
    same arguments [r], and writes the same [recovery] string back. *)
Theorem get_args_round_trip w argv0 args a r w1 argv0' :
  get_args sz w argv0 args = Some (a, r, w1) ->
  forallb plain_arg r = true ->
  length r < MAX_ARGS ->
  length (serialize r) <= recovery_size sz ->
  exists w2,
    get_args sz w1 argv0' [] = Some (lit "recovery", r, w2) /\
    cstr (recovery (bcb w2)) = cstr (recovery (bcb w1)).
Proof.
  intros Hfirst Hplain Hcount Hfit.
  pose proof (get_args_kept _ _ _ _ _ _ Hfirst) as Kfirst.
  apply get_args_steps in Hfirst.
  destruct Hfirst as (r1 & boot1 & wa & wb & Hboot & Hfile & ->).
  assert (Hsz : 0 < recovery_size sz).
  { unfold serialize in Hfit. rewrite length_app in Hfit. cbn in Hfit. lia. }
  pose proof (write_back_recovery boot1 r Hsz) as Hrec.
  assert (Hcut : exists tl,
             (tl = [] \/ tl = [LF]) /\
             firstn (recovery_size sz - 1) (serialize r)
             = joined (lit "recovery" :: r) ++ tl /\
             length (joined (lit "recovery" :: r) ++ tl) < recovery_size sz).
  { rewrite (serialize_joined r Hplain) in *.
    rewrite length_app in Hfit. cbn [length] in Hfit.
    destruct (Nat.eq_dec (length (joined (lit "recovery" :: r)) + 1)
                         (recovery_size sz)) as [E|E].
    - exists []. split; [now left|]. rewrite app_nil_r. split; [|lia].
      replace (recovery_size sz - 1) with
        (length (joined (lit "recovery" :: r)) + 0) by lia.
      rewrite firstn_app_2. cbn. now rewrite app_nil_r.
    - exists [LF]. split; [now right|].
      rewrite firstn_all2 by (rewrite length_app; cbn [length]; lia).
      split; [reflexivity|]. rewrite length_app. cbn [length]. lia. }
  destruct Hcut as (tl & Htl & Ecut & Hlen). rewrite Ecut in Hrec.
  unfold get_args at 1, get_bootloader_message.
  cbn [bcb set_bootloader_message set_bcb].
  set (wl := log_boot_fields sz _ _).
  destruct (boot_message_args_joined _ r tl argv0' wl Hrec Htl Hlen Hplain Hcount)
    as (boot2 & E & _ & _).
  rewrite E.
  assert (Hsecond : exists v,
    command_file_args r (LOGI (lit "Got arguments from boot message" ++ [LF]) wl)
      = Some (r, v)).
  { destruct r as [|x r'].
    - (* nothing was resolved: the first call went through the command file *)
      assert (r1 = []) as ->.
      { destruct r1 as [|y r1']; [reflexivity|].
        unfold command_file_args in Hfile. rewrite argc_args in Hfile.
        inversion Hfile. }
      assert (K : kept wa (LOGI (lit "Got arguments from boot message" ++ [LF]) wl)).
      { eapply kept_trans; [exact (kept_command_file_args _ _ _ _ Hfile)|].
        eapply kept_trans; [apply kept_set_bcb|].
        eapply kept_trans; [apply kept_log_boot_fields | apply kept_LOGI]. }
      destruct K as (Kc & Kf & _).
      exact (command_file_args_same _ _ _ _ _ Hfile Kc Kf).
    - unfold command_file_args. rewrite argc_args. eauto. }
  destruct Hsecond as [v Ev]. rewrite Ev.
  eexists. split; [reflexivity|].
  cbn [bcb set_bootloader_message set_bcb].
  pose proof (write_back_recovery boot2 r Hsz) as Hrec2.
  rewrite Ecut in Hrec2.
  now rewrite (holds_cstr _ _ Hrec), (holds_cstr _ _ Hrec2).
Qed.

(** C2 (as amended): after a call of [get_args] that returns, from
    whichever source the arguments came, the block written back has
    ["boot-recovery"] as its [command] string and, as its [recovery]
    string, ["recovery\n"] followed by each resolved argument (those
    after [argv[0]]) and a newline, cut to what the capacity of the field
    leaves beside the terminator: the whole text when it is shorter
    than the field. *)
Theorem get_args_commits w argv0 args a r w' :
  get_args sz w argv0 args = Some (a, r, w') ->
  length (lit "boot-recovery") < command_size sz ->
  0 < recovery_size sz ->
  holds (command (bcb w')) (lit "boot-recovery") /\
  holds (recovery (bcb w'))
        (firstn (recovery_size sz - 1) (serialize r)) /\
  (length (serialize r) < recovery_size sz ->
   holds (recovery (bcb w')) (serialize r)).
Proof.
  intros H Hcmd Hrec.
  destruct (get_args_writes _ _ _ _ _ _ H) as [boot1 ->].
  assert (Hc : 0 < command_size sz) by lia.
  pose proof (write_back_command boot1 r Hc) as Wc.
  rewrite firstn_all2 in Wc by lia.
  pose proof (write_back_recovery boot1 r Hrec) as Wr.
  split; [exact Wc | split; [exact Wr |]].
  intros Hfit. rewrite firstn_all2 in Wr by lia. exact Wr.
Qed.

(** *** Precedence of the sources *)

(** Invocation arguments make [get_args] skip both other sources. *)
Lemma get_args_invocation w argv0 x args :
  exists w',
    get_args sz w argv0 (x :: args) = Some (argv0, x :: args, w') /\ kept w w'.
Proof.
  assert (E : get_args sz w argv0 (x :: args)
              = Some (argv0, x :: args,
                      set_bootloader_message (write_back sz (bcb w) (x :: args))
                        (log_boot_fields sz (bcb w) w))) by reflexivity.
  eexists. split; [exact E|].
  eapply kept_trans; [apply kept_log_boot_fields | apply kept_set_bcb].
Qed.

(** Arguments held by the block make [get_args] skip the command file. *)
Lemma get_args_block w argv0 x r :
  holds (recovery (bcb w)) (serialize (x :: r)) ->
  length (serialize (x :: r)) < recovery_size sz ->
  forallb plain_arg (x :: r) = true ->
  length (x :: r) < MAX_ARGS ->
  exists w', get_args sz w argv0 [] = Some (lit "recovery", x :: r, w').
Proof.
  intros Hrec Hfit Hplain Hcount.
  unfold get_args, get_bootloader_message.
  destruct (boot_message_args_serialized (bcb w) (x :: r) argv0
              (log_boot_fields sz (bcb w) w) Hrec Hfit Hplain Hcount)
    as (boot' & E & _).
  rewrite E. unfold command_file_args. rewrite argc_args. eauto.
Qed.

(** C3: whatever the block and the command file hold, a call of
    [get_args] with invocation arguments beyond [argv[0]] returns exactly
    the [argv] it was given and leaves the volume and its files alone;
    and with none, a block that holds ["recovery"] and at least one
    argument line is resolved to those arguments whatever the command
    file holds. *)
Theorem get_args_precedence :
  (forall w argv0 args, args <> [] ->
     exists w',
       get_args sz w argv0 args = Some (argv0, args, w') /\ kept w w') /\
  (forall w argv0 r, r <> [] ->
     holds (recovery (bcb w)) (serialize r) ->
     length (serialize r) < recovery_size sz ->
     forallb plain_arg r = true ->
     length r < MAX_ARGS ->
     exists w', get_args sz w argv0 [] = Some (lit "recovery", r, w')).
Proof.
  split.
  - intros w argv0 [|x args] Hne; [contradiction|].
    apply get_args_invocation.
  - intros w argv0 [|x r] Hne; [contradiction|].
    apply get_args_block.
Qed.

(** *** Fields that start with 0x00 or 0xFF *)

Lemma present_zeros n : present (zeros n) = false.
Proof. destruct n; reflexivity. Qed.

Lemma present_blank f : present (blank f) = present f.
Proof.
  unfold blank. destruct (present f) eqn:E; [exact E | apply present_zeros].
Qed.

Lemma blank_present f : present f = true -> blank f = f.
Proof. unfold blank. now intros ->. Qed.

Lemma log_boot_fields_clear m w :
  log_boot_fields sz (clear_absent m) w = log_boot_fields sz m w.
Proof.
  unfold log_boot_fields, clear_absent. cbn [command status].
  rewrite !present_blank.
  destruct (present (command m)) eqn:Ec, (present (status m)) eqn:Es;
    rewrite ?(blank_present _ Ec), ?(blank_present _ Es); reflexivity.
Qed.

Lemma log_boot_fields_set_bcb boot m w :
  log_boot_fields sz boot (set_bcb m w) = set_bcb m (log_boot_fields sz boot w).
Proof.
  unfold log_boot_fields.
  destruct (present (command boot)), (present (status boot)); reflexivity.
Qed.

Lemma boot_message_args_set_bcb boot argv0 args m w :
  boot_message_args sz boot argv0 args (set_bcb m w)
  = let '(a, r, b, w') := boot_message_args sz boot argv0 args w in
    (a, r, b, set_bcb m w').
Proof.
  unfold boot_message_args.
  destruct (argc args <=? 1); [|reflexivity].
  destruct (strtok [LF] _) as [[arg|] st].
  - destruct (streq arg (lit "recovery")).
    + destruct (boot_args _ st) as [found st']. reflexivity.
    + destruct (present (tok_buffer st)); reflexivity.
  - destruct (present (tok_buffer st)); reflexivity.
Qed.

Lemma command_file_args_set_bcb args m w :
  command_file_args args (set_bcb m w)
  = match command_file_args args w with
    | Some (r, w') => Some (r, set_bcb m w')
    | None => None
    end.
Proof.
  unfold command_file_args, root_path_ready.
  destruct (argc args <=? 1); [|reflexivity].
  cbn [cache set_bcb].
  destruct (cache w); cbn beta iota zeta; try reflexivity.
  cbn [command_file set_bcb].
  destruct (command_file w) as [content|]; [|reflexivity].
  destruct (file_args _ content); reflexivity.
Qed.

(** What [get_args] shows, from the block it read and the world. *)
Lemma resolved_get_args w argv0 args :
  resolved (get_args sz w argv0 args)
  = let '(a, r, _, w1) :=
      boot_message_args sz (bcb w) argv0 args (log_boot_fields sz (bcb w) w) in
    match command_file_args r w1 with
    | Some (r', w2) => Some (a, r', trace w2)
    | None => None
    end.
Proof.
  unfold get_args, get_bootloader_message.
  destruct (boot_message_args _ _ _ _ _) as [[[a r] b] w1].
  destruct (command_file_args r w1) as [[r' w2]|]; reflexivity.
Qed.

(** A [recovery] field that starts with 0x00 or 0xFF gives no argument
    and no complaint. *)
Lemma boot_message_args_absent m argv0 args w :
  present (recovery m) = false ->
  exists boot', boot_message_args sz m argv0 args w = (argv0, args, boot', w).
Proof.
  intros Habs. unfold boot_message_args.
  destruct (argc args <=? 1); [|eauto].
  destruct (recovery m) as [|c rest] eqn:Erec.
  - cbn. eauto.
  - assert (Hc : c = NUL \/ c = xFF).
    { cbn in Habs. destruct (Ascii.eqb_spec c NUL) as [->|_]; [now left|].
      destruct (Ascii.eqb_spec c xFF) as [->|_]; [now right|discriminate]. }
    destruct (recovery_size sz - 1) as [|j].
    + cbn. eauto.
    + cbn [store]. destruct Hc as [-> | ->].
      * cbn. eauto.
      * unfold strtok. cbn [pending scanned]. change (cstr [LF]) with [LF].
        cbn [strtok_skip strtok_span is_nul mem negb andb orb Ascii.eqb
             xFF NUL LF Bool.eqb].
        destruct (strtok_span [LF] (store rest j NUL)) as [t p2].
        destruct p2 as [|c2 r2]; [|destruct (is_nul c2)];
          cbn; eauto.
Qed.

Lemma boot_message_args_recovery m1 m2 argv0 args w :
  recovery m1 = recovery m2 ->
  (let '(a, r, _, w') := boot_message_args sz m1 argv0 args w in (a, r, w'))
  = (let '(a, r, _, w') := boot_message_args sz m2 argv0 args w in (a, r, w')).
Proof.
  intros E. unfold boot_message_args. rewrite E.
  destruct (argc args <=? 1); [|reflexivity].
  destruct (strtok [LF] _) as [[arg|] st].
  - destruct (streq arg (lit "recovery")).
    + destruct (boot_args _ st) as [found st']. reflexivity.
    + reflexivity.
  - reflexivity.
Qed.

(** C8: a [command], [status] or [recovery] field of the block that
    starts with a 0x00 or a 0xFF byte is to [get_args] what an all-zero
    field is: with every such field zeroed the call resolves the same
    [argv] and leaves the same trace; and a [recovery] field of that kind
    gives the step over the block no argument and no log entry. *)
Theorem get_args_absent_fields w argv0 args :
  resolved (get_args sz w argv0 args)
  = resolved (get_args sz (set_bcb (clear_absent (bcb w)) w) argv0 args) /\
  (present (recovery (bcb w)) = false ->
   forall v, exists boot',
     boot_message_args sz (bcb w) argv0 [] v = (argv0, [], boot', v)).
Proof.
  split.
  - rewrite !resolved_get_args. cbn [bcb set_bcb].
    rewrite log_boot_fields_clear, log_boot_fields_set_bcb.
    rewrite boot_message_args_set_bcb.
    set (wl := log_boot_fields sz (bcb w) w).
    assert (E :
      (let '(a, r, _, w') := boot_message_args sz (bcb w) argv0 args wl in (a, r, w'))
      = (let '(a, r, _, w') :=
           boot_message_args sz (clear_absent (bcb w)) argv0 args wl in (a, r, w'))).
    { destruct (present (recovery (bcb w))) eqn:P.
      - apply boot_message_args_recovery. cbn [clear_absent recovery].
        now rewrite blank_present.
      - destruct (boot_message_args_absent (bcb w) argv0 args wl P) as [b1 ->].
        destruct (boot_message_args_absent (clear_absent (bcb w)) argv0 args wl)
          as [b2 ->]; [|reflexivity].
        cbn [clear_absent recovery]. now rewrite present_blank. }
    destruct (boot_message_args sz (bcb w) argv0 args wl) as [[[a r] b] w1].
    destruct (boot_message_args sz (clear_absent (bcb w)) argv0 args wl)
      as [[[a' r'] b'] w1'].
    inversion E; subst.
    rewrite command_file_args_set_bcb.
    destruct (command_file_args r' w1') as [[r2 w2]|]; reflexivity.
  - intros P v. apply boot_message_args_absent. exact P.
Qed.

(** *** Reading the command file *)

Lemma file_args_lines n : forall content,
  forallb has_token (file_lines n content) = true ->
  file_args n content = Some (map token_of (file_lines n content)).
Proof.
  induction n as [|n IH]; intros content H; [reflexivity|].
  cbn [file_args file_lines] in *.
  destruct (fgets MAX_ARG_LENGTH content) as [[line unread]|]; [|reflexivity].
  cbn [forallb map] in *. apply andb_true_iff in H. destruct H as [Ht Hrest].
  unfold has_token in Ht. unfold token_of at 1.
  destruct (line_token line) as [t|]; [|discriminate].
  now rewrite (IH _ Hrest).
Qed.


Lemma read_line_parts room : forall s l rest,
  read_line room s = (l, rest) -> s = l ++ rest /\ length l <= room.
Proof.
  induction room as [|room IH]; intros s l rest H.
  - destruct s; inversion H; subst; split; auto.
  - destruct s as [|c s]; [inversion H; subst; split; cbn; auto; lia|].
    cbn [read_line] in H. destruct (Ascii.eqb c LF).
    + inversion H; subst. split; [reflexivity | cbn; lia].
    + destruct (read_line room s) as [l' rest'] eqn:E.
      inversion H; subst. destruct (IH _ _ _ E) as [-> Hl].
      split; [reflexivity | cbn; lia].
Qed.









(** *** [finish_recovery] *)

Ltac trace_ext :=
  solve [ exists []; now rewrite app_nil_r
        | rewrite <- ?app_assoc; eexists; reflexivity ].

(** What the steps of [finish_recovery] do to the volume state. *)
Lemma root_path_ready_cases p w :
  (cache w = Mounted /\ root_path_ready p w = (true, w)) \/
  (cache w <> Mounted /\ exists text,
     root_path_ready p w = (false, LOGE text w)).
Proof.
  unfold root_path_ready.
  destruct (cache w); [right | right | left]; split;
    try discriminate; eauto.
Qed.

Lemma write_intent_frame intent w :
  let w' := write_intent intent w in
  cache w' = cache w /\ bcb w' = bcb w /\ command_file w' = command_file w /\
  log_file w' = log_file w /\ tmp_log w' = tmp_log w /\
  tmplog_offset w' = tmplog_offset w /\
  exists more, trace w' = trace w ++ more.
Proof.
  unfold write_intent. destruct intent as [text|].
  - destruct (root_path_ready_cases INTENT_FILE w) as [[_ ->]|[_ [t ->]]];
      world_simpl; repeat split; trace_ext.
  - repeat split. trace_ext.
Qed.

Lemma copy_logs_frame w :
  let w' := copy_logs w in
  cache w' = cache w /\ bcb w' = bcb w /\ command_file w' = command_file w /\
  intent_file w' = intent_file w /\ tmp_log w' = tmp_log w /\
  exists more, trace w' = trace w ++ more.
Proof.
  unfold copy_logs.
  destruct (root_path_ready_cases LOG_FILE w) as [[_ ->]|[_ [t ->]]].
  - destruct (tmp_log w) eqn:E; world_simpl; repeat split;
      try assumption; trace_ext.
  - world_simpl. repeat split; trace_ext.
Qed.

Lemma finish_recovery_bcb intent w :
  bcb (finish_recovery sz intent w) = zero_message sz.
Proof.
  unfold finish_recovery, unlink_command_file. world_simpl.
  destruct (cache _); reflexivity.
Qed.


Lemma finish_recovery_trace intent w :
  exists more, trace (finish_recovery sz intent w) = trace w ++ more.
Proof.
  unfold finish_recovery, unlink_command_file. world_simpl.
  destruct (copy_logs_frame (write_intent intent w)) as (_ & _ & _ & _ & _ & m1 & T1).
  destruct (write_intent_frame intent w) as (_ & _ & _ & _ & _ & _ & m2 & T2).
  cbn zeta in *.
  destruct (cache (copy_logs (write_intent intent w)));
    world_simpl; rewrite T1, T2, <- !app_assoc; eauto.
Qed.

(** What a call of [finish_recovery] leaves, field by field. *)
Lemma finish_recovery_fields intent w :
  let w' := finish_recovery sz intent w in
  cache w' = cache w /\ tmp_log w' = tmp_log w /\
  bcb w' = zero_message sz /\
  intent_file w'
  = match cache w, intent with
    | Mounted, Some text => Some (cstr text)
    | _, _ => intent_file w
    end /\
  command_file w'
  = match cache w with Mounted => None | _ => command_file w end /\
  log_file w'
  = match cache w with
    | Mounted =>
        Some ((match log_file w with Some c => c | None => [] end)
              ++ match tmp_log w with
                 | Some tmp =>
                     copy_log (length (skipn (tmplog_offset w) tmp))
                              (skipn (tmplog_offset w) tmp)
                 | None => []
                 end)
    | _ => log_file w
    end /\
  tmplog_offset w'
  = match cache w, tmp_log w with
    | Mounted, Some tmp =>
        tmplog_offset w + length (skipn (tmplog_offset w) tmp)
    | _, _ => tmplog_offset w
    end.
Proof.
  unfold finish_recovery, write_intent, copy_logs, unlink_command_file,
    root_path_ready.
  destruct (cache w) eqn:Ec, intent as [text|], (tmp_log w) as [tmp|] eqn:Et;
    repeat (world_simpl; rewrite ?Ec, ?Et; cbn beta iota zeta);
    rewrite ?app_nil_r; repeat split; reflexivity.
Qed.




(** *** The command dispatch of [main] *)

Lemma formatted_app tr1 tr2 : formatted (tr1 ++ tr2) = formatted tr1 ++ formatted tr2.
Proof. unfold formatted. apply flat_map_app. Qed.

Lemma erase_root_spec root w :
  fst (erase_root root w) = format_result w root /\
  format_result (snd (erase_root root w)) = format_result w /\
  formatted (trace (snd (erase_root root w))) = formatted (trace w) ++ [root].
Proof.
  unfold erase_root, format_root_device. world_simpl. cbn [fst snd].
  world_simpl. repeat split.
  rewrite !formatted_app. cbn. now rewrite !app_nil_r.
Qed.

Ltac wipe_outcome :=
  split; [reflexivity|];
  split;
  [ split;
    [ intros H; try discriminate H; split; intros X;
      (assumption || discriminate X)
    | intros [A B]; try reflexivity;
      try specialize (A eq_refl); try specialize (B eq_refl); congruence ]
  | intros H; try reflexivity; congruence ].

(** C6: when [main] has no package to install and a wipe flag is set,
    [format_root_device] is called on ["DATA:"] if [wipe_data] is set and
    then on ["CACHE:"] if [wipe_cache] is set, in that order and whatever
    the first call returned; the status is [INSTALL_SUCCESS] exactly when
    every requested erase returned 0, and [INSTALL_ERROR] otherwise. *)
Theorem run_command_wipe o w :
  update_package o = None ->
  wipe_data o || wipe_cache o = true ->
  formatted (trace (snd (run_command o w)))
  = formatted (trace w)
      ++ (if wipe_data o then [lit "DATA:"] else [])
      ++ (if wipe_cache o then [lit "CACHE:"] else []) /\
  (fst (run_command o w) = INSTALL_SUCCESS <->
   (wipe_data o = true -> format_result w (lit "DATA:") = 0%Z) /\
   (wipe_cache o = true -> format_result w (lit "CACHE:") = 0%Z)) /\
  (fst (run_command o w) <> INSTALL_SUCCESS ->
   fst (run_command o w) = INSTALL_ERROR).
Proof.
  intros Hpkg Hwipe. unfold run_command. rewrite Hpkg, Hwipe.
  destruct (wipe_data o) eqn:Ed, (wipe_cache o) eqn:Ec; try discriminate.
  - (* both *)
    destruct (erase_root_spec (lit "DATA:") w) as (R1 & F1 & T1).
    destruct (erase_root (lit "DATA:") w) as [r1 w1]. cbn [fst snd] in *.
    destruct (erase_root_spec (lit "CACHE:") w1) as (R2 & F2 & T2).
    destruct (erase_root (lit "CACHE:") w1) as [r2 w2]. cbn [fst snd] in *.
    rewrite F1 in R2. subst r1 r2.
    destruct (Z.eqb_spec (format_result w (lit "DATA:")) 0) as [E1|E1],
             (Z.eqb_spec (format_result w (lit "CACHE:")) 0) as [E2|E2];
      cbn [is_success fst snd]; world_simpl;
      rewrite ?formatted_app, T2, T1, <- ?app_assoc; cbn [formatted flat_map app];
      rewrite ?app_nil_r;
      wipe_outcome.
  - (* data only *)
    destruct (erase_root_spec (lit "DATA:") w) as (R1 & F1 & T1).
    destruct (erase_root (lit "DATA:") w) as [r1 w1]. cbn [fst snd] in *.
    subst r1.
    destruct (Z.eqb_spec (format_result w (lit "DATA:")) 0) as [E1|E1];
      cbn [is_success fst snd]; world_simpl;
      rewrite ?formatted_app, T1, <- ?app_assoc; cbn [formatted flat_map app];
      rewrite ?app_nil_r;
      wipe_outcome.
  - (* cache only *)
    destruct (erase_root_spec (lit "CACHE:") w) as (R2 & F2 & T2).
    destruct (erase_root (lit "CACHE:") w) as [r2 w2]. cbn [fst snd] in *.
    subst r2.
    destruct (Z.eqb_spec (format_result w (lit "CACHE:")) 0) as [E2|E2];
      cbn [is_success fst snd]; world_simpl;
      rewrite ?formatted_app, T2, <- ?app_assoc; cbn [formatted flat_map app];
      rewrite ?app_nil_r;
      wipe_outcome.
Qed.

(** After a dispatch that did nothing, [main] goes through the prompt. *)
Lemma main_dispatch_error o w :
  run_command o w = (INSTALL_ERROR, w) ->
  fst (main_dispatch sz o w) = INSTALL_ERROR /\
  exists rest,
    trace (snd (main_dispatch sz o w))
    = trace w ++ [UiSetBackground BACKGROUND_ICON_ERROR; PromptAndWait]
        ++ rest ++ [Reboot].
Proof.
  intros E. unfold main_dispatch. rewrite E. cbn [is_success fst snd].
  split; [reflexivity|].
  unfold prompt_and_wait. world_simpl.
  set (w1 := emit PromptAndWait (emit (UiSetBackground BACKGROUND_ICON_ERROR) w)).
  destruct (finish_recovery_trace None w1) as [m1 T1].
  destruct (finish_recovery_trace (send_intent o) (finish_recovery sz None w1))
    as [m2 T2].
  rewrite T2, T1. unfold w1. world_simpl.
  exists (m1 ++ m2 ++ [Sync; UiPrint (lit "Rebooting..." ++ [LF]); Sync]).
  rewrite <- !app_assoc. reflexivity.
Qed.

(** C7: when the options [main] parsed hold no package and no wipe flag,
    the command dispatch does nothing and gives [INSTALL_ERROR], and
    [main] then sets the error background and enters [prompt_and_wait];
    the reboot comes only after the prompt has returned. *)
Theorem main_dispatch_nothing_to_do o w :
  update_package o = None ->
  wipe_data o = false ->
  wipe_cache o = false ->
  run_command o w = (INSTALL_ERROR, w) /\
  fst (main_dispatch sz o w) = INSTALL_ERROR /\
  exists rest,
    trace (snd (main_dispatch sz o w))
    = trace w ++ [UiSetBackground BACKGROUND_ICON_ERROR; PromptAndWait]
        ++ rest ++ [Reboot].
Proof.
  intros Hpkg Hdata Hcache.
  assert (E : run_command o w = (INSTALL_ERROR, w)).
  { unfold run_command. now rewrite Hpkg, Hdata, Hcache. }
  split; [exact E | exact (main_dispatch_error o w E)].
Qed.

(** *** The layout of the block is kept

    The routines write inside the arrays: a block read with the declared
    capacities is written back with them. *)

Lemma length_overwrite dst data :
  length data <= length dst -> length (overwrite dst data) = length dst.
Proof.
  intros H. unfold overwrite. rewrite length_app, length_skipn. lia.
Qed.

Lemma length_strlcpy dst src siz :
  siz <= length dst -> length (strlcpy dst src siz) = length dst.
Proof.
  intros H. destruct siz as [|room]; [reflexivity|]. cbn [strlcpy].
  apply length_overwrite. rewrite length_app, length_firstn. cbn [length].
  pose proof (Nat.le_min_l room (length (cstr src))). lia.
Qed.

Lemma length_cstr_le b : length (cstr b) <= length b.
Proof.
  induction b as [|c b IH]; cbn [cstr length]; [lia|].
  destruct (is_nul c); cbn [length]; lia.
Qed.

Lemma length_strlcat dst src siz :
  siz <= length dst -> length (strlcat dst src siz) = length dst.
Proof.
  intros H. unfold strlcat.
  set (dlen := length (cstr (firstn siz dst))).
  assert (Hd : dlen <= siz).
  { unfold dlen. pose proof (length_cstr_le (firstn siz dst)) as L.
    rewrite length_firstn in L. lia. }
  destruct (Nat.eqb_spec dlen siz) as [_|Hne]; [reflexivity|].
  rewrite length_app, length_firstn, length_overwrite.
  - rewrite length_skipn. lia.
  - rewrite length_app, length_firstn, length_skipn. cbn [length].
    pose proof (Nat.le_min_l (siz - dlen - 1) (length (cstr src))). lia.
Qed.

Lemma length_store b : forall i c, length (store b i c) = length b.
Proof.
  induction b as [|x b IH]; intros [|i] c; cbn [store length]; auto.
Qed.

Lemma strtok_skip_parts d p sk p1 :
  strtok_skip d p = (sk, p1) -> p = sk ++ p1.
Proof.
  revert sk p1. induction p as [|c p IH]; intros sk p1 H; cbn [strtok_skip] in H.
  - now inversion H.
  - destruct (negb (is_nul c) && mem c d).
    + destruct (strtok_skip d p) as [sk' rest]. inversion H; subst.
      cbn [app]. now rewrite <- (IH _ _ eq_refl).
    + now inversion H.
Qed.

Lemma strtok_span_parts d p t p2 :
  strtok_span d p = (t, p2) -> p = t ++ p2.
Proof.
  revert t p2. induction p as [|c p IH]; intros t p2 H; cbn [strtok_span] in H.
  - now inversion H.
  - destruct (is_nul c || mem c d).
    + now inversion H.
    + destruct (strtok_span d p) as [t' rest]. inversion H; subst.
      cbn [app]. now rewrite <- (IH _ _ eq_refl).
Qed.

Lemma length_strtok d st :
  length (tok_buffer (snd (strtok d st))) = length (tok_buffer st).
Proof.
  unfold strtok, tok_buffer.
  destruct (strtok_skip (cstr d) (pending st)) as [sk p1] eqn:Es.
  destruct (strtok_span (cstr d) p1) as [t p2] eqn:Et.
  apply strtok_skip_parts in Es. apply strtok_span_parts in Et.
  rewrite Es, Et.
  destruct t as [|x t]; [|destruct p2 as [|c r]; [|destruct (is_nul c)]];
    cbn [snd scanned pending]; rewrite ?length_app; cbn [length];
    rewrite ?length_app; cbn [length]; lia.
Qed.

Lemma length_boot_args n : forall st,
  length (tok_buffer (snd (boot_args n st))) = length (tok_buffer st).
Proof.
  induction n as [|n IH]; intros st; cbn [boot_args]; [reflexivity|].
  pose proof (length_strtok [LF] st) as L.
  destruct (strtok [LF] st) as [[arg|] st1]; cbn [snd] in *; [|exact L].
  specialize (IH st1). destruct (boot_args n st1) as [rest st2].
  cbn [snd] in *. congruence.
Qed.

Lemma length_append_args args : forall buf,
  recovery_size sz <= length buf ->
  length (append_args sz buf args) = length buf.
Proof.
  induction args as [|a rest IH]; intros buf H; cbn [append_args]; [reflexivity|].
  assert (L1 : length (strlcat buf a (recovery_size sz)) = length buf)
    by (apply length_strlcat; exact H).
  assert (L2 : length (strlcat (strlcat buf a (recovery_size sz)) [LF]
                         (recovery_size sz)) = length buf)
    by (rewrite length_strlcat; lia).
  rewrite IH; lia.
Qed.

Lemma write_back_wf boot args :
  wf_message sz boot -> wf_message sz (write_back sz boot args).
Proof.
  intros (Hc & Hs & Hr). unfold wf_message, write_back. cbn [command status recovery].
  assert (L1 : length (strlcpy (recovery boot) (lit "recovery" ++ [LF])
                         (recovery_size sz)) = length (recovery boot))
    by (apply length_strlcpy; lia).
  rewrite length_append_args by lia.
  rewrite length_strlcpy by lia. repeat split; lia.
Qed.

Lemma boot_message_args_wf boot argv0 args w a r boot' w' :
  boot_message_args sz boot argv0 args w = (a, r, boot', w') ->
  wf_message sz boot -> wf_message sz boot'.
Proof.
  unfold boot_message_args. intros H (Hc & Hs & Hr).
  destruct (argc args <=? 1); [|inversion H; subst; repeat split; assumption].
  pose proof (length_strtok [LF]
                (TokState [] (store (recovery boot) (recovery_size sz - 1) NUL)))
    as L1.
  destruct (strtok [LF] _) as [arg st]. cbn [snd] in L1.
  unfold tok_buffer at 2 in L1. cbn [scanned pending app] in L1.
  rewrite length_store in L1.
  assert (Hother : forall x y z,
            (x, y, BootMsg (command boot) (status boot) (tok_buffer st), z)
            = (a, r, boot', w') -> wf_message sz boot').
  { intros x y z E. inversion E; subst. repeat split; cbn; congruence. }
  destruct arg as [t|]; [|exact (Hother _ _ _ H)].
  destruct (streq t (lit "recovery")); [|exact (Hother _ _ _ H)].
  pose proof (length_boot_args (MAX_ARGS - 1) st) as L2.
  destruct (boot_args (MAX_ARGS - 1) st) as [found st']. cbn [snd] in L2.
  inversion H; subst. repeat split; cbn; congruence.
Qed.

(** A call of [get_args] that returns writes back a block of the layout
    it read. *)
Lemma get_args_wf w argv0 args a r w' :
  get_args sz w argv0 args = Some (a, r, w') ->
  wf_message sz (bcb w) -> wf_message sz (bcb w').
Proof.
  intros H Hwf. apply get_args_steps in H.
  destruct H as (r1 & boot1 & w1 & w2 & H1 & H2 & ->).
  cbn [bcb set_bootloader_message set_bcb]. apply write_back_wf.
  exact (boot_message_args_wf _ _ _ _ _ _ _ _ H1 Hwf).
Qed.

(** *** The copy loop reaches the end of the temporary log *)

Lemma read_line_progress room c s l rest :
  read_line (S room) (c :: s) = (l, rest) -> length rest <= length s.
Proof.
  intros H. pose proof (read_line_parts _ _ _ _ H) as [E _].
  cbn [read_line] in H. destruct (Ascii.eqb c LF).
  - inversion H; subst. lia.
  - destruct (read_line room s) as [l' rest'] eqn:E'. inversion H; subst.
    apply read_line_parts in E'. destruct E' as [-> _].
    rewrite length_app. lia.
Qed.

Lemma copy_log_enough n : forall m s,
  length s <= n -> length s <= m -> copy_log n s = copy_log m s.
Proof.
  induction n as [|n IH]; intros m s Hn Hm.
  - destruct s; [|cbn in Hn; lia]. destruct m; reflexivity.
  - destruct s as [|c s]; [destruct m; reflexivity|].
    destruct m as [|m]; [cbn in Hm; lia|].
    cbn [copy_log fgets]. change (4096 - 1) with (S 4094).
    destruct (read_line (S 4094) (c :: s)) as [l rest] eqn:E.
    apply read_line_progress in E. cbn [length] in *.
    rewrite (IH m rest); [reflexivity | lia | lia].
Qed.

(** *** When [get_args] returns

    The NULL dereference is the only way out of [get_args] other than
    its return: it takes a command file that is read and has a piece
    without token. *)

Lemma get_args_none w argv0 args :
  get_args sz w argv0 args = None ->
  args = [] /\ cache w = Mounted /\
  exists content,
    command_file w = Some content /\
    forallb has_token (file_lines (MAX_ARGS - 1) content) = false.
Proof.
  unfold get_args, get_bootloader_message. intros H.
  destruct (boot_message_args sz (bcb w) argv0 args (log_boot_fields sz (bcb w) w))
    as [[[a r1] boot1] w1] eqn:Hboot.
  destruct (command_file_args r1 w1) as [[r2 w2]|] eqn:Hfile; [discriminate|].
  clear H.
  assert (K : kept w w1).
  { eapply kept_trans; [apply kept_log_boot_fields|].
    exact (kept_boot_message_args _ _ _ _ _ _ _ _ Hboot). }
  destruct K as (Kc & Kf & _).
  split.
  { destruct args as [|x args]; [reflexivity|].
    unfold boot_message_args in Hboot. rewrite argc_args in Hboot.
    inversion Hboot; subst.
    unfold command_file_args in Hfile. rewrite argc_args in Hfile.
    discriminate. }
  unfold command_file_args, root_path_ready in Hfile.
  destruct (argc r1 <=? 1); [|discriminate].
  destruct (cache w1) eqn:Ec; cbn beta iota zeta in Hfile; try discriminate.
  split; [congruence|].
  destruct (command_file w1) as [content|] eqn:Ef; [|discriminate].
  exists content. split; [congruence|].
  destruct (forallb has_token (file_lines (MAX_ARGS - 1) content)) eqn:Et;
    [|reflexivity].
  rewrite (file_args_lines _ _ Et) in Hfile. discriminate.
Qed.

(** No source has an argument: the bare [argv] comes back. *)
Lemma get_args_nothing w argv0 :
  present (recovery (bcb w)) = false ->
  cache w <> Mounted \/ command_file w = None ->
  exists w', get_args sz w argv0 [] = Some (argv0, [], w').
Proof.
  intros Habs Hno. unfold get_args, get_bootloader_message.
  destruct (boot_message_args_absent (bcb w) argv0 []
              (log_boot_fields sz (bcb w) w) Habs) as [boot' ->].
  destruct (kept_log_boot_fields (bcb w) w) as (Kc & Kf & _).
  unfold command_file_args, root_path_ready. cbn [argc length Nat.leb].
  rewrite Kc.
  destruct (cache w) eqn:Ec; cbn beta iota zeta; eauto.
  destruct Hno as [Hno|Hno]; [congruence|].
  rewrite Kf, Hno. eauto.
Qed.

End Facts.
(** A cold boot into recovery: no invocation arguments, an all-zero
    block, no command file.  [get_args] resolves the bare [argv], for
    which [getopt_long] has nothing to return, and [main] goes to the
    prompt. *)
Lemma main_cold_boot getopt_long argv0 :
  getopt_long [argv0] = [] ->
  exists w rest,
    main bcb_sizes getopt_long (idle_world None) argv0 [] = Some (INSTALL_ERROR, w) /\
    trace w
    = [UiSetBackground BACKGROUND_ICON_ERROR; PromptAndWait] ++ rest ++ [Reboot].
Proof.
  intros Hopt. unfold main.
  assert (E : exists w1,
    get_args bcb_sizes (idle_world None) argv0 [] = Some (argv0, [], w1) /\
    trace w1 = []).
  { eexists. split; reflexivity. }
  destruct E as (w1 & -> & Tr). rewrite Hopt. cbn [parse_options].
  destruct (main_dispatch_error bcb_sizes no_options w1 eq_refl) as [S1 [rest T1]].
  destruct (main_dispatch bcb_sizes no_options w1) as [st w2].
  cbn [fst snd] in *. subst st. exists w2, rest.
  rewrite Tr in T1. split; [reflexivity | exact T1].
Qed.

(** *** The engine at work *)

(** C1 (as stated) fails: resolving again after the first call does not
    always give the same Command.  With the capacities [bcb_sizes] and an
    all-zero block: an empty argument is lost; an argument with a newline
    comes back as two; an argument of 1124 bytes comes back cut to the
    1014 that the field had room for; of 120 arguments 99 come back; and
    [argv[0]], the name of the program, comes back as ["recovery"]. *)
Lemma get_args_round_trip_fails :
  round_trip_breaks bcb_sizes (idle_world None) (lit "recovery")
    [lit "--wipe_data"; []]
    [lit "recovery"; lit "--wipe_data"; []]
    [lit "recovery"; lit "--wipe_data"] /\
  round_trip_breaks bcb_sizes (idle_world None) (lit "recovery")
    [lit "--send_intent=a" ++ [LF] ++ lit "--wipe_data"]
    [lit "recovery"; lit "--send_intent=a" ++ [LF] ++ lit "--wipe_data"]
    [lit "recovery"; lit "--send_intent=a"; lit "--wipe_data"] /\
  round_trip_breaks bcb_sizes (idle_world None) (lit "recovery")
    [long_package]
    [lit "recovery"; long_package]
    [lit "recovery"; firstn 1014 long_package] /\
  round_trip_breaks bcb_sizes (idle_world None) (lit "recovery")
    (repeat (lit "-x") 120)
    (lit "recovery" :: repeat (lit "-x") 120)
    (lit "recovery" :: repeat (lit "-x") 99) /\
  round_trip_breaks bcb_sizes (idle_world None) recovery_prog
    [lit "--wipe_data"]
    [recovery_prog; lit "--wipe_data"]
    [lit "recovery"; lit "--wipe_data"].
Proof.
  unfold round_trip_breaks.
  repeat split; try (vm_compute; reflexivity);
    intros H; apply (f_equal (map (@length char))) in H;
    vm_compute in H; discriminate H.
Qed.

(** The round trip of a factory reset asked for through the command
    file. *)
Lemma get_args_round_trip_witness :
  let w := idle_world (Some (lit "--wipe_data" ++ [LF])) in
  let w1 := after_get_args bcb_sizes w recovery_prog [] in
  get_args bcb_sizes w recovery_prog []
  = Some (recovery_prog, [lit "--wipe_data"], w1) /\
  forallb plain_arg [lit "--wipe_data"] = true /\
  length [lit "--wipe_data"] < MAX_ARGS /\
  length (serialize [lit "--wipe_data"]) <= recovery_size bcb_sizes /\
  exists w2,
    get_args bcb_sizes w1 recovery_prog []
    = Some (lit "recovery", [lit "--wipe_data"], w2) /\
    cstr (recovery (bcb w2)) = cstr (recovery (bcb w1)).
Proof.
  intros w w1.
  assert (H1 : get_args bcb_sizes w recovery_prog []
               = Some (recovery_prog, [lit "--wipe_data"], w1))
    by (vm_compute; reflexivity).
  assert (H2 : forallb plain_arg [lit "--wipe_data"] = true) by reflexivity.
  assert (H3 : length [lit "--wipe_data"] < MAX_ARGS)
    by (apply Nat.ltb_lt; vm_compute; reflexivity).
  assert (H4 : length (serialize [lit "--wipe_data"]) <= recovery_size bcb_sizes)
    by (apply Nat.leb_le; vm_compute; reflexivity).
  do 4 (split; [assumption|]).
  exact (get_args_round_trip bcb_sizes w recovery_prog [] recovery_prog
           [lit "--wipe_data"] w1 recovery_prog H1 H2 H3 H4).
Defined.

(** C2 (as stated) fails: an argument of 1124 bytes does not fit the
    1024 bytes of the [recovery] field, which is left with the first 1023
    bytes of the text and no final newline. *)
Lemma get_args_commit_cut :
  recovery_of (get_args bcb_sizes (idle_world None) recovery_prog [long_package])
  = Some (firstn 1023 (serialize [long_package])) /\
  firstn 1023 (serialize [long_package]) <> serialize [long_package].
Proof.
  split; [vm_compute; reflexivity|].
  intros H. apply (f_equal (@length char)) in H. vm_compute in H. discriminate H.
Qed.

(** What the same call leaves in the block. *)
Lemma get_args_commits_witness :
  let w := idle_world (Some (lit "--wipe_data" ++ [LF])) in
  let w1 := after_get_args bcb_sizes w recovery_prog [] in
  get_args bcb_sizes w recovery_prog []
  = Some (recovery_prog, [lit "--wipe_data"], w1) /\
  length (lit "boot-recovery") < command_size bcb_sizes /\
  0 < recovery_size bcb_sizes /\
  holds (command (bcb w1)) (lit "boot-recovery") /\
  holds (recovery (bcb w1))
        (firstn (recovery_size bcb_sizes - 1) (serialize [lit "--wipe_data"])) /\
  (length (serialize [lit "--wipe_data"]) < recovery_size bcb_sizes ->
   holds (recovery (bcb w1)) (serialize [lit "--wipe_data"])).
Proof.
  intros w w1.
  assert (H1 : get_args bcb_sizes w recovery_prog []
               = Some (recovery_prog, [lit "--wipe_data"], w1))
    by (vm_compute; reflexivity).
  assert (H2 : length (lit "boot-recovery") < command_size bcb_sizes)
    by (apply Nat.ltb_lt; vm_compute; reflexivity).
  assert (H3 : 0 < recovery_size bcb_sizes)
    by (apply Nat.ltb_lt; vm_compute; reflexivity).
  do 3 (split; [assumption|]).
  exact (get_args_commits bcb_sizes w recovery_prog [] recovery_prog
           [lit "--wipe_data"] w1 H1 H2 H3).
Defined.

(** The three sources at once, with and without invocation arguments. *)
Lemma get_args_precedence_witness :
  (exists w',
     get_args bcb_sizes busy_world recovery_prog
       [lit "--update_package=SDCARD:update.zip"]
     = Some (recovery_prog, [lit "--update_package=SDCARD:update.zip"], w') /\
     kept busy_world w') /\
  (exists w',
     get_args bcb_sizes busy_world recovery_prog []
     = Some (lit "recovery", [lit "--wipe_cache"], w')).
Proof.
  destruct (get_args_precedence bcb_sizes) as [P1 P2]. split.
  - apply P1. discriminate.
  - apply P2.
    + discriminate.
    + split; [reflexivity|]. exists (zeros 1001). vm_compute. reflexivity.
    + apply Nat.ltb_lt. vm_compute. reflexivity.
    + reflexivity.
    + apply Nat.ltb_lt. vm_compute. reflexivity.
Defined.



(** A factory reset whose data volume does not format. *)
Lemma run_command_wipe_witness :
  let o := Options None None true true in
  update_package o = None /\
  wipe_data o || wipe_cache o = true /\
  formatted (trace (snd (run_command o bad_data_world)))
  = [lit "DATA:"; lit "CACHE:"] /\
  fst (run_command o bad_data_world) = INSTALL_ERROR.
Proof.
  intros o.
  destruct (run_command_wipe o bad_data_world eq_refl eq_refl) as (T & S & E).
  split; [reflexivity|]. split; [reflexivity|]. split; [exact T|].
  apply E. intros Hs. apply S in Hs. destruct Hs as [Hd _].
  specialize (Hd eq_refl). vm_compute in Hd. discriminate Hd.
Defined.

(** Nothing asked for. *)
Lemma main_dispatch_nothing_to_do_witness :
  update_package no_options = None /\
  wipe_data no_options = false /\
  wipe_cache no_options = false /\
  run_command no_options (idle_world None) = (INSTALL_ERROR, idle_world None) /\
  fst (main_dispatch bcb_sizes no_options (idle_world None)) = INSTALL_ERROR /\
  exists rest,
    trace (snd (main_dispatch bcb_sizes no_options (idle_world None)))
    = trace (idle_world None)
        ++ [UiSetBackground BACKGROUND_ICON_ERROR; PromptAndWait]
        ++ rest ++ [Reboot].
Proof.
  do 3 (split; [reflexivity|]).
  exact (main_dispatch_nothing_to_do bcb_sizes no_options (idle_world None)
           eq_refl eq_refl eq_refl).
Defined.

(** A block of 0xFF bytes beside a command file. *)
Lemma get_args_absent_fields_witness :
  present (recovery (bcb erased_world)) = false /\
  resolved (get_args bcb_sizes erased_world recovery_prog [])
  = resolved (get_args bcb_sizes
                (set_bcb (zero_message bcb_sizes) erased_world)
                recovery_prog []) /\
  forall v, exists boot',
    boot_message_args bcb_sizes (bcb erased_world) recovery_prog [] v
    = (recovery_prog, [], boot', v).
Proof.
  destruct (get_args_absent_fields bcb_sizes erased_world recovery_prog [])
    as [R A].
  split; [reflexivity|]. split; [exact R | exact (A eq_refl)].
Defined.

(** C9 fails on a command file with an empty line: [strtok] finds no
    token in the second line and [get_args] hands its NULL to [strdup]. *)
Theorem get_args_blank_line :
  get_args bcb_sizes (idle_world (Some (lit "--wipe_data" ++ [LF; LF])))
           recovery_prog []
  = None.
Proof. vm_compute. reflexivity. Qed.



(** The bound of the round trip is exact: an argument of 1014 bytes,
    whose text is 1024 bytes long, comes back whole; one of 1015 bytes
    comes back a byte short. *)
Example get_args_round_trip_boundary :
  command_of (resolve_again bcb_sizes (idle_world None) (lit "recovery")
                [repeat "a"%char 1014])
  = Some [lit "recovery"; repeat "a"%char 1014] /\
  command_of (resolve_again bcb_sizes (idle_world None) (lit "recovery")
                [repeat "a"%char 1015])
  = Some [lit "recovery"; repeat "a"%char 1014].
Proof. split; vm_compute; reflexivity. Qed.

End RecoveryFacts.

(** ** More facts on the session engine *)

Module EngineFacts.
Import CStr Recovery CStrFacts RecoveryFacts.

Section Facts.

Variable sz : sizes.

(** *** Tokens *)

Lemma strtok_span_token d p t rest :
  strtok_span d p = (t, rest) ->
  forallb (fun c => negb (is_nul c) && negb (mem c d)) t = true.
Proof.
  revert t rest. induction p as [|c p IH]; intros t rest H; cbn [strtok_span] in H.
  - inversion H. reflexivity.
  - destruct (is_nul c || mem c d) eqn:E.
    + inversion H. reflexivity.
    + destruct (strtok_span d p) as [t' rest'] eqn:E'. inversion H; subst.
      cbn [forallb]. rewrite (IH _ _ eq_refl), andb_true_r.
      apply orb_false_iff in E. destruct E as [-> ->]. reflexivity.
Qed.

(** A token of [strtok] is not empty and holds neither NUL nor a
    delimiter. *)
Lemma strtok_token d st t st' :
  strtok d st = (Some t, st') ->
  t <> [] /\
  forallb (fun c => negb (is_nul c) && negb (mem c (cstr d))) t = true.
Proof.
  unfold strtok.
  destruct (strtok_skip (cstr d) (pending st)) as [sk p1].
  destruct (strtok_span (cstr d) p1) as [t' p2] eqn:E.
  apply strtok_span_token in E.
  destruct t' as [|x t']; [discriminate|].
  assert (Ht : forall s, (Some (x :: t'), s) = (Some t, st') -> x :: t' = t)
    by (intros s H; now inversion H).
  destruct p2 as [|c r]; [|destruct (is_nul c)]; intros H;
    apply Ht in H; subst t; (split; [discriminate | exact E]).
Qed.

Lemma token_plain t :
  t <> [] ->
  forallb (fun c => negb (is_nul c) && negb (mem c [LF])) t = true ->
  plain_arg t = true.
Proof.
  intros Hne H. destruct t as [|x t]; [contradiction|].
  unfold plain_arg. rewrite forallb_forall in *. intros c Hc.
  specialize (H c Hc). cbn [mem] in H. now rewrite orb_false_r in H.
Qed.

Lemma token_clean t :
  t <> [] ->
  forallb (fun c => negb (is_nul c) && negb (mem c [CR; LF])) t = true ->
  clean_line t = true.
Proof.
  intros Hne H. destruct t as [|x t]; [contradiction|]. exact H.
Qed.

Lemma clean_line_plain t : clean_line t = true -> plain_arg t = true.
Proof.
  destruct t as [|x t]; [discriminate|]. unfold clean_line, plain_arg.
  rewrite !forallb_forall. intros H c Hc. specialize (H c Hc).
  apply andb_true_iff in H. destruct H as [H1 H2]. rewrite H1.
  cbn [mem] in H2. apply negb_true_iff in H2.
  apply orb_false_iff in H2. destruct H2 as [_ H2].
  rewrite orb_false_r in H2. now rewrite H2.
Qed.

Lemma boot_args_tokens n : forall st l st',
  boot_args n st = (l, st') ->
  length l <= n /\ forallb plain_arg l = true.
Proof.
  induction n as [|n IH]; intros st l st' H; cbn [boot_args] in H.
  - inversion H. split; [apply Nat.le_refl | reflexivity].
  - destruct (strtok [LF] st) as [[t|] st1] eqn:E.
    + destruct (boot_args n st1) as [rest st2] eqn:E'. inversion H; subst.
      destruct (IH _ _ _ E') as [Hl Hp].
      destruct (strtok_token _ _ _ _ E) as [Hne Ht].
      change (cstr [LF]) with [LF] in Ht.
      split; [cbn [length]; lia|].
      cbn [forallb]. now rewrite (token_plain _ Hne Ht), Hp.
    + inversion H. split; [cbn; lia | reflexivity].
Qed.

Lemma line_token_clean line t :
  line_token line = Some t -> clean_line t = true.
Proof.
  unfold line_token.
  destruct (strtok [CR; LF] (TokState [] (line ++ [NUL]))) as [o st'] eqn:E.
  cbn [fst]. intros ->. destruct (strtok_token _ _ _ _ E) as [Hne Ht].
  exact (token_clean _ Hne Ht).
Qed.

Lemma file_args_tokens n : forall content l,
  file_args n content = Some l ->
  length l <= n /\ forallb clean_line l = true.
Proof.
  induction n as [|n IH]; intros content l H; cbn [file_args] in H.
  - inversion H. split; [apply Nat.le_refl | reflexivity].
  - destruct (fgets MAX_ARG_LENGTH content) as [[line unread]|].
    + destruct (line_token line) as [t|] eqn:Et; [|discriminate].
      destruct (file_args n unread) as [rest|] eqn:E'; [|discriminate].
      inversion H; subst. destruct (IH _ _ E') as [Hl Hp].
      split; [cbn [length]; lia|].
      cbn [forallb]. now rewrite (line_token_clean _ _ Et), Hp.
    + inversion H. split; [cbn; lia | reflexivity].
Qed.

Lemma forallb_clean_plain l :
  forallb clean_line l = true -> forallb plain_arg l = true.
Proof.
  rewrite !forallb_forall. intros H x Hx. apply clean_line_plain, H, Hx.
Qed.

(** *** What [get_args] resolves from the block and the command file *)

Lemma boot_message_args_tokens boot argv0 w a r boot' w' :
  boot_message_args sz boot argv0 [] w = (a, r, boot', w') ->
  length r < MAX_ARGS /\ forallb plain_arg r = true.
Proof.
  unfold boot_message_args. cbn [argc length Nat.leb].
  destruct (strtok [LF] _) as [arg st].
  assert (Hother : forall x b v,
            (x, @nil chars, b, v) = (a, r, boot', w') ->
            length r < MAX_ARGS /\ forallb plain_arg r = true).
  { intros x b v E. inversion E; subst. split; [cbn; unfold MAX_ARGS; lia | reflexivity]. }
  destruct arg as [t|]; [|apply Hother].
  destruct (streq t (lit "recovery")); [|apply Hother].
  destruct (boot_args (MAX_ARGS - 1) st) as [found st'] eqn:E.
  intros H; inversion H; subst.
  destruct (boot_args_tokens _ _ _ _ E) as [Hl Hp].
  split; [unfold MAX_ARGS in *; lia | exact Hp].
Qed.

Lemma command_file_args_tokens w r w' :
  command_file_args [] w = Some (r, w') ->
  length r < MAX_ARGS /\ forallb plain_arg r = true.
Proof.
  unfold command_file_args, root_path_ready. cbn [argc length Nat.leb].
  assert (Hnil : length (@nil chars) < MAX_ARGS /\ forallb plain_arg [] = true)
    by (split; [cbn; unfold MAX_ARGS; lia | reflexivity]).
  destruct (cache w); cbn beta iota zeta;
    try (intros H; inversion H; subst; exact Hnil).
  destruct (command_file w) as [content|];
    [|intros H; inversion H; subst; exact Hnil].
  destruct (file_args (MAX_ARGS - 1) content) as [found|] eqn:E; [|discriminate].
  intros H; inversion H; subst.
  destruct (file_args_tokens _ _ _ E) as [Hl Hp].
  split; [unfold MAX_ARGS in *; lia | apply forallb_clean_plain, Hp].
Qed.

Lemma get_args_stored_command_pre w argv0 a r w' :
  get_args sz w argv0 [] = Some (a, r, w') ->
  length r < MAX_ARGS /\ forallb plain_arg r = true.
Proof.
  intros H. apply get_args_steps in H.
  destruct H as (r1 & boot1 & w1 & w2 & H1 & H2 & _).
  apply boot_message_args_tokens in H1.
  destruct r1 as [|x r1].
  - exact (command_file_args_tokens _ _ _ H2).
  - unfold command_file_args in H2. rewrite argc_args in H2.
    inversion H2; subst. exact H1.
Qed.

(** Without invocation arguments, the [argv] that [get_args] returns has
    at most [MAX_ARGS] entries (the array it allocates holds them), and
    every argument after [argv[0]] is a non-empty string without newline:
    whatever the block and the command file hold. *)
Theorem get_args_stored_command w argv0 a r w' :
  get_args sz w argv0 [] = Some (a, r, w') ->
  argc r <= MAX_ARGS /\ forallb plain_arg r = true.
Proof.
  intros H. destruct (get_args_stored_command_pre _ _ _ _ _ H) as [Hl Hp].
  split; [unfold argc; lia | exact Hp].
Qed.

(** *** Reboots in mid-session *)

Lemma serialize_cut r :
  forallb plain_arg r = true ->
  length (serialize r) <= recovery_size sz ->
  exists tl,
    (tl = [] \/ tl = [LF]) /\
    firstn (recovery_size sz - 1) (serialize r)
    = joined (lit "recovery" :: r) ++ tl /\
    length (joined (lit "recovery" :: r) ++ tl) < recovery_size sz.
Proof.
  intros Hplain Hfit. rewrite (serialize_joined r Hplain) in *.
  rewrite length_app in Hfit. cbn [length] in Hfit.
  destruct (Nat.eq_dec (length (joined (lit "recovery" :: r)) + 1)
                       (recovery_size sz)) as [E|E].
  - exists []. split; [now left|]. rewrite app_nil_r. split; [|lia].
    replace (recovery_size sz - 1) with
      (length (joined (lit "recovery" :: r)) + 0) by lia.
    rewrite firstn_app_2. cbn. now rewrite app_nil_r.
  - exists [LF]. split; [now right|].
    rewrite firstn_all2 by (rewrite length_app; cbn [length]; lia).
    split; [reflexivity|]. rewrite length_app. cbn [length]. lia.
Qed.

(** One more call on a block that holds the text of [r]. *)
Lemma resume_step r v argv0 :
  forallb plain_arg r = true ->
  length r < MAX_ARGS ->
  length (serialize r) <= recovery_size sz ->
  holds (recovery (bcb v)) (firstn (recovery_size sz - 1) (serialize r)) ->
  (r = [] -> file_gives_nothing v) ->
  exists v2,
    get_args sz v argv0 [] = Some (lit "recovery", r, v2) /\
    holds (recovery (bcb v2)) (firstn (recovery_size sz - 1) (serialize r)) /\
    cache v2 = cache v /\ command_file v2 = command_file v.
Proof.
  intros Hplain Hcount Hfit Hrec Hfile.
  assert (Hsz : 0 < recovery_size sz).
  { unfold serialize in Hfit. rewrite length_app in Hfit. cbn in Hfit. lia. }
  destruct (serialize_cut r Hplain Hfit) as (tl & Htl & Ecut & Hlen).
  rewrite Ecut in Hrec.
  unfold get_args, get_bootloader_message.
  set (wl := log_boot_fields sz (bcb v) v).
  destruct (boot_message_args_joined sz _ r tl argv0 wl Hrec Htl Hlen Hplain Hcount)
    as (boot2 & E & _ & _).
  rewrite E.
  set (wb := LOGI (lit "Got arguments from boot message" ++ [LF]) wl).
  assert (K : kept v wb).
  { eapply kept_trans; [apply kept_log_boot_fields | apply kept_LOGI]. }
  assert (Hsecond : exists u, command_file_args r wb = Some (r, u) /\ kept wb u).
  { destruct r as [|x r'].
    - destruct K as (Kc & Kf & _).
      destruct (Hfile eq_refl wb Kc Kf) as [u Hu].
      exists u. split; [exact Hu | exact (kept_command_file_args _ _ _ _ Hu)].
    - unfold command_file_args. rewrite argc_args. eexists.
      split; [reflexivity | apply kept_refl]. }
  destruct Hsecond as (u & -> & Ku).
  eexists. split; [reflexivity|].
  split; [apply write_back_recovery; exact Hsz|].
  destruct (kept_trans _ _ _ K Ku) as (Kc & Kf & _).
  cbn [cache command_file set_bootloader_message set_bcb]. split; assumption.
Qed.

(** The scenarios of recovery.c "must be safely restartable at any
    point": once [get_args] has resolved arguments from the block or the
    command file, and their text (but for its last newline) fits the
    [recovery] field, every later start without invocation arguments,
    after any number of reboots, resolves ["recovery"] and the same
    arguments. *)
Theorem get_args_resumes w argv0 a r w1 :
  get_args sz w argv0 [] = Some (a, r, w1) ->
  length (serialize r) <= recovery_size sz ->
  forall n argv0',
    command_of (resume sz n w1 argv0') = Some (lit "recovery" :: r).
Proof.
  intros Hfirst Hfit n argv0'.
  destruct (get_args_stored_command_pre w argv0 a r w1 Hfirst) as [Hcount Hplain].
  assert (Hsz : 0 < recovery_size sz).
  { unfold serialize in Hfit. rewrite length_app in Hfit. cbn in Hfit. lia. }
  assert (Hinv :
    holds (recovery (bcb w1)) (firstn (recovery_size sz - 1) (serialize r)) /\
    (r = [] -> file_gives_nothing w1)).
  { pose proof (get_args_kept _ _ _ _ _ _ _ Hfirst) as Kfirst.
    apply get_args_steps in Hfirst.
    destruct Hfirst as (r1 & boot1 & wa & wb & Hboot & Hfile & ->).
    split; [apply write_back_recovery; exact Hsz|].
    intros -> v Hc Hf.
    assert (r1 = []) as ->.
    { destruct r1 as [|y r1']; [reflexivity|].
      unfold command_file_args in Hfile. rewrite argc_args in Hfile.
      inversion Hfile. }
    assert (K : kept wa (set_bootloader_message (write_back sz boot1 []) wb)).
    { eapply kept_trans; [exact (kept_command_file_args _ _ _ _ Hfile)|].
      apply kept_set_bcb. }
    destruct K as (Kc & Kf & _).
    apply (command_file_args_same _ _ _ _ v Hfile); congruence. }
  clear Hfirst. revert w1 Hinv.
  induction n as [|n IH]; intros w1 [Hrec Hfile]; cbn [resume].
  - destruct (resume_step r w1 argv0' Hplain Hcount Hfit Hrec Hfile)
      as (v2 & -> & _). reflexivity.
  - destruct (resume_step r w1 argv0' Hplain Hcount Hfit Hrec Hfile)
      as (v2 & -> & Hrec2 & Hc & Hf).
    apply IH. split; [exact Hrec2|].
    intros Hr v Ec Ef. apply (Hfile Hr v); congruence.
Qed.

(** *** The one way [get_args] does not return *)

Lemma file_args_none n : forall content,
  forallb has_token (file_lines n content) = false ->
  file_args n content = None.
Proof.
  induction n as [|n IH]; intros content H; cbn [file_args file_lines] in *;
    [discriminate|].
  destruct (fgets MAX_ARG_LENGTH content) as [[line unread]|]; [|discriminate].
  cbn [forallb] in H. unfold has_token in H at 1.
  destruct (line_token line) as [t|]; [|reflexivity].
  cbn [andb] in H. now rewrite (IH _ H).
Qed.

(** A call of [get_args] ends in the NULL dereference only when there are
    no invocation arguments, the cache volume mounts and a piece of the
    command file (among those read) has no token; and with a block that
    starts with 0x00 or 0xFF every such command file makes it do so. *)
Theorem get_args_fails_iff w argv0 :
  (forall args,
     get_args sz w argv0 args = None ->
     args = [] /\ cache w = Mounted /\
     exists content,
       command_file w = Some content /\
       forallb has_token (file_lines (MAX_ARGS - 1) content) = false) /\
  (present (recovery (bcb w)) = false ->
   cache w = Mounted ->
   forall content,
     command_file w = Some content ->
     forallb has_token (file_lines (MAX_ARGS - 1) content) = false ->
     get_args sz w argv0 [] = None).
Proof.
  split.
  - intros args. apply get_args_none.
  - intros Habs Hm content Hf Hno.
    unfold get_args, get_bootloader_message.
    destruct (boot_message_args_absent sz (bcb w) argv0 []
                (log_boot_fields sz (bcb w) w) Habs) as [boot' ->].
    destruct (kept_log_boot_fields sz (bcb w) w) as (Kc & Kf & _).
    unfold command_file_args, root_path_ready. cbn [argc length Nat.leb].
    rewrite Kc, Hm. cbn beta iota zeta. rewrite Kf, Hf.
    now rewrite (file_args_none _ _ Hno).
Qed.

(** *** The first byte of a buffer under [strtok] and the terminating
    store *)

Lemma present_store b i :
  1 <= i -> present (store b i NUL) = present b.
Proof.
  intros Hi. destruct b as [|c b]; [reflexivity|].
  destruct i as [|j]; [lia|]. reflexivity.
Qed.

Lemma first_byte_strtok d b :
  present (tok_buffer (snd (strtok d (TokState [] b)))) = present b.
Proof.
  unfold strtok, tok_buffer. cbn [pending scanned].
  destruct (strtok_skip (cstr d) b) as [sk p1] eqn:Es.
  destruct (strtok_span (cstr d) p1) as [t p2] eqn:Et.
  apply strtok_skip_parts in Es. apply strtok_span_parts in Et.
  subst b p1.
  destruct t as [|x t].
  - cbn [snd scanned pending app]. reflexivity.
  - destruct sk as [|s sk].
    + destruct p2 as [|c r]; [|destruct (is_nul c)];
        cbn [snd scanned pending app]; reflexivity.
    + destruct p2 as [|c r]; [|destruct (is_nul c)];
        cbn [snd scanned pending app]; reflexivity.
Qed.

(** *** Reading a command file of clean lines *)

(** Arithmetic with the bounds taken as they are named. *)
Ltac arith_max :=
  unfold chars, char in *; cbn [length] in *;
  generalize dependent MAX_ARG_LENGTH; intros; lia.

Lemma strtok_span_stop d a c r :
  forallb (fun c => negb (is_nul c) && negb (mem c d)) a = true ->
  is_nul c || mem c d = true ->
  strtok_span d (a ++ c :: r) = (a, c :: r).
Proof.
  intros Ha Hc. induction a as [|x a IH]; cbn [app strtok_span].
  - now rewrite Hc.
  - cbn [forallb] in Ha. apply andb_true_iff in Ha. destruct Ha as [Hx Ha].
    apply andb_true_iff in Hx. destruct Hx as [Hx1 Hx2].
    apply negb_true_iff in Hx1, Hx2. rewrite Hx1, Hx2. cbn [orb].
    now rewrite (IH Ha).
Qed.

(** [strtok(buf, "\r\n")] gives back a clean line, whatever follows its
    first CR, LF or NUL. *)
Lemma line_token_clean_line l c rest :
  clean_line l = true ->
  is_nul c || mem c [CR; LF] = true ->
  fst (strtok [CR; LF] (TokState [] (l ++ c :: rest))) = Some l.
Proof.
  intros Hl Hc. destruct l as [|x l]; [discriminate|].
  unfold clean_line in Hl. unfold strtok. cbn [pending scanned].
  change (cstr [CR; LF]) with [CR; LF].
  pose proof Hl as Hx. cbn [forallb] in Hx.
  apply andb_true_iff in Hx. destruct Hx as [Hx _].
  apply andb_true_iff in Hx. destruct Hx as [Hx1 Hx2].
  assert (Hskip : strtok_skip [CR; LF] ((x :: l) ++ c :: rest)
                  = ([], (x :: l) ++ c :: rest)).
  { cbn [app strtok_skip]. apply negb_true_iff in Hx2. now rewrite Hx2, andb_false_r. }
  rewrite Hskip, (strtok_span_stop _ _ _ _ Hl Hc).
  destruct (is_nul c); reflexivity.
Qed.

Lemma clean_line_no_lf l :
  clean_line l = true -> forallb (fun c => negb (Ascii.eqb c LF)) l = true.
Proof.
  destruct l as [|x l]; [discriminate|]. unfold clean_line.
  rewrite !forallb_forall. intros H c Hc. specialize (H c Hc).
  apply andb_true_iff in H. destruct H as [_ H].
  cbn [mem] in H. apply negb_true_iff in H.
  apply orb_false_iff in H. destruct H as [_ H].
  rewrite orb_false_r in H. now rewrite H.
Qed.

Lemma read_line_to_lf l : forall room rest,
  forallb (fun c => negb (Ascii.eqb c LF)) l = true ->
  length l < room ->
  read_line room (l ++ LF :: rest) = (l ++ [LF], rest).
Proof.
  induction l as [|x l IH]; intros room rest Hl Hroom.
  - destruct room as [|room]; [cbn in Hroom; lia|]. reflexivity.
  - destruct room as [|room]; [cbn in Hroom; lia|].
    cbn [forallb] in Hl. apply andb_true_iff in Hl. destruct Hl as [Hx Hl].
    apply negb_true_iff in Hx. cbn [app read_line]. rewrite Hx.
    rewrite (IH room rest Hl) by (cbn [length] in Hroom; lia). reflexivity.
Qed.

Lemma read_line_to_end l : forall room,
  forallb (fun c => negb (Ascii.eqb c LF)) l = true ->
  length l <= room ->
  read_line room l = (l, []).
Proof.
  induction l as [|x l IH]; intros room Hl Hroom.
  - destruct room; reflexivity.
  - destruct room as [|room]; [cbn in Hroom; lia|].
    cbn [forallb] in Hl. apply andb_true_iff in Hl. destruct Hl as [Hx Hl].
    apply negb_true_iff in Hx. cbn [read_line]. rewrite Hx.
    rewrite (IH room Hl) by (cbn [length] in Hroom; lia). reflexivity.
Qed.

(** One round of the loop on a clean line and its end. *)
Lemma fgets_clean_line l e rest :
  clean_line l = true ->
  length l + 2 < MAX_ARG_LENGTH ->
  exists line,
    fgets MAX_ARG_LENGTH ((l ++ eol_bytes e) ++ rest) = Some (line, rest) /\
    line_token line = Some l.
Proof.
  intros Hl Hlen. pose proof (clean_line_no_lf l Hl) as Hlf.
  assert (Hne : l <> []) by (destruct l; [discriminate | discriminate]).
  destruct e; cbn [eol_bytes].
  - exists (l ++ [LF]). split.
    + rewrite <- app_assoc. cbn [app]. unfold fgets.
      destruct l as [|x l]; [contradiction|]. cbn [app].
      change (x :: l ++ LF :: rest) with ((x :: l) ++ LF :: rest).
      rewrite read_line_to_lf; [reflexivity | exact Hlf | arith_max].
    + unfold line_token. rewrite <- app_assoc. cbn [app].
      now apply line_token_clean_line.
  - exists (l ++ [CR; LF]). split.
    + rewrite <- app_assoc. cbn [app]. unfold fgets.
      destruct l as [|x l]; [contradiction|]. cbn [app].
      replace (x :: l ++ CR :: LF :: rest) with (((x :: l) ++ [CR]) ++ LF :: rest)
        by (now rewrite <- app_assoc).
      rewrite read_line_to_lf.
      * now rewrite <- app_assoc.
      * rewrite forallb_app. apply andb_true_iff. split; [exact Hlf | reflexivity].
      * rewrite length_app. arith_max.
    + unfold line_token. rewrite <- app_assoc. cbn [app].
      now apply line_token_clean_line.
Qed.

Lemma file_args_command_text lines last : forall n,
  forallb (fun le => clean_line (fst le)) lines = true ->
  Forall (fun le => length (fst le) + 2 < MAX_ARG_LENGTH) lines ->
  last = [] \/ (clean_line last = true /\ length last < MAX_ARG_LENGTH) ->
  file_args n (command_text lines ++ last)
  = Some (firstn n (map fst lines
                      ++ match last with [] => [] | _ :: _ => [last] end)).
Proof.
  induction lines as [|[l e] lines IH]; intros n Hclean Hlen Hlast.
  - cbn [command_text flat_map map app].
    destruct n as [|n]; [reflexivity|].
    destruct Hlast as [-> | [Hl Hn]]; [reflexivity|].
    destruct last as [|x last]; [discriminate|].
    cbn [file_args fgets].
    rewrite read_line_to_end;
      [|apply clean_line_no_lf; exact Hl
       |arith_max].
    unfold line_token.
    rewrite (line_token_clean_line (x :: last) NUL [] Hl eq_refl).
    destruct n; reflexivity.
  - cbn [forallb fst] in Hclean. apply andb_true_iff in Hclean.
    destruct Hclean as [Hl Hclean]. inversion Hlen as [|? ? Hl2 Hlen']; subst.
    cbn [fst] in Hl2.
    destruct n as [|n]; [reflexivity|].
    cbn [command_text flat_map fst snd map app firstn file_args].
    rewrite <- app_assoc.
    destruct (fgets_clean_line l e (flat_map (fun le => fst le ++ eol_bytes (snd le)) lines ++ last) Hl Hl2)
      as (line & -> & ->).
    change (flat_map (fun le => fst le ++ eol_bytes (snd le)) lines)
      with (command_text lines).
    now rewrite (IH n Hclean Hlen' Hlast).
Qed.

(** A command file of clean lines, each ended by LF or CR LF and short
    enough for one [fgets] (a last line may lack its end), is resolved,
    when the block holds nothing, to [argv[0]] and the lines, in order
    and without their ends; of more than [MAX_ARGS - 1] lines the first
    [MAX_ARGS - 1] are taken and the others dropped without notice. *)
Theorem get_args_command_text w argv0 lines last :
  present (recovery (bcb w)) = false ->
  cache w = Mounted ->
  command_file w = Some (command_text lines ++ last) ->
  forallb (fun le => clean_line (fst le)) lines = true ->
  Forall (fun le => length (fst le) + 2 < MAX_ARG_LENGTH) lines ->
  last = [] \/ (clean_line last = true /\ length last < MAX_ARG_LENGTH) ->
  exists w',
    get_args sz w argv0 [] =
    Some (argv0,
          firstn (MAX_ARGS - 1)
                 (map fst lines ++ match last with [] => [] | _ :: _ => [last] end),
          w') /\
    forall e, In e (trace w') -> In e (trace w) \/ exists text, e = Log LOG_I text.
Proof.
  intros Habs Hm Hf Hclean Hlen Hlast.
  unfold get_args, get_bootloader_message.
  destruct (boot_message_args_absent sz (bcb w) argv0 []
              (log_boot_fields sz (bcb w) w) Habs) as [boot' ->].
  destruct (kept_log_boot_fields sz (bcb w) w) as (Kc & Kf & _).
  unfold command_file_args, root_path_ready. cbn [argc length Nat.leb].
  rewrite Kc, Hm. cbn beta iota zeta. rewrite Kf, Hf.
  rewrite (file_args_command_text lines last (MAX_ARGS - 1) Hclean Hlen Hlast).
  eexists. split; [reflexivity|].
  cbn [trace set_bootloader_message set_bcb LOGI emit].
  intros e He. apply in_app_or in He. destruct He as [He|[<-|[]]]; [|eauto].
  unfold log_boot_fields in He.
  destruct (present (command (bcb w))), (present (status (bcb w)));
    cbn [trace LOGI emit] in He;
    repeat (apply in_app_or in He; destruct He as [He|[<-|[]]]); eauto.
Qed.

(** *** A block that does not start with the line ["recovery"] *)

Lemma command_file_args_fst args w v :
  cache v = cache w -> command_file v = command_file w ->
  option_map fst (command_file_args args v)
  = option_map fst (command_file_args args w).
Proof.
  intros Hc Hf. unfold command_file_args, root_path_ready.
  destruct (argc args <=? 1); [|reflexivity].
  rewrite Hc. destruct (cache w); cbn beta iota zeta; try reflexivity.
  rewrite Hf. destruct (command_file w) as [content|]; [|reflexivity].
  destruct (file_args (MAX_ARGS - 1) content); reflexivity.
Qed.

(** What [get_args] resolves, from what the block step gave. *)
Lemma command_of_get_args w argv0 args a r boot' w1 :
  boot_message_args sz (bcb w) argv0 args (log_boot_fields sz (bcb w) w)
  = (a, r, boot', w1) ->
  command_of (get_args sz w argv0 args)
  = option_map (fun x => a :: fst x) (command_file_args r w1).
Proof.
  intros E. unfold get_args, get_bootloader_message. rewrite E.
  destruct (command_file_args r w1) as [[r2 w2]|]; reflexivity.
Qed.

Lemma option_map_fst_cons (a : chars) (x y : option (list chars * world)) :
  option_map fst x = option_map fst y ->
  option_map (fun p => a :: fst p) x = option_map (fun p => a :: fst p) y.
Proof.
  destruct x as [[? ?]|], y as [[? ?]|]; cbn; intros H; inversion H; reflexivity.
Qed.

(** The step over a block whose first line is not ["recovery"]. *)
Lemma boot_message_args_invalid boot argv0 args w :
  block_valid sz boot = false ->
  exists boot' w',
    boot_message_args sz boot argv0 args w = (argv0, args, boot', w') /\
    cache w' = cache w /\ command_file w' = command_file w /\
    (args = [] -> present (recovery boot') = true ->
     exists shown,
       length shown <= 20 /\
       w' = LOGE (lit "Bad boot message" ++ [LF; DQUOTE] ++ shown
                    ++ [DQUOTE; LF]) w).
Proof.
  unfold block_valid, boot_message_args. intros Hv.
  destruct (argc args <=? 1) eqn:Ea.
  - destruct (strtok [LF] _) as [arg st]. cbn [fst] in Hv.
    assert (Hother :
      exists boot' w',
        (argv0, args, BootMsg (command boot) (status boot) (tok_buffer st),
         if present (tok_buffer st)
         then LOGE (lit "Bad boot message" ++ [LF; DQUOTE]
                      ++ cstr (firstn 20 (tok_buffer st)) ++ [DQUOTE; LF]) w
         else w)
        = (argv0, args, boot', w') /\
        cache w' = cache w /\ command_file w' = command_file w /\
        (args = [] -> present (recovery boot') = true ->
         exists shown,
           length shown <= 20 /\
           w' = LOGE (lit "Bad boot message" ++ [LF; DQUOTE] ++ shown
                        ++ [DQUOTE; LF]) w)).
    { do 2 eexists. split; [reflexivity|].
      cbn [recovery]. destruct (present (tok_buffer st)) eqn:P.
      - split; [reflexivity|]. split; [reflexivity|]. intros _ _.
        exists (cstr (firstn 20 (tok_buffer st))). split; [|reflexivity].
        pose proof (length_cstr_le (firstn 20 (tok_buffer st))) as L.
        rewrite length_firstn in L. lia.
      - split; [reflexivity|]. split; [reflexivity|]. intros _ H. discriminate. }
    destruct arg as [t|]; [|exact Hother]. rewrite Hv. exact Hother.
  - do 2 eexists. split; [reflexivity|]. split; [reflexivity|].
    split; [reflexivity|]. intros -> _. discriminate.
Qed.

(** A block whose first line is not ["recovery"] counts for nothing:
    [get_args] resolves the [argv] it would resolve with an all-zero
    block, be it from the command file; and if that block starts with a
    byte other than 0x00 and 0xFF, the call without invocation arguments
    logs the error "Bad boot message" with at most 20 bytes of it. *)
Theorem get_args_bad_block w argv0 args :
  block_valid sz (bcb w) = false ->
  command_of (get_args sz w argv0 args)
  = command_of (get_args sz (set_bcb (zero_message sz) w) argv0 args) /\
  (args = [] -> 1 < recovery_size sz -> present (recovery (bcb w)) = true ->
   forall a r w',
     get_args sz w argv0 [] = Some (a, r, w') ->
     exists shown,
       length shown <= 20 /\
       In (Log LOG_E (lit "Bad boot message" ++ [LF; DQUOTE] ++ shown
                        ++ [DQUOTE; LF]))
          (trace w')).
Proof.
  intros Hv.
  destruct (boot_message_args_invalid (bcb w) argv0 args
              (log_boot_fields sz (bcb w) w) Hv)
    as (boot1 & w1 & E1 & Hc1 & Hf1 & Hlog).
  split.
  - rewrite (command_of_get_args _ _ _ _ _ _ _ E1).
    set (v := set_bcb (zero_message sz) w).
    assert (Pz : present (recovery (bcb v)) = false)
      by (cbn [v bcb set_bcb zero_message recovery]; apply present_zeros).
    destruct (boot_message_args_absent sz (bcb v) argv0 args
                (log_boot_fields sz (bcb v) v) Pz) as [boot2 E2].
    rewrite (command_of_get_args _ _ _ _ _ _ _ E2).
    apply option_map_fst_cons, eq_sym, command_file_args_fst.
    + destruct (kept_log_boot_fields sz (bcb v) v) as (K & _).
      destruct (kept_log_boot_fields sz (bcb w) w) as (K' & _).
      rewrite K, Hc1, K'. reflexivity.
    + destruct (kept_log_boot_fields sz (bcb v) v) as (_ & K & _).
      destruct (kept_log_boot_fields sz (bcb w) w) as (_ & K' & _).
      rewrite K, Hf1, K'. reflexivity.
  - intros -> Hsz Hp a r w' H.
    apply get_args_steps in H.
    destruct H as (r1 & boot1' & w1' & w2 & H1 & H2 & ->).
    rewrite E1 in H1. inversion H1; subst a r1 boot1' w1'. clear H1.
    assert (Hp1 : present (recovery boot1) = true).
    { clear - E1 Hsz Hp Hv. unfold boot_message_args in E1.
      unfold block_valid in Hv.
      cbn [argc length Nat.leb] in E1.
      pose proof (first_byte_strtok [LF]
                    (store (recovery (bcb w)) (recovery_size sz - 1) NUL)) as Hb.
      destruct (strtok [LF] _) as [arg st]. cbn [snd] in Hb. cbn [fst] in Hv.
      assert (Ps : present (tok_buffer st) = present (recovery (bcb w))).
      { rewrite Hb. apply present_store. lia. }
      destruct arg as [t|]; [rewrite Hv in E1|];
        inversion E1; subst; cbn [recovery]; congruence. }
    destruct (Hlog eq_refl Hp1) as (shown & Hlen & ->).
    exists shown. split; [exact Hlen|].
    destruct (kept_command_file_args _ _ _ _ H2) as (_ & _ & _ & _ & _ & _ & _ & _ & more & T & _).
    cbn [trace set_bootloader_message set_bcb]. rewrite T.
    apply in_or_app. left. cbn [trace LOGE emit]. apply in_or_app. right.
    left. reflexivity.
Qed.

(** *** What [finish_recovery] copies *)

Lemma no_nul_split a b : no_nul (a ++ b) = true -> no_nul a = true /\ no_nul b = true.
Proof. rewrite no_nul_app. apply andb_true_iff. Qed.

(** The copy loop copies a log without NUL byte as it is. *)
Lemma copy_log_all n : forall s,
  length s <= n -> no_nul s = true -> copy_log n s = s.
Proof.
  induction n as [|n IH]; intros s Hn Hs.
  - destruct s; [reflexivity | cbn in Hn; lia].
  - destruct s as [|c s]; [reflexivity|].
    cbn [copy_log fgets]. change (4096 - 1) with (S 4094).
    destruct (read_line (S 4094) (c :: s)) as [l rest] eqn:E.
    pose proof (read_line_progress _ _ _ _ _ E) as Hp.
    apply read_line_parts in E. destruct E as [E _].
    rewrite E in Hs. apply no_nul_split in Hs. destruct Hs as [Hl Hr].
    rewrite (cstr_id _ Hl), (IH rest); [now rewrite E | cbn [length] in Hn; lia | exact Hr].
Qed.

(** With the cache volume mounted and a temporary log without NUL byte
    after the offset, [finish_recovery] appends to the log file exactly
    the bytes of the temporary log from the offset on, no more and no
    less, and moves the offset to the end of the temporary log (it stays
    where it is when it was past the end). *)
Theorem finish_recovery_copies_log intent w tmp :
  cache w = Mounted ->
  tmp_log w = Some tmp ->
  no_nul (skipn (tmplog_offset w) tmp) = true ->
  log_file (finish_recovery sz intent w)
  = Some (log_text w ++ skipn (tmplog_offset w) tmp) /\
  tmplog_offset (finish_recovery sz intent w)
  = Nat.max (tmplog_offset w) (length tmp).
Proof.
  intros Hm Ht Hn.
  destruct (finish_recovery_fields sz intent w) as (_ & _ & _ & _ & _ & L & O).
  cbn zeta in *. rewrite L, O, Hm, Ht.
  rewrite (copy_log_all _ _ (Nat.le_refl _) Hn).
  split; [reflexivity|]. rewrite length_skipn. lia.
Qed.



(** *** The option loop and the dispatch of [main] *)

Ltac trace_tail :=
  eexists; split;
  [ rewrite <- ?app_assoc; cbn [app]; reflexivity | reflexivity ].

(** [finish_recovery] logs and syncs, and does nothing else that shows. *)
Lemma finish_recovery_passive intent w :
  exists more,
    trace (finish_recovery sz intent w) = trace w ++ more /\
    forallb (fun e => quiet_event e && harmless_event e) more = true.
Proof.
  destruct w as [b c cf i l t o fr ir tr].
  unfold finish_recovery, unlink_command_file, copy_logs, write_intent,
    root_path_ready.
  destruct c, intent, t; world_simpl; trace_tail.
Qed.

Lemma forallb_and {A} (f g : A -> bool) l :
  forallb (fun x => f x && g x) l = forallb f l && forallb g l.
Proof.
  induction l as [|x l IH]; [reflexivity|]. cbn [forallb]. rewrite IH.
  destruct (f x), (g x), (forallb f l), (forallb g l); reflexivity.
Qed.

Lemma formatted_harmless more :
  forallb harmless_event more = true -> formatted more = [].
Proof.
  induction more as [|e more IH]; [reflexivity|].
  cbn [forallb]. intros H. apply andb_true_iff in H. destruct H as [He Hm].
  unfold formatted in *. cbn [flat_map]. rewrite (IH Hm).
  destruct e; try reflexivity; discriminate He.
Qed.

Lemma installed_harmless more :
  forallb harmless_event more = true -> installed more = [].
Proof.
  induction more as [|e more IH]; [reflexivity|].
  cbn [forallb]. intros H. apply andb_true_iff in H. destruct H as [He Hm].
  unfold installed in *. cbn [flat_map]. rewrite (IH Hm).
  destruct e; try reflexivity; discriminate He.
Qed.

Lemma installed_app tr1 tr2 : installed (tr1 ++ tr2) = installed tr1 ++ installed tr2.
Proof. unfold installed. apply flat_map_app. Qed.

(** The command dispatch neither sets the error background, nor prompts,
    nor reboots. *)
Lemma run_command_quiet o w :
  exists work,
    trace (snd (run_command o w)) = trace w ++ work /\
    forallb quiet_event work = true.
Proof.
  unfold run_command, install_package, erase_root, format_root_device.
  destruct (update_package o) as [p|].
  - destruct (install_result w p); cbn [is_success snd]; world_simpl; trace_tail.
  - destruct (wipe_data o), (wipe_cache o); cbn [orb];
      world_simpl; try (exists []; now rewrite app_nil_r);
      repeat match goal with
             | |- context [(?r =? 0)%Z] => destruct (r =? 0)%Z
             end;
      cbn [is_success snd]; world_simpl; trace_tail.
Qed.

(** The trace of [main] after a command that succeeded: there is no
    prompt, and what follows is [finish_recovery] and the reboot. *)
Lemma main_dispatch_success_trace o w :
  is_success (fst (run_command o w)) = true ->
  exists rest,
    trace (snd (main_dispatch sz o w))
    = trace (snd (run_command o w)) ++ rest ++ [Reboot] /\
    forallb (fun e => quiet_event e && harmless_event e) rest = true.
Proof.
  unfold main_dispatch.
  destruct (run_command o w) as [st w0]. cbn [fst snd] in *.
  intros ->.
  destruct (finish_recovery_passive (send_intent o) w0) as (m & Tm & Qm).
  exists (m ++ [Sync; UiPrint (lit "Rebooting..." ++ [LF]); Sync]).
  split.
  - world_simpl. rewrite Tm, <- !app_assoc. reflexivity.
  - rewrite !forallb_app, Qm. reflexivity.
Qed.

(** The trace of [main] after a command that did not succeed, up to the
    prompt; [rest] is what came between the entry into the prompt and
    the reboot. *)
Lemma main_dispatch_failure_trace o w :
  is_success (fst (run_command o w)) = false ->
  exists rest,
    trace (snd (main_dispatch sz o w))
    = trace (snd (run_command o w))
        ++ [UiSetBackground BACKGROUND_ICON_ERROR; PromptAndWait]
        ++ rest ++ [Reboot].
Proof.
  unfold main_dispatch.
  destruct (run_command o w) as [st w0]. cbn [fst snd] in *.
  intros ->. unfold prompt_and_wait.
  set (w1 := emit PromptAndWait (emit (UiSetBackground BACKGROUND_ICON_ERROR) w0)).
  destruct (finish_recovery_trace sz None w1) as (m1 & T1).
  destruct (finish_recovery_trace sz (send_intent o) (finish_recovery sz None w1))
    as (m2 & T2).
  exists (m1 ++ m2 ++ [Sync; UiPrint (lit "Rebooting..." ++ [LF]); Sync]).
  world_simpl. rewrite T2, T1. unfold w1. world_simpl.
  rewrite <- !app_assoc. reflexivity.
Qed.

Lemma main_dispatch_status o w :
  fst (main_dispatch sz o w) = fst (run_command o w).
Proof. unfold main_dispatch. now destruct (run_command o w). Qed.

Lemma main_dispatch_bcb o w :
  bcb (snd (main_dispatch sz o w)) = zero_message sz.
Proof.
  unfold main_dispatch. destruct (run_command o w) as [st w0].
  cbn [snd]. world_simpl. apply finish_recovery_bcb.
Qed.

(** What [main] does after the command, whatever the command was.  The
    status is the one of the command, and the command itself neither
    sets the error background, nor prompts, nor reboots.  After a
    command that succeeded there is no error background and no prompt:
    [finish_recovery] and the reboot follow, the reboot last and once.
    After any other command the error background and the entry into
    [prompt_and_wait] follow at once, and the reboot comes last, after
    the prompt has returned; of what the operator does in the prompt
    nothing is said.  The block is all zero when [main] reboots. *)
Theorem main_dispatch_outcome o w :
  fst (main_dispatch sz o w) = fst (run_command o w) /\
  bcb (snd (main_dispatch sz o w)) = zero_message sz /\
  exists work,
    trace (snd (run_command o w)) = trace w ++ work /\
    forallb quiet_event work = true /\
    (is_success (fst (run_command o w)) = true ->
     exists rest,
       trace (snd (main_dispatch sz o w))
       = trace w ++ work ++ rest ++ [Reboot] /\
       forallb quiet_event rest = true) /\
    (is_success (fst (run_command o w)) = false ->
     exists rest,
       trace (snd (main_dispatch sz o w))
       = trace w ++ work
           ++ [UiSetBackground BACKGROUND_ICON_ERROR; PromptAndWait]
           ++ rest ++ [Reboot]).
Proof.
  split; [apply main_dispatch_status|]. split; [apply main_dispatch_bcb|].
  destruct (run_command_quiet o w) as (work & Tw & Qw).
  exists work. split; [exact Tw|]. split; [exact Qw|]. split.
  - intros Hs.
    destruct (main_dispatch_success_trace o w Hs) as (rest & T & Q).
    rewrite forallb_and in Q. apply andb_true_iff in Q. destruct Q as [Q _].
    exists rest. split; [|exact Q].
    rewrite T, Tw, <- !app_assoc. reflexivity.
  - intros Hs.
    destruct (main_dispatch_failure_trace o w Hs) as (rest & T).
    exists rest. rewrite T, Tw, <- !app_assoc. reflexivity.
Qed.

Lemma harmless_tail rest :
  forallb (fun e => quiet_event e && harmless_event e) rest = true ->
  forallb harmless_event (rest ++ [Reboot]) = true.
Proof.
  intros Q. rewrite forallb_and in Q. apply andb_true_iff in Q.
  destruct Q as [_ Q]. now rewrite forallb_app, Q.
Qed.

(** A package to install takes the place of every wipe: with
    [update_package] set, the command of [main] is one call of
    [install_package] on it and no call of [format_root_device],
    whatever the wipe flags say, and the status is what the installation
    gave.  When that is [INSTALL_SUCCESS], [main] goes on to the reboot
    without a prompt, and the one installation is all that [main] has
    installed or formatted. *)
Theorem main_dispatch_install o w p :
  update_package o = Some p ->
  fst (main_dispatch sz o w) = install_result w p /\
  installed (trace (snd (run_command o w))) = installed (trace w) ++ [p] /\
  formatted (trace (snd (run_command o w))) = formatted (trace w) /\
  (install_result w p = INSTALL_SUCCESS ->
   installed (trace (snd (main_dispatch sz o w)))
   = installed (trace w) ++ [p] /\
   formatted (trace (snd (main_dispatch sz o w))) = formatted (trace w) /\
   ~ In PromptAndWait (skipn (length (trace w))
                             (trace (snd (main_dispatch sz o w))))).
Proof.
  intros Hp.
  assert (R : exists more,
    fst (run_command o w) = install_result w p /\
    trace (snd (run_command o w)) = trace w ++ InstallPackage p :: more /\
    forallb harmless_event more = true /\
    forallb quiet_event (InstallPackage p :: more) = true).
  { unfold run_command, install_package. rewrite Hp.
    destruct (install_result w p); cbn [is_success fst snd]; world_simpl;
      eexists; (split; [reflexivity|]);
      (split; [rewrite <- ?app_assoc; cbn [app]; reflexivity
              | split; reflexivity]). }
  destruct R as (more & R & Tr & Hm & Hq).
  assert (Ic : installed (trace (snd (run_command o w)))
               = installed (trace w) ++ [p]).
  { rewrite Tr, installed_app.
    change (installed (InstallPackage p :: more)) with (p :: installed more).
    now rewrite (installed_harmless _ Hm). }
  assert (Fc : formatted (trace (snd (run_command o w)))
               = formatted (trace w)).
  { rewrite Tr, formatted_app.
    change (formatted (InstallPackage p :: more)) with (formatted more).
    now rewrite (formatted_harmless _ Hm), app_nil_r. }
  split; [now rewrite main_dispatch_status|].
  split; [exact Ic|]. split; [exact Fc|].
  intros Hs.
  assert (Hs' : is_success (fst (run_command o w)) = true)
    by now rewrite R, Hs.
  destruct (main_dispatch_success_trace o w Hs') as (rest & T & Q).
  pose proof (harmless_tail rest Q) as Qh.
  rewrite T. split; [|split].
  - now rewrite installed_app, (installed_harmless _ Qh), app_nil_r.
  - now rewrite formatted_app, (formatted_harmless _ Qh), app_nil_r.
  - rewrite Tr, <- app_assoc, skipn_app, skipn_all, Nat.sub_diag.
    cbn [skipn app].
    rewrite forallb_and in Q. apply andb_true_iff in Q. destruct Q as [Q _].
    intros Hin.
    change (InstallPackage p :: more ++ rest ++ [Reboot])
      with ((InstallPackage p :: more) ++ rest ++ [Reboot]) in Hin.
    apply in_app_or in Hin. destruct Hin as [Hin|Hin].
    + pose proof (proj1 (forallb_forall _ _) Hq _ Hin) as X. discriminate X.
    + apply in_app_or in Hin. destruct Hin as [Hin|[Hin|[]]];
        [|discriminate Hin].
      pose proof (proj1 (forallb_forall _ _) Q _ Hin) as X. discriminate X.
Qed.

(** *** The option loop *)

Lemma parse_options_fold returned : forall o w,
  let o' := fst (parse_options returned o w) in
  let w' := snd (parse_options returned o w) in
  wipe_data o' = wipe_data o || given "w"%char returned /\
  wipe_cache o' = wipe_cache o || given "w"%char returned || given "c"%char returned /\
  update_package o' = last_optarg "u"%char returned (update_package o) /\
  send_intent o' = last_optarg "s"%char returned (send_intent o) /\
  trace w' = trace w
    ++ map (fun _ => invalid_argument)
           (filter (fun p => Ascii.eqb (fst p) "?") returned) /\
  bcb w' = bcb w /\ cache w' = cache w /\ command_file w' = command_file w /\
  intent_file w' = intent_file w /\ log_file w' = log_file w /\
  tmplog_offset w' = tmplog_offset w /\
  format_result w' = format_result w /\ install_result w' = install_result w.
Proof.
  induction returned as [|[arg optarg] rest IH]; intros o w.
  - cbn. rewrite !orb_false_r, app_nil_r. repeat split.
  - cbn [parse_options].
    destruct (option_case arg optarg o w) as [o1 w1] eqn:E.
    specialize (IH o1 w1). cbn zeta in *.
    destruct IH as (D & C & U & S & T & K).
    rewrite D, C, U, S, T.
    unfold given, last_optarg. cbn [existsb fold_left filter fst snd].
    unfold option_case in E.
    destruct (Ascii.eqb arg "s") eqn:Es.
    { apply Ascii.eqb_eq in Es. subst arg. inversion E; subst o1 w1.
      cbn. rewrite ?app_nil_r. repeat split; apply K. }
    destruct (Ascii.eqb arg "u") eqn:Eu.
    { apply Ascii.eqb_eq in Eu. subst arg. inversion E; subst o1 w1.
      cbn. rewrite ?app_nil_r. repeat split; apply K. }
    destruct (Ascii.eqb arg "w") eqn:Ew.
    { apply Ascii.eqb_eq in Ew. subst arg. inversion E; subst o1 w1.
      cbn. rewrite ?app_nil_r, ?orb_true_r. repeat split; apply K. }
    destruct (Ascii.eqb arg "c") eqn:Ec.
    { apply Ascii.eqb_eq in Ec. subst arg. inversion E; subst o1 w1.
      cbn. rewrite ?app_nil_r, ?orb_true_r.
      repeat split; apply K. }
    destruct (Ascii.eqb arg "?") eqn:Eq.
    { inversion E; subst o1 w1. world_simpl.
      cbn [map]. rewrite <- app_assoc. repeat split; apply K. }
    inversion E; subst o1 w1. repeat split; apply K.
Qed.

(** The option loop, summed up: the wipe flags say whether [--wipe_data]
    and [--wipe_cache] were given, in any order and any number of times,
    and [--wipe_data] sets both; of several [--update_package] or
    [--send_intent] the last one counts; every option the loop does not
    know is logged as an error, and nothing else of the world changes. *)
Theorem parse_options_summary returned w :
  let o := fst (parse_options returned no_options w) in
  let w' := snd (parse_options returned no_options w) in
  wipe_data o = given "w"%char returned /\
  wipe_cache o = given "w"%char returned || given "c"%char returned /\
  (wipe_data o = true -> wipe_cache o = true) /\
  update_package o = last_optarg "u"%char returned None /\
  send_intent o = last_optarg "s"%char returned None /\
  trace w' = trace w
    ++ map (fun _ => invalid_argument)
           (filter (fun p => Ascii.eqb (fst p) "?") returned) /\
  observable w' = observable w /\ cache w' = cache w.
Proof.
  destruct (parse_options_fold returned no_options w)
    as (D & C & U & S & T & B & Ca & Cf & I & L & O & _).
  cbn zeta in *. cbn [wipe_data wipe_cache update_package send_intent
                      no_options orb] in *.
  split; [exact D|]. split; [exact C|]. split.
  { rewrite D, C. intros ->. reflexivity. }
  do 3 (split; [assumption|]). split; [|exact Ca].
  unfold observable. congruence.
Qed.




(** A call of [get_args] that returns leaves the files of the cache
    volume and the offset into the temporary log as they were and logs
    no warning; and the block it wrote has the layout of the block it
    read. *)
Theorem get_args_frame w argv0 args a r w' :
  get_args sz w argv0 args = Some (a, r, w') ->
  wf_message sz (bcb w) ->
  untouched w w' /\ wf_message sz (bcb w').
Proof.
  intros H Hwf. split.
  - destruct (get_args_kept sz _ _ _ _ _ _ H)
      as (C & F & I & L & _ & O & _ & _ & T).
    unfold untouched. auto 10.
  - exact (get_args_wf sz _ _ _ _ _ _ H Hwf).
Qed.

End Facts.

(** *** The facts at work *)

(** The hand-edited command file, resolved. *)
Lemma get_args_stored_command_witness :
  let r := [lit "--wipe_data"; lit "--send_intent=done"; lit "--wipe_cache"] in
  let w' := after_get_args bcb_sizes edited_world recovery_prog [] in
  get_args bcb_sizes edited_world recovery_prog [] = Some (recovery_prog, r, w') /\
  argc r <= MAX_ARGS /\ forallb plain_arg r = true.
Proof.
  intros r w'.
  assert (H : get_args bcb_sizes edited_world recovery_prog []
              = Some (recovery_prog, r, w')) by (vm_compute; reflexivity).
  split; [exact H|].
  exact (get_args_stored_command bcb_sizes _ _ _ _ _ H).
Defined.

(** Two reboots after the command file was read. *)
Lemma get_args_resumes_witness :
  let r := [lit "--wipe_data"; lit "--send_intent=done"; lit "--wipe_cache"] in
  let w1 := after_get_args bcb_sizes edited_world recovery_prog [] in
  get_args bcb_sizes edited_world recovery_prog [] = Some (recovery_prog, r, w1) /\
  length (serialize r) <= recovery_size bcb_sizes /\
  command_of (resume bcb_sizes 2 w1 recovery_prog) = Some (lit "recovery" :: r).
Proof.
  intros r w1.
  assert (H : get_args bcb_sizes edited_world recovery_prog []
              = Some (recovery_prog, r, w1)) by (vm_compute; reflexivity).
  assert (L : length (serialize r) <= recovery_size bcb_sizes)
    by (apply Nat.leb_le; vm_compute; reflexivity).
  split; [exact H|]. split; [exact L|].
  exact (get_args_resumes bcb_sizes _ _ _ _ _ H L 2 recovery_prog).
Defined.

(** A command file whose second line is empty. *)
Lemma get_args_fails_iff_witness :
  let content := lit "--wipe_data" ++ [LF; LF] in
  let w := idle_world (Some content) in
  present (recovery (bcb w)) = false /\
  cache w = Mounted /\
  command_file w = Some content /\
  forallb has_token (file_lines (MAX_ARGS - 1) content) = false /\
  get_args bcb_sizes w recovery_prog [] = None.
Proof.
  intros content w.
  assert (H : forallb has_token (file_lines (MAX_ARGS - 1) content) = false)
    by (vm_compute; reflexivity).
  do 3 (split; [reflexivity|]). split; [exact H|].
  exact (proj2 (get_args_fails_iff bcb_sizes w recovery_prog)
               eq_refl eq_refl content eq_refl H).
Defined.

(** The hand-edited command file, line by line. *)
Lemma get_args_command_text_witness :
  let lines := [(lit "--wipe_data", EOL_CRLF);
                (lit "--send_intent=done", EOL_LF)] in
  let last := lit "--wipe_cache" in
  present (recovery (bcb edited_world)) = false /\
  cache edited_world = Mounted /\
  command_file edited_world = Some (command_text lines ++ last) /\
  forallb (fun le => clean_line (fst le)) lines = true /\
  Forall (fun le => length (fst le) + 2 < MAX_ARG_LENGTH) lines /\
  (clean_line last = true /\ length last < MAX_ARG_LENGTH) /\
  exists w',
    get_args bcb_sizes edited_world recovery_prog [] =
    Some (recovery_prog,
          [lit "--wipe_data"; lit "--send_intent=done"; lit "--wipe_cache"],
          w') /\
    forall e, In e (trace w') ->
              In e (trace edited_world) \/ exists text, e = Log LOG_I text.
Proof.
  intros lines last.
  assert (F : Forall (fun le : chars * eol =>
                        length (fst le) + 2 < MAX_ARG_LENGTH) lines).
  { repeat constructor; apply Nat.ltb_lt; vm_compute; reflexivity. }
  assert (L : clean_line last = true /\ length last < MAX_ARG_LENGTH).
  { split; [reflexivity | apply Nat.ltb_lt; vm_compute; reflexivity]. }
  do 4 (split; [reflexivity|]). split; [exact F|]. split; [exact L|].
  exact (get_args_command_text bcb_sizes edited_world recovery_prog lines last
           eq_refl eq_refl eq_refl eq_refl F (or_intror L)).
Defined.

(** The block of another program beside a command file. *)
Lemma get_args_bad_block_witness :
  block_valid bcb_sizes (bcb stale_world) = false /\
  1 < recovery_size bcb_sizes /\
  present (recovery (bcb stale_world)) = true /\
  command_of (get_args bcb_sizes stale_world recovery_prog [])
  = Some [recovery_prog; lit "--wipe_cache"] /\
  exists w' shown,
    get_args bcb_sizes stale_world recovery_prog []
    = Some (recovery_prog, [lit "--wipe_cache"], w') /\
    length shown <= 20 /\
    In (Log LOG_E (lit "Bad boot message" ++ [LF; DQUOTE] ++ shown
                     ++ [DQUOTE; LF]))
       (trace w').
Proof.
  assert (S : 1 < recovery_size bcb_sizes)
    by (apply Nat.ltb_lt; vm_compute; reflexivity).
  destruct (get_args_bad_block bcb_sizes stale_world recovery_prog [] eq_refl)
    as [C B].
  split; [reflexivity|]. split; [exact S|]. split; [reflexivity|]. split.
  - rewrite C. vm_compute. reflexivity.
  - set (w' := after_get_args bcb_sizes stale_world recovery_prog []).
    assert (H : get_args bcb_sizes stale_world recovery_prog []
                = Some (recovery_prog, [lit "--wipe_cache"], w'))
      by (vm_compute; reflexivity).
    destruct (B eq_refl S eq_refl _ _ _ H) as (shown & Hl & Hin).
    exists w', shown. split; [exact H|]. split; [exact Hl | exact Hin].
Defined.

(** The files and the layout of the block, over a call with invocation
    arguments. *)
Lemma get_args_frame_witness :
  let args := [lit "--update_package=SDCARD:update.zip"] in
  let w' := after_get_args bcb_sizes busy_world recovery_prog args in
  get_args bcb_sizes busy_world recovery_prog args
  = Some (recovery_prog, args, w') /\
  wf_message bcb_sizes (bcb busy_world) /\
  untouched busy_world w' /\ wf_message bcb_sizes (bcb w').
Proof.
  intros args w'.
  assert (H : get_args bcb_sizes busy_world recovery_prog args
              = Some (recovery_prog, args, w')) by (vm_compute; reflexivity).
  assert (W : wf_message bcb_sizes (bcb busy_world))
    by (repeat split; vm_compute; reflexivity).
  split; [exact H|]. split; [exact W|].
  exact (get_args_frame bcb_sizes _ _ _ _ _ _ H W).
Defined.

(** The end of the logged session. *)
Lemma finish_recovery_copies_log_witness :
  let tmp := lit "Starting recovery" ++ [LF] ++ lit "Command:" ++ [LF] in
  let w' := finish_recovery bcb_sizes (Some (lit "done")) logged_world in
  cache logged_world = Mounted /\
  tmp_log logged_world = Some tmp /\
  no_nul (skipn (tmplog_offset logged_world) tmp) = true /\
  log_file w' = Some (lit "old" ++ [LF] ++ tmp) /\
  tmplog_offset w' = length tmp.
Proof.
  intros tmp w'.
  do 3 (split; [reflexivity|]).
  exact (finish_recovery_copies_log bcb_sizes (Some (lit "done")) logged_world
           tmp eq_refl eq_refl eq_refl).
Defined.



(** A package beside both wipe flags, and an installation that
    succeeds. *)
Lemma main_dispatch_install_witness :
  let p := lit "SDCARD:update.zip" in
  let o := Options None (Some p) true true in
  let w := idle_world None in
  update_package o = Some p /\
  install_result w p = INSTALL_SUCCESS /\
  fst (main_dispatch bcb_sizes o w) = INSTALL_SUCCESS /\
  installed (trace (snd (run_command o w))) = [p] /\
  formatted (trace (snd (run_command o w))) = [] /\
  installed (trace (snd (main_dispatch bcb_sizes o w))) = [p] /\
  formatted (trace (snd (main_dispatch bcb_sizes o w))) = [] /\
  ~ In PromptAndWait (trace (snd (main_dispatch bcb_sizes o w))).
Proof.
  intros p o w.
  destruct (main_dispatch_install bcb_sizes o w p eq_refl)
    as (S & I & F & H).
  destruct (H eq_refl) as (I' & F' & P).
  do 2 (split; [reflexivity|]). split; [exact S|].
  split; [exact I|]. split; [exact F|]. split; [exact I'|].
  split; [exact F' | exact P].
Defined.



End EngineFacts.

(** ** Facts on the menus *)

Module MenuFacts.
Import CStr Recovery CStrFacts RecoveryFacts EngineFacts.



Section Facts.

Variable sz : sizes.
Variable km : keymap.
Variable m : machine.

(** *** Names and their extensions *)

Lemma strrchr_from_none s c : strrchr_from s c = None <-> ~ In c s.
Proof.
  induction s as [|x s IH]; cbn [strrchr_from In]; [tauto|].
  destruct (strrchr_from s c) as [t|].
  - split; [discriminate|]. intros H. exfalso.
    assert (N : ~ In c s) by tauto. apply IH in N. discriminate N.
  - destruct (Ascii.eqb x c) eqn:E.
    + apply Ascii.eqb_eq in E. split; [discriminate | tauto].
    + apply Ascii.eqb_neq in E. split; [|reflexivity].
      intros _ [H|H]; [congruence|]. now apply IH.
Qed.

Lemma strrchr_from_some s c t :
  strrchr_from s c = Some t <->
  exists pre e, s = pre ++ c :: e /\ ~ In c e /\ t = c :: e.
Proof.
  revert t. induction s as [|x s IH]; intros t; cbn [strrchr_from].
  - split; [discriminate|]. intros (pre & e & H & _). now destruct pre.
  - destruct (strrchr_from s c) as [u|] eqn:E.
    + destruct (proj1 (IH u) eq_refl) as (pre & e & -> & Hn & ->).
      split.
      * intros H. inversion H; subst t. exists (x :: pre), e. auto.
      * intros (pre' & e' & H & Hn' & ->).
        assert (X : exists pre2, pre ++ c :: e = pre2 ++ c :: e').
        { destruct pre' as [|y pre2]; cbn in H; inversion H; subst.
          - exfalso. apply Hn'. apply in_or_app. right. left. reflexivity.
          - eauto. }
        destruct X as (pre2 & X).
        apply (proj2 (IH (c :: e'))). exists pre2, e'. auto.
    + apply strrchr_from_none in E.
      destruct (Ascii.eqb x c) eqn:Ex.
      * apply Ascii.eqb_eq in Ex. subst x. split.
        -- intros H. inversion H; subst t. exists [], s. auto.
        -- intros (pre & e & H & Hn & ->).
           destruct pre as [|y pre]; cbn in H; inversion H; subst; [reflexivity|].
           exfalso. apply E. apply in_or_app. right. left. reflexivity.
      * apply Ascii.eqb_neq in Ex. split; [discriminate|].
        intros (pre & e & H & Hn & ->).
        destruct pre as [|y pre]; cbn in H; inversion H; subst; [congruence|].
        exfalso. apply E. apply in_or_app. right. left. reflexivity.
Qed.

Lemma code_eq x y :
  (Z.of_nat (nat_of_ascii x) - Z.of_nat (nat_of_ascii y) =? 0)%Z = true
  <-> x = y.
Proof.
  rewrite Z.eqb_eq. split.
  - intros H. assert (N : nat_of_ascii x = nat_of_ascii y) by lia.
    rewrite <- (ascii_nat_embedding x), <- (ascii_nat_embedding y).
    now rewrite N.
  - intros ->. lia.
Qed.

Lemma tolower_nul x : is_nul x = false -> nat_of_ascii (tolower x) <> 0.
Proof.
  intros H. unfold tolower.
  destruct ((65 <=? nat_of_ascii x) && (nat_of_ascii x <=? 90)) eqn:E.
  - apply andb_true_iff in E. destruct E as [E1 E2].
    apply Nat.leb_le in E1. apply Nat.leb_le in E2.
    rewrite nat_ascii_embedding; lia.
  - intros N. unfold is_nul in H. apply Ascii.eqb_neq in H. apply H.
    rewrite <- (ascii_nat_embedding x), N. reflexivity.
Qed.

(** [strcasecmp] answers 0 exactly for strings equal in lower case. *)
Lemma strcasecmp_from_zero a : forall b,
  no_nul a = true -> no_nul b = true ->
  (strcasecmp_from a b = 0%Z <-> map tolower a = map tolower b).
Proof.
  induction a as [|x a IH]; intros [|y b] Ha Hb; cbn [strcasecmp_from map].
  - tauto.
  - cbn [no_nul forallb] in Hb. apply andb_true_iff in Hb.
    destruct Hb as [Hy _]. apply negb_true_iff in Hy.
    pose proof (tolower_nul y Hy). split; [lia | discriminate].
  - cbn [no_nul forallb] in Ha. apply andb_true_iff in Ha.
    destruct Ha as [Hx _]. apply negb_true_iff in Hx.
    pose proof (tolower_nul x Hx). split; [lia | discriminate].
  - cbn [no_nul forallb] in Ha, Hb.
    apply andb_true_iff in Ha. apply andb_true_iff in Hb.
    destruct Ha as [_ Ha]. destruct Hb as [_ Hb].
    cbn zeta.
    destruct (Z.of_nat (nat_of_ascii (tolower x))
              - Z.of_nat (nat_of_ascii (tolower y)) =? 0)%Z eqn:E.
    + apply code_eq in E. rewrite E, (IH b Ha Hb). split.
      * now intros ->.
      * intros H. now inversion H.
    + split.
      * intros H. apply Z.eqb_neq in E. contradiction.
      * intros H. inversion H as [[H1 H2]].
        assert (T : (Z.of_nat (nat_of_ascii (tolower x))
                     - Z.of_nat (nat_of_ascii (tolower y)) =? 0)%Z = true)
          by now apply code_eq.
        congruence.
Qed.

Lemma no_nul_suffix (a b : chars) : no_nul (a ++ b) = true -> no_nul b = true.
Proof. rewrite no_nul_app. intros H. now apply andb_true_iff in H. Qed.

(** A name passes the test of the file menus exactly when it is a stem
    that does not start with a dot, a dot, and an extension without dot
    that is the one looked for but for the case of its letters: so
    [update.ZIP] is listed for [".zip"], and [.zip], [.update.zip] and
    [update.zip.old] are not. *)
Theorem has_extension_iff ext d_name :
  has_extension ext d_name = true <->
  exists c stem e,
    cstr d_name = c :: stem ++ "."%char :: e /\
    c <> "."%char /\
    ~ In "."%char e /\
    map tolower ("."%char :: e) = map tolower (cstr ext).
Proof.
  unfold has_extension, strrchr, strcasecmp.
  pose proof (cstr_no_nul d_name) as Hn.
  split.
  - destruct (strrchr_from (cstr d_name) "."%char) as [t|] eqn:E; [|discriminate].
    apply strrchr_from_some in E. destruct E as (pre & e & Hd & He & ->).
    rewrite Hd in Hn.
    assert (Ht : no_nul ("."%char :: e) = true) by exact (no_nul_suffix _ _ Hn).
    unfold char, chars in *. rewrite (cstr_id _ Ht).
    destruct pre as [|c stem]; rewrite Hd; cbn [app].
    + cbn. discriminate.
    + destruct (Ascii.eqb c "."%char) eqn:Ec; [discriminate|].
      apply Ascii.eqb_neq in Ec. intros H. apply Z.eqb_eq in H.
      apply strcasecmp_from_zero in H;
        [| exact Ht | apply cstr_no_nul].
      exists c, stem, e. auto.
  - intros (c & stem & e & Hd & Hc & He & Hm).
    assert (E : strrchr_from (cstr d_name) "."%char = Some ("."%char :: e)).
    { apply strrchr_from_some. exists (c :: stem), e. auto. }
    rewrite E, Hd. apply Ascii.eqb_neq in Hc. rewrite Hc.
    rewrite Hd in Hn.
    assert (Ht : no_nul ("."%char :: e) = true).
    { change (c :: stem ++ "."%char :: e)
        with ((c :: stem) ++ "."%char :: e) in Hn.
      exact (no_nul_suffix _ _ Hn). }
    unfold char, chars in *. rewrite (cstr_id _ Ht).
    apply Z.eqb_eq.
    apply strcasecmp_from_zero; [exact Ht | apply cstr_no_nul | exact Hm].
Qed.

(** *** The two passes over a directory *)

Lemma count_files_filter ext names : forall total,
  count_files ext names total
  = total + length (filter (has_extension ext) names).
Proof.
  induction names as [|d names IH]; intros total; cbn [count_files filter].
  - now rewrite Nat.add_0_r.
  - destruct (has_extension ext d); rewrite IH; cbn [length]; lia.
Qed.

Lemma set_slot_next (done : list slot) s rest x :
  set_slot (done ++ x :: rest) (length done) s = done ++ s :: rest.
Proof.
  induction done as [|d done IH]; cbn [app length set_slot]; [reflexivity|].
  now rewrite IH.
Qed.

(** The second pass fills the slots the first pass counted. *)
Lemma fill_files_counted ext entry f names :
  (forall d, entry d = Some (f d)) ->
  forall done,
    fill_files ext entry names (length done)
      (done ++ repeat Garbage (length (filter (has_extension ext) names))
            ++ [Null])
    = inr (done ++ map (fun d => Str (f d)) (filter (has_extension ext) names)
                ++ [Null]).
Proof.
  intros He. induction names as [|d names IH]; intros done;
    cbn [fill_files filter]; [reflexivity|].
  destruct (has_extension ext d); [|apply IH].
  cbn [length repeat map app].
  assert (L : (length done <? length (done ++ Garbage ::
                repeat Garbage (length (filter (has_extension ext) names))
                ++ [Null])) = true).
  { apply Nat.ltb_lt. rewrite length_app. cbn [length]. lia. }
  rewrite L, He, set_slot_next.
  specialize (IH (done ++ [Str (f d)])).
  rewrite length_app, Nat.add_1_r, <- !app_assoc in IH. exact IH.
Qed.

Lemma list_files_counted ext entry f names :
  (forall d, entry d = Some (f d)) ->
  list_files ext entry names
  = inr (length (filter (has_extension ext) names),
         map (fun d => Str (f d)) (filter (has_extension ext) names)
           ++ [Null]).
Proof.
  intros He. unfold list_files. rewrite count_files_filter. cbn [Nat.add].
  pose proof (fill_files_counted ext entry f names He []) as F.
  cbn [length app] in F. now rewrite F.
Qed.

Lemma update_entry_fits d : update_entry d = Some (SDCARD_PATH ++ cstr d).
Proof.
  unfold update_entry, strcpy, strcat.
  change (strlen SDCARD_PATH) with 7. change (cstr SDCARD_PATH) with SDCARD_PATH.
  change SDCARD_PATH_LENGTH with 7.
  assert (A : (7 <? 7 + strlen d + 1) = true) by (apply Nat.ltb_lt; lia).
  rewrite A. change (length SDCARD_PATH) with 7.
  assert (B : (7 + strlen d <? 7 + strlen d + 1) = true)
    by (apply Nat.ltb_lt; lia).
  now rewrite B.
Qed.

Lemma tar_entry_fits d : tar_entry d = Some (cstr d).
Proof.
  unfold tar_entry, strcpy.
  assert (A : (strlen d <? SDCARD_PATH_LENGTH + strlen d + 1) = true)
    by (apply Nat.ltb_lt; lia).
  now rewrite A.
Qed.

Lemma free_files_filled (l : list chars) (f : chars -> chars) :
  free_files (length l) (map (fun d => Str (f d)) l ++ [Null]) = None.
Proof.
  unfold free_files.
  assert (A : (length (map (fun d => Str (f d)) l ++ [Null]) <? length l) = false).
  { apply Nat.ltb_ge. rewrite length_app, length_map. lia. }
  rewrite A.
  rewrite firstn_app, length_map, Nat.sub_diag, firstn_0, app_nil_r.
  rewrite firstn_all2 by (rewrite length_map; lia).
  assert (B : existsb (fun s => match s with Garbage => true | _ => false end)
                (map (fun d => Str (f d)) l) = false).
  { clear. induction l; [reflexivity | assumption]. }
  now rewrite B.
Qed.

(** The two passes of [choose_update_file] and of [choose_tar_file] agree:
    the second writes the array within the [total + 1] elements the first
    made it of and leaves none of them unset before the NULL, every
    string fits the buffer allocated for it, the menu gets the names that
    pass the test, in the order of the directory (with ["SDCARD:"] before
    each in [choose_update_file], bare in [choose_tar_file]), and the
    loop at [out:] frees what was allocated. *)
Theorem list_files_sound names :
  let zips := filter (has_extension (lit ".zip")) names in
  let tars := filter (has_extension (lit ".tar")) names in
  list_files (lit ".zip") update_entry names
  = inr (length zips,
         map (fun d => Str (SDCARD_PATH ++ cstr d)) zips ++ [Null]) /\
  list_files (lit ".tar") tar_entry names
  = inr (length tars, map (fun d => Str (cstr d)) tars ++ [Null]) /\
  free_files (length zips)
    (map (fun d => Str (SDCARD_PATH ++ cstr d)) zips ++ [Null]) = None /\
  free_files (length tars) (map (fun d => Str (cstr d)) tars ++ [Null]) = None.
Proof.
  intros zips tars. split; [|split; [|split]].
  - exact (list_files_counted _ _ (fun d => SDCARD_PATH ++ cstr d) names
             update_entry_fits).
  - exact (list_files_counted _ _ cstr names tar_entry_fits).
  - apply (free_files_filled zips (fun d => SDCARD_PATH ++ cstr d)).
  - apply (free_files_filled tars cstr).
Qed.

(** *** [get_selected_item] *)

Ltac menu_step :=
  cbn [get_selected_item_loop choose_wipe_type_loop choose_update_file_loop
       choose_tar_file_loop];
  unfold ui_text_visible; cbn beta iota zeta.

Lemma get_selected_item_loop_range items :
  select_in_range m items ->
  forall ks selected c,
    (0 <= selected < Z.of_nat items)%Z ->
    engine (console_of (get_selected_item_loop km m items ks selected c))
    = engine c /\
    spawned (console_of (get_selected_item_loop km m items ks selected c))
    = spawned c /\
    match get_selected_item_loop km m items ks selected c with
    | Done a unread _ =>
        (0 <= a < Z.of_nat items)%Z /\
        exists used, ks = used ++ unread /\ used <> []
    | Waiting _ => True
    | Fault _ _ => False
    end.
Proof.
  intros [Hmax Hsel]. induction ks as [|key ks IH]; intros selected c Hs.
  - cbn. auto.
  - menu_step.
    destruct (press_of km key (text_visible m (asked c))).
    + cbn [console_of engine spawned]. repeat split; try lia.
      exists [key]. split; [reflexivity | discriminate].
    + assert (L : (selected <? INT_MAX)%Z = true) by (apply Z.ltb_lt; lia).
      rewrite L.
      destruct (IH (menu_select m items (selected + 1))
                   (Console (engine c) (S (asked c)) (spawned c))
                   (Hsel _)) as (E & S & R).
      split; [exact E|]. split; [exact S|].
      destruct (get_selected_item_loop km m items ks _ _); try exact R.
      destruct R as (Ra & used & -> & _). split; [exact Ra|].
      exists (key :: used). split; [reflexivity | discriminate].
    + assert (L : (INT_MIN <? selected)%Z = true)
        by (apply Z.ltb_lt; unfold INT_MIN; lia).
      rewrite L.
      destruct (IH (menu_select m items (selected - 1))
                   (Console (engine c) (S (asked c)) (spawned c))
                   (Hsel _)) as (E & S & R).
      split; [exact E|]. split; [exact S|].
      destruct (get_selected_item_loop km m items ks _ _); try exact R.
      destruct R as (Ra & used & -> & _). split; [exact Ra|].
      exists (key :: used). split; [reflexivity | discriminate].
    + cbn [console_of engine spawned]. repeat split; try lia.
      exists [key]. split; [reflexivity | discriminate].
    + destruct (IH selected (Console (engine c) (S (asked c)) (spawned c)) Hs)
        as (E & S & R).
      split; [exact E|]. split; [exact S|].
      destruct (get_selected_item_loop km m items ks _ _); try exact R.
      destruct R as (Ra & used & -> & _). split; [exact Ra|].
      exists (key :: used). split; [reflexivity | discriminate].
Qed.

(** When [ui_menu_select] keeps the selection within the menu, a call of
    [get_selected_item] that returns gives the index of one of the items,
    after it has read at least one key: whatever the keys were.  The
    call does not overflow its counter, it has called
    [finish_recovery(NULL)] when it returns or waits, and it does nothing
    else to the world. *)
Theorem get_selected_item_in_range items ks c :
  select_in_range m items ->
  engine (console_of (get_selected_item sz km m items ks c))
  = finish_recovery sz None (engine c) /\
  match get_selected_item sz km m items ks c with
  | Done a unread _ =>
      (0 <= a < Z.of_nat items)%Z /\
      exists used, ks = used ++ unread /\ used <> []
  | Waiting _ => True
  | Fault _ _ => False
  end.
Proof.
  intros H. unfold get_selected_item.
  assert (H0 : (0 <= 0 < Z.of_nat items)%Z).
  { destruct H as [_ H]. specialize (H 0%Z). lia. }
  destruct (get_selected_item_loop_range items H ks 0%Z (start_menu sz c) H0)
    as (E & _ & R).
  split; [exact E | exact R].
Qed.

(** *** [choose_wipe_type] *)

Ltac console_simpl :=
  cbn [engine asked spawned on_engine ui_print console_of erase fst snd] in *;
  world_simpl.

Lemma start_menu_formatted c :
  formatted (trace (engine (start_menu sz c))) = formatted (trace (engine c)) /\
  installed (trace (engine (start_menu sz c))) = installed (trace (engine c)) /\
  spawned (start_menu sz c) = spawned c /\
  asked (start_menu sz c) = asked c /\
  bcb (engine (start_menu sz c)) = zero_message sz /\
  format_result (engine (start_menu sz c)) = format_result (engine c) /\
  install_result (engine (start_menu sz c)) = install_result (engine c).
Proof.
  unfold start_menu. console_simpl.
  destruct (finish_recovery_passive sz None (engine c)) as (more & T & Q).
  rewrite forallb_and in Q. apply andb_true_iff in Q. destruct Q as [_ Q].
  rewrite T, formatted_app, installed_app.
  rewrite (formatted_harmless _ Q), (installed_harmless _ Q), !app_nil_r.
  repeat split.
  - apply finish_recovery_bcb.
  - unfold finish_recovery, unlink_command_file, copy_logs, write_intent,
      root_path_ready.
    destruct (engine c) as [b ca cf i l t o fr ir tr].
    destruct ca, t; reflexivity.
  - unfold finish_recovery, unlink_command_file, copy_logs, write_intent,
      root_path_ready.
    destruct (engine c) as [b ca cf i l t o fr ir tr].
    destruct ca, t; reflexivity.
Qed.

Lemma confirm_wipe_no_home chosen_item ks c :
  ~ In (KEY_DREAM_HOME km) ks ->
  formatted (trace (engine (console_of (confirm_wipe km m chosen_item ks c))))
  = formatted (trace (engine c)) /\
  spawned (console_of (confirm_wipe km m chosen_item ks c)) = spawned c.
Proof.
  intros Hn. unfold confirm_wipe.
  destruct (chosen_item =? WTYPE_BACK)%Z; [split; reflexivity|].
  destruct ks as [|key ks].
  - console_simpl. rewrite !formatted_app. cbn [formatted flat_map].
    rewrite !app_nil_r. split; reflexivity.
  - assert (E : (key =? KEY_DREAM_HOME km)%Z = false).
    { apply Z.eqb_neq. intros ->. apply Hn. left. reflexivity. }
    rewrite E. unfold ui_text_visible. console_simpl.
    rewrite !formatted_app. cbn [formatted flat_map].
    rewrite !app_nil_r. split; reflexivity.
Qed.

Lemma choose_wipe_type_loop_no_home ks : forall selected c,
  ~ In (KEY_DREAM_HOME km) ks ->
  formatted (trace (engine (console_of
    (choose_wipe_type_loop km m ks selected c))))
  = formatted (trace (engine c)) /\
  spawned (console_of (choose_wipe_type_loop km m ks selected c)) = spawned c.
Proof.
  induction ks as [|key ks IH]; intros selected c Hn.
  - split; reflexivity.
  - assert (Hn' : ~ In (KEY_DREAM_HOME km) ks)
      by (intros H; apply Hn; right; exact H).
    menu_step.
    set (c1 := Console (engine c) (S (asked c)) (spawned c)).
    destruct (press_of km key (text_visible m (asked c))).
    + split; reflexivity.
    + destruct (selected <? INT_MAX)%Z; [|split; reflexivity].
      exact (IH _ c1 Hn').
    + destruct (INT_MIN <? selected)%Z; [|split; reflexivity].
      exact (IH _ c1 Hn').
    + destruct (selected >=? 0)%Z; [|exact (IH _ c1 Hn')].
      exact (confirm_wipe_no_home selected ks c1 Hn').
    + exact (IH _ c1 Hn').
Qed.

(** Without the key HOME among the keys it reads, [choose_wipe_type]
    formats no volume and starts no program, however it ends and whatever
    the other keys are. *)
Theorem choose_wipe_type_needs_home ks c :
  ~ In (KEY_DREAM_HOME km) ks ->
  formatted (trace (engine (console_of (choose_wipe_type sz km m ks c))))
  = formatted (trace (engine c)) /\
  spawned (console_of (choose_wipe_type sz km m ks c)) = spawned c.
Proof.
  intros Hn. unfold choose_wipe_type.
  destruct (choose_wipe_type_loop_no_home ks 0%Z (start_menu sz c) Hn)
    as [F S].
  destruct (start_menu_formatted c) as (F0 & _ & S0 & _).
  split; congruence.
Qed.

Lemma choose_wipe_type_loop_down key ks selected c :
  press_of km key (text_visible m (asked c)) = Down ->
  (selected <? INT_MAX)%Z = true ->
  choose_wipe_type_loop km m (key :: ks) selected c
  = choose_wipe_type_loop km m ks (menu_select m 4 (selected + 1))
      (Console (engine c) (S (asked c)) (spawned c)).
Proof.
  intros Hp Hs. cbn [choose_wipe_type_loop]. unfold ui_text_visible.
  cbn beta iota zeta. now rewrite Hp, Hs.
Qed.

Lemma choose_wipe_type_loop_ok key ks selected c :
  press_of km key (text_visible m (asked c)) = Ok ->
  (selected >=? 0)%Z = true ->
  choose_wipe_type_loop km m (key :: ks) selected c
  = confirm_wipe km m selected ks
      (Console (engine c) (S (asked c)) (spawned c)).
Proof.
  intros Hp Hs. cbn [choose_wipe_type_loop]. unfold ui_text_visible.
  cbn beta iota zeta. now rewrite Hp, Hs.
Qed.

Lemma confirm_wipe_home chosen_item ks c :
  (chosen_item =? WTYPE_BACK)%Z = false ->
  confirm_wipe km m chosen_item (KEY_DREAM_HOME km :: ks) c
  = Done tt ks
      (snd (ui_text_visible m
        (wipe_chosen m chosen_item
          (ui_print ([LF] ++ lit "Wiping data..." ++ [LF])
            (ui_print ([LF] ++ lit "-- any other key to abort..")
              (ui_print ([LF] ++ lit "-- Press HOME to confirm, or")
                (ui_print ([LF] ++ lit "-- This will ERASE your data!")
                   c))))))).
Proof.
  intros Hc. unfold confirm_wipe. rewrite Hc, Z.eqb_refl.
  cbn beta iota zeta.
  now destruct (ui_text_visible m _).
Qed.

Lemma wipe_chosen_data_cache c :
  wipe_chosen m WTYPE_DATA_CACHE c
  = ui_print (lit "Data wipe complete." ++ [LF])
      (erase (lit "CACHE:") (erase (lit "DATA:") c)).
Proof. reflexivity. Qed.

Lemma erase_trace root c :
  trace (engine (erase root c))
  = trace (engine c)
      ++ [UiSetBackground BACKGROUND_ICON_INSTALLING;
          UiShowIndeterminateProgress;
          UiPrint (lit "Formatting " ++ root ++ lit "..");
          FormatRootDevice root] /\
  bcb (engine (erase root c)) = bcb (engine c) /\
  spawned (erase root c) = spawned c.
Proof.
  unfold erase, erase_root, format_root_device. console_simpl.
  rewrite <- !app_assoc. repeat split.
Qed.

Lemma ui_print_trace text c :
  trace (engine (ui_print text c)) = trace (engine c) ++ [UiPrint text] /\
  bcb (engine (ui_print text c)) = bcb (engine c) /\
  spawned (ui_print text c) = spawned c.
Proof. repeat split. Qed.

(** The factory reset of the menu: one step down, OK and HOME format the
    data volume and then the cache volume ([case WTYPE_DATA_CACHE] falls
    through), and the menu ends on "Data wipe complete." whatever
    [format_root_device] returned for either. *)
Theorem choose_wipe_type_factory_reset down ok rest c :
  press_of km down (text_visible m (asked c)) = Down ->
  press_of km ok (text_visible m (S (asked c))) = Ok ->
  menu_select m 4 1 = 1%Z ->
  exists c' before,
    choose_wipe_type sz km m (down :: ok :: KEY_DREAM_HOME km :: rest) c
    = Done tt rest c' /\
    formatted (trace (engine c'))
    = formatted (trace (engine c)) ++ [lit "DATA:"; lit "CACHE:"] /\
    trace (engine c')
    = before ++ [UiPrint (lit "Data wipe complete." ++ [LF])] /\
    bcb (engine c') = zero_message sz /\
    spawned c' = spawned c.
Proof.
  intros Hd Ho Hs. unfold choose_wipe_type.
  destruct (start_menu_formatted c) as (F0 & _ & S0 & A0 & B0 & _).
  remember (start_menu sz c) as c0 eqn:Ec0. clear Ec0.
  rewrite <- A0 in Hd, Ho.
  rewrite (choose_wipe_type_loop_down down _ 0%Z c0 Hd eq_refl).
  change (0 + 1)%Z with 1%Z. rewrite Hs.
  rewrite (choose_wipe_type_loop_ok ok _ 1%Z
             (Console (engine c0) (S (asked c0)) (spawned c0)) Ho eq_refl).
  rewrite (confirm_wipe_home 1%Z _ _ eq_refl).
  change 1%Z with WTYPE_DATA_CACHE at 1. rewrite wipe_chosen_data_cache.
  unfold ui_text_visible. cbn [snd].
  match goal with
  | |- context [erase (lit "CACHE:") (erase (lit "DATA:") ?x)] =>
      remember x as c1 eqn:Ec1
  end.
  assert (H1 : trace (engine c1)
               = trace (engine c0)
                   ++ [UiPrint ([LF] ++ lit "-- This will ERASE your data!");
                       UiPrint ([LF] ++ lit "-- Press HOME to confirm, or");
                       UiPrint ([LF] ++ lit "-- any other key to abort..");
                       UiPrint ([LF] ++ lit "Wiping data..." ++ [LF])] /\
               bcb (engine c1) = bcb (engine c0) /\
               spawned c1 = spawned c0).
  { subst c1. console_simpl. rewrite <- !app_assoc. repeat split. }
  clear Ec1. destruct H1 as (T1 & B1 & S1).
  destruct (erase_trace (lit "DATA:") c1) as (T2 & B2 & S2).
  destruct (erase_trace (lit "CACHE:") (erase (lit "DATA:") c1))
    as (T3 & B3 & S3).
  remember (erase (lit "CACHE:") (erase (lit "DATA:") c1)) as c3 eqn:Ec3.
  clear Ec3.
  destruct (ui_print_trace (lit "Data wipe complete." ++ [LF]) c3)
    as (T4 & B4 & S4).
  remember (ui_print (lit "Data wipe complete." ++ [LF]) c3) as c4 eqn:Ec4.
  clear Ec4.
  exists (Console (engine c4) (S (asked c4)) (spawned c4)),
         (trace (engine c3)).
  cbn [engine spawned].
  split; [reflexivity|]. split; [|split; [|split]].
  - rewrite T4, T3, T2, T1, !formatted_app, F0. cbn [formatted flat_map app].
    rewrite !app_nil_r, <- !app_assoc. reflexivity.
  - exact T4.
  - congruence.
  - congruence.
Qed.

(** *** [choose_update_file] and [choose_tar_file] *)


Lemma free_and_return_filled {A} (a : A) (l : list chars) f ks c :
  free_and_return a (length l) (map (fun d => Str (f d)) l ++ [Null]) ks c
  = Done a ks c.
Proof. unfold free_and_return. now rewrite free_files_filled. Qed.

(** What [files[chosen_item]] is, when it is a string. *)
Lemma file_at_listed (l : list chars) f chosen_item s :
  file_at (map (fun d => Str (f d)) l ++ [Null]) chosen_item = inr s ->
  exists d, In d l /\ s = f d.
Proof.
  unfold file_at.
  destruct (nth_error _ (Z.to_nat chosen_item)) as [[| |t]|] eqn:E;
    try discriminate.
  intros H. inversion H; subst t. apply nth_error_In in E.
  apply in_app_or in E. destruct E as [E|[E|[]]]; [|discriminate].
  apply in_map_iff in E. destruct E as (d & Hd & Hin).
  inversion Hd. eauto.
Qed.

Lemma file_at_null chosen_item :
  chosen_item = 0%Z -> file_at [Null] chosen_item = inl NullPointer.
Proof. intros ->. reflexivity. Qed.







(** With no name of the directory that passes the test, the menu of
    [choose_update_file] has no item, and OK and HOME hand the NULL that
    ends the list to [install_package]. *)
Theorem choose_update_file_empty_menu names ok ks c :
  sdcard m = Mounted ->
  sdcard_dir m = Some names ->
  filter (has_extension (lit ".zip")) names = [] ->
  (closedir_result m <? 0)%Z = false ->
  press_of km ok (text_visible m (asked c)) = Ok ->
  exists c',
    choose_update_file sz km m (ok :: KEY_DREAM_HOME km :: ks) c
    = Fault NullPointer c' /\
    installed (trace (engine c')) = installed (trace (engine c)).
Proof.
  intros Hs Hd He Hc Ho. unfold choose_update_file.
  rewrite Hs, Hd.
  rewrite (list_files_counted _ _ (fun d => SDCARD_PATH ++ cstr d) names
             update_entry_fits).
  rewrite He, Hc. cbn [length map app].
  destruct (start_menu_formatted c) as (_ & I0 & _ & A0 & _).
  remember (start_menu sz c) as c0 eqn:E0. clear E0.
  rewrite <- A0 in Ho.
  cbn [choose_update_file_loop]. unfold ui_text_visible.
  cbn beta iota zeta. rewrite Ho.
  change (0 >=? 0)%Z with true. cbn beta iota.
  unfold confirm_apply. rewrite Z.eqb_refl.
  rewrite (file_at_null 0%Z eq_refl).
  eexists. split; [reflexivity|].
  console_simpl. rewrite !installed_app, I0. cbn. now rewrite !app_nil_r.
Qed.

(** *** [choose_tar_file] *)

Lemma choose_tar_file_loop_chosen_cases room tars chosen_item ks c :
  chosen room tars
    (choose_tar_file_loop_chosen room (length tars) (tar_files tars)
       chosen_item ks c) /\
  engine (console_of
    (choose_tar_file_loop_chosen room (length tars) (tar_files tars)
       chosen_item ks c))
  = engine c.
Proof.
  unfold choose_tar_file_loop_chosen.
  destruct (file_at (tar_files tars) chosen_item) as [why|name] eqn:Ef;
    [split; [exact I | reflexivity]|].
  apply (file_at_listed tars cstr) in Ef. destruct Ef as (d & Hd & ->).
  unfold strcpy.
  assert (Hl : strlen (cstr d) = strlen d).
  { unfold strlen. now rewrite (cstr_id _ (cstr_no_nul d)). }
  rewrite Hl.
  destruct (strlen d <? room) eqn:El; [|split; [exact I | reflexivity]].
  unfold tar_files. rewrite (free_and_return_filled _ tars cstr).
  split; [|reflexivity].
  right. split; [reflexivity|]. exists d.
  rewrite (cstr_id _ (cstr_no_nul d)). apply Nat.ltb_lt in El. auto.
Qed.

Lemma choose_tar_file_loop_cases room tars ks : forall selected c,
  chosen room tars
    (choose_tar_file_loop km m room (length tars) (tar_files tars) ks
       selected c) /\
  engine (console_of
    (choose_tar_file_loop km m room (length tars) (tar_files tars) ks
       selected c))
  = engine c.
Proof.
  induction ks as [|key ks IH]; intros selected c.
  - split; [exact I | reflexivity].
  - menu_step.
    set (c1 := Console (engine c) (S (asked c)) (spawned c)).
    destruct (press_of km key (text_visible m (asked c))).
    + unfold tar_files. rewrite (free_and_return_filled _ tars cstr).
      split; [left; split; reflexivity | reflexivity].
    + destruct (selected <? INT_MAX)%Z; [exact (IH _ c1)|].
      split; [exact I | reflexivity].
    + destruct (INT_MIN <? selected)%Z; [exact (IH _ c1)|].
      split; [exact I | reflexivity].
    + destruct (selected >=? 0)%Z; [|exact (IH _ c1)].
      exact (choose_tar_file_loop_chosen_cases room tars selected ks c1).
    + exact (IH _ c1).
Qed.

(** What a call of [choose_tar_file] on a buffer of [room] bytes
    returned. *)
Lemma choose_tar_file_cases room ks c retval sfpath unread c' :
  choose_tar_file sz km m room ks c = Done (retval, sfpath) unread c' ->
  ((1 <= retval <= 3)%Z /\ sfpath = None) \/
  (retval = 0%Z /\
   exists names d,
     sdcard m = Mounted /\ samdroid_dir m = Some names /\
     In d names /\ has_extension (lit ".tar") d = true /\
     sfpath = Some (cstr d) /\ strlen d < room).
Proof.
  unfold choose_tar_file.
  destruct (sdcard m) eqn:Es.
  - intros H. inversion H. left. split; [lia | reflexivity].
  - intros H. inversion H. left. split; [lia | reflexivity].
  - destruct (strcat PATH_MAX (cstr (sdcard_path m)) (lit "samdroid/"));
      [|discriminate].
    destruct (samdroid_dir m) as [names|] eqn:Ed.
    + rewrite (list_files_counted _ _ cstr names tar_entry_fits).
      set (tars := filter (has_extension (lit ".tar")) names).
      destruct (closedir_result m <? 0)%Z.
      * rewrite (free_and_return_filled _ tars cstr).
        intros H. inversion H. left. split; [lia | reflexivity].
      * intros H.
        destruct (choose_tar_file_loop_cases room tars ks 0%Z
                    (start_menu sz c)) as [C _].
        unfold tar_files in C. rewrite H in C.
        destruct C as [[-> ->]|[-> (d & Hd & -> & Hl)]].
        -- left. split; [lia | reflexivity].
        -- right. split; [reflexivity|]. exists names, d.
           apply filter_In in Hd. destruct Hd as [Hd He]. auto 10.
    + intros H. inversion H. left. split; [lia | reflexivity].
Qed.

(** [choose_tar_file] returns 0 exactly when it has copied a name to
    [sfpath], and otherwise 1, 2 or 3; the name is one of the directory
    samdroid/ that passes the test for [".tar"], as it stands there, and
    it fits the buffer with its NUL (a longer one overruns it and the
    call does not return). *)
Theorem choose_tar_file_result room ks c retval sfpath unread c' :
  choose_tar_file sz km m room ks c = Done (retval, sfpath) unread c' ->
  (0 <= retval <= 3)%Z /\
  (retval = 0%Z <-> sfpath <> None) /\
  forall st, sfpath = Some st ->
    exists names d,
      samdroid_dir m = Some names /\ In d names /\
      has_extension (lit ".tar") d = true /\
      st = cstr d /\ length st < room.
Proof.
  intros H. apply choose_tar_file_cases in H.
  destruct H as [[Hr ->]|[-> (names & d & _ & Hd & Hi & He & -> & Hl)]].
  - split; [lia|]. split.
    + split; [lia | congruence].
    + discriminate.
  - split; [lia|]. split.
    + split; [discriminate | reflexivity].
    + intros st Hst. inversion Hst; subst st. exists names, d.
      unfold strlen in Hl. auto 10.
Qed.

(** With no name of samdroid/ that passes the test, the menu of
    [choose_tar_file] has no item, and OK makes [strcpy] read the NULL
    that ends the list. *)
Theorem choose_tar_file_empty_menu room names ok ks c :
  sdcard m = Mounted ->
  length (cstr (sdcard_path m)) + 9 < PATH_MAX ->
  samdroid_dir m = Some names ->
  filter (has_extension (lit ".tar")) names = [] ->
  (closedir_result m <? 0)%Z = false ->
  press_of km ok (text_visible m (asked c)) = Ok ->
  exists c', choose_tar_file sz km m room (ok :: ks) c = Fault NullPointer c'.
Proof.
  intros Hs Hp Hd He Hc Ho. unfold choose_tar_file.
  rewrite Hs. unfold strcat.
  change (strlen (lit "samdroid/")) with 9.
  apply Nat.ltb_lt in Hp. rewrite Hp, Hd.
  rewrite (list_files_counted _ _ cstr names tar_entry_fits).
  rewrite He, Hc. cbn [length map app].
  destruct (start_menu_formatted c) as (_ & _ & _ & A0 & _).
  remember (start_menu sz c) as c0 eqn:E0. clear E0.
  rewrite <- A0 in Ho.
  cbn [choose_tar_file_loop]. unfold ui_text_visible.
  cbn beta iota zeta. rewrite Ho.
  change (0 >=? 0)%Z with true. cbn beta iota.
  unfold choose_tar_file_loop_chosen.
  rewrite (file_at_null 0%Z eq_refl). eauto.
Qed.

(** The restore of [choose_backup_type] builds its path in 255 bytes:
    a name that [choose_tar_file] has copied to [st] fits there behind
    ["/sdcard/samdroid/"] when it has at most 237 bytes, and overruns
    [sfpath] when it has more, which [choose_tar_file] lets it have. *)
Theorem restore_path_fits ks c retval st unread c' :
  choose_tar_file sz km m restore_room ks c
  = Done (retval, Some st) unread c' ->
  length st < restore_room /\
  (length st <= 237 ->
   restore_path st = Some (lit "/sdcard/samdroid/" ++ st)) /\
  (237 < length st -> restore_path st = None).
Proof.
  intros H. apply choose_tar_file_cases in H.
  destruct H as [[_ H]|[_ (names & d & _ & _ & _ & _ & H & Hl)]];
    [discriminate|].
  inversion H; subst st. clear H.
  assert (Hs : strlen (cstr d) = length (cstr d)).
  { unfold strlen. now rewrite (cstr_id _ (cstr_no_nul d)). }
  unfold strlen in Hl. split; [exact Hl|].
  unfold restore_path, strcpy, strcat, restore_room.
  change (strlen (lit "/sdcard/samdroid/")) with 17.
  change (17 <? 255) with true. cbn beta iota.
  change (cstr (lit "/sdcard/samdroid/")) with (lit "/sdcard/samdroid/").
  change (length (lit "/sdcard/samdroid/")) with 17.
  rewrite Hs, (cstr_id _ (cstr_no_nul d)).
  split; intros Hn.
  - assert (E : (17 + length (cstr d) <? 255) = true)
      by (apply Nat.ltb_lt; lia).
    now rewrite E.
  - assert (E : (17 + length (cstr d) <? 255) = false)
      by (apply Nat.ltb_ge; lia).
    now rewrite E.
Qed.

End Facts.

(** *** The menus at work *)

(** Two steps down and OK on the menu of five items of
    [choose_mount_type]. *)
Lemma get_selected_item_in_range_witness :
  let m := sample_machine [] in
  let ks := [108; 108; 272; 7]%Z in
  let r := get_selected_item bcb_sizes sample_keys m 5 ks
             (console_on logged_world) in
  select_in_range m 5 /\
  r = Done 2%Z [7%Z] (console_of r) /\
  engine (console_of r) = finish_recovery bcb_sizes None logged_world /\
  match r with
  | Done a unread _ =>
      (0 <= a < 5)%Z /\ exists used, ks = used ++ unread /\ used <> []
  | Waiting _ => True
  | Fault _ _ => False
  end.
Proof.
  intros m ks r.
  assert (H : select_in_range m 5).
  { split; [unfold INT_MAX; lia|]. intros s. cbn. unfold clamp. lia. }
  split; [exact H|]. split; [vm_compute; reflexivity|].
  exact (get_selected_item_in_range bcb_sizes sample_keys m 5 ks
           (console_on logged_world) H).
Defined.

(** The factory reset chosen, and BACK for an answer. *)
Lemma choose_wipe_type_needs_home_witness :
  let m := sample_machine [] in
  let ks := [108; 272; 158]%Z in
  let r := choose_wipe_type bcb_sizes sample_keys m ks
             (console_on logged_world) in
  ~ In (KEY_DREAM_HOME sample_keys) ks /\
  formatted (trace (engine (console_of r))) = [] /\
  spawned (console_of r) = [].
Proof.
  intros m ks r.
  assert (H : ~ In (KEY_DREAM_HOME sample_keys) ks).
  { intros [H|[H|[H|[]]]]; discriminate H. }
  split; [exact H|].
  exact (choose_wipe_type_needs_home bcb_sizes sample_keys m ks
           (console_on logged_world) H).
Defined.

(** The factory reset on a data volume that does not format. *)
Lemma choose_wipe_type_factory_reset_witness :
  let m := sample_machine [] in
  let c := console_on bad_data_world in
  press_of sample_keys 108%Z (text_visible m (asked c)) = Down /\
  press_of sample_keys 272%Z (text_visible m (S (asked c))) = Ok /\
  menu_select m 4 1 = 1%Z /\
  format_result (engine c) (lit "DATA:") <> 0%Z /\
  exists c' before,
    choose_wipe_type bcb_sizes sample_keys m
      [108; 272; KEY_DREAM_HOME sample_keys]%Z c
    = Done tt [] c' /\
    formatted (trace (engine c')) = [lit "DATA:"; lit "CACHE:"] /\
    trace (engine c')
    = before ++ [UiPrint (lit "Data wipe complete." ++ [LF])] /\
    bcb (engine c') = zero_message bcb_sizes /\
    spawned c' = [].
Proof.
  intros m c. do 3 (split; [reflexivity|]). split; [discriminate|].
  exact (choose_wipe_type_factory_reset bcb_sizes sample_keys m
           108%Z 272%Z [] c eq_refl eq_refl eq_refl).
Defined.

(** An SD card without a package. *)
Lemma choose_update_file_empty_menu_witness :
  let names := [lit "notes.txt"; lit ".update.zip"; lit "update.zip.old"] in
  let m := sample_machine names in
  let c := console_on logged_world in
  sdcard m = Mounted /\
  sdcard_dir m = Some names /\
  filter (has_extension (lit ".zip")) names = [] /\
  (closedir_result m <? 0)%Z = false /\
  press_of sample_keys 272%Z (text_visible m (asked c)) = Ok /\
  exists c',
    choose_update_file bcb_sizes sample_keys m
      [272; KEY_DREAM_HOME sample_keys]%Z c
    = Fault NullPointer c' /\
    installed (trace (engine c')) = installed (trace (engine c)).
Proof.
  intros names m c.
  assert (E : filter (has_extension (lit ".zip")) names = [])
    by (vm_compute; reflexivity).
  do 2 (split; [reflexivity|]). split; [exact E|].
  do 2 (split; [reflexivity|]).
  exact (choose_update_file_empty_menu bcb_sizes sample_keys m names
           272%Z [] c eq_refl eq_refl E eq_refl eq_refl).
Defined.

(** The second of two backups, chosen. *)
Lemma choose_tar_file_result_witness :
  let names := [lit "Backup_20100101-120000_Sys.tar"; lit "readme.txt";
                lit "Backup_20100101-121500_Data.TAR"] in
  let m := sample_machine names in
  exists c',
    choose_tar_file bcb_sizes sample_keys m 255 [108; 272; 7]%Z
      (console_on logged_world)
    = Done (0%Z, Some (lit "Backup_20100101-121500_Data.TAR")) [7%Z] c' /\
    (0%Z = 0%Z <-> Some (lit "Backup_20100101-121500_Data.TAR") <> None) /\
    exists names' d,
      samdroid_dir m = Some names' /\ In d names' /\
      has_extension (lit ".tar") d = true /\
      lit "Backup_20100101-121500_Data.TAR" = cstr d /\
      length (lit "Backup_20100101-121500_Data.TAR") < 255.
Proof.
  intros names m.
  assert (E : exists c',
    choose_tar_file bcb_sizes sample_keys m 255 [108; 272; 7]%Z
      (console_on logged_world)
    = Done (0%Z, Some (lit "Backup_20100101-121500_Data.TAR")) [7%Z] c').
  { vm_compute. eauto. }
  destruct E as (c' & E). exists c'. split; [exact E|].
  destruct (choose_tar_file_result bcb_sizes sample_keys m 255 _ _ _ _ _ _ E)
    as (_ & R & S).
  split; [exact R | exact (S _ eq_refl)].
Defined.

(** A directory samdroid/ without a backup. *)
Lemma choose_tar_file_empty_menu_witness :
  let names := [lit "readme.txt"; lit ".tar"] in
  let m := sample_machine names in
  let c := console_on logged_world in
  sdcard m = Mounted /\
  length (cstr (sdcard_path m)) + 9 < PATH_MAX /\
  samdroid_dir m = Some names /\
  filter (has_extension (lit ".tar")) names = [] /\
  (closedir_result m <? 0)%Z = false /\
  press_of sample_keys 272%Z (text_visible m (asked c)) = Ok /\
  exists c',
    choose_tar_file bcb_sizes sample_keys m 255 [272%Z] c
    = Fault NullPointer c'.
Proof.
  intros names m c.
  assert (P : length (cstr (sdcard_path m)) + 9 < PATH_MAX)
    by (apply Nat.ltb_lt; vm_compute; reflexivity).
  assert (E : filter (has_extension (lit ".tar")) names = [])
    by (vm_compute; reflexivity).
  split; [reflexivity|]. split; [exact P|]. split; [reflexivity|].
  split; [exact E|]. do 2 (split; [reflexivity|]).
  exact (choose_tar_file_empty_menu bcb_sizes sample_keys m 255 names
           272%Z [] c eq_refl P eq_refl E eq_refl eq_refl).
Defined.

(** A backup with a name of 244 bytes: [choose_tar_file] copies it to
    [st], and the restore overruns [sfpath] with it. *)
Lemma restore_path_fits_witness :
  let m := sample_machine [long_backup] in
  exists c',
    choose_tar_file bcb_sizes sample_keys m restore_room [272%Z]
      (console_on logged_world)
    = Done (0%Z, Some long_backup) [] c' /\
    length long_backup = 244 /\
    restore_path long_backup = None.
Proof.
  intros m.
  assert (E : exists c',
    choose_tar_file bcb_sizes sample_keys m restore_room [272%Z]
      (console_on logged_world)
    = Done (0%Z, Some long_backup) [] c').
  { vm_compute. eauto. }
  destruct E as (c' & E). exists c'. split; [exact E|].
  split; [vm_compute; reflexivity|].
  destruct (restore_path_fits bcb_sizes sample_keys m _ _ _ _ _ _ E)
    as (_ & _ & R).
  apply R. apply Nat.ltb_lt. vm_compute. reflexivity.
Defined.

End MenuFacts.
